(** * Refactorix: inline variable, scope resolution, extract-variable prompt
      and the code-action provider

    A shallow embedding of
    - [inline-variable.ts]  ([inlineVariable], [findInlinableCode],
      [InlinableIdentifier], [InlinableDeclarations], [isShadowIn]),
    - [src/ast/scope.ts]    ([findScopePath], [findParentIfPath],
      [getFunctionScopePath], [isShadowIn],
      [findCommonAncestorToDeclareVariable],
      [findAncestorThatCanHaveVariableDeclaration], [getNames]),
    - [src/array.ts]        ([last], [allButLast], [isLast]),
    - [action-provider.ts]  ([RefactoringActionProvider]),
    and of the destructure prompt of extract-variable, which is only known
    through its test-suite. *)

From Stdlib Require Import List String Ascii Bool Arith ZArith Lia.
Import ListNotations.
Local Open Scope string_scope.
Local Open Scope list_scope.
Local Open Scope nat_scope.

Set Implicit Arguments.

(* ===================================================================== *)
(** ** Positions and selections *)
(* ===================================================================== *)

(** A position of the syntax tree or of the editor: a line and a column. *)
Record Position : Type := mkPosition { line : nat; character : nat }.

(** A source range as the parser attaches it to a node ([node.loc]). *)
Record SourceLocation : Type :=
  mkLoc { loc_start : Position; loc_end : Position }.

(** An editor selection; a cursor is a selection with [start = end]. *)
Record Selection : Type :=
  mkSelection { sel_start : Position; sel_end : Position }.

Module Pos.

Definition eqb (a b : Position) : bool :=
  (line a =? line b) && (character a =? character b).

(** [a] is before or at [b], lines first, then columns. *)
Definition leb (a b : Position) : bool :=
  (line a <? line b) || ((line a =? line b) && (character a <=? character b)).

End Pos.

Module Sel.

(** Modelled from the spec: [Selection.fromAST] of [editor/selection.ts]
    is not among the sources; positions are taken over as they are
    ("0-indexed or 1-indexed consistently"). *)
Definition fromAST (l : SourceLocation) : Selection :=
  mkSelection (loc_start l) (loc_end l).

(** Modelled from the spec: [Selection.isInside] is not among the sources;
    "true iff [the] range fully contains the selection". *)
Definition isInside (s outer : Selection) : bool :=
  Pos.leb (sel_start outer) (sel_start s) && Pos.leb (sel_end s) (sel_end outer).

Definition eqb (a b : Selection) : bool :=
  Pos.eqb (sel_start a) (sel_start b) && Pos.eqb (sel_end a) (sel_end b).

End Sel.

(** The four widening operations of [Selection] are not among the sources
    and the specification only says that they widen towards a line boundary
    or towards another selection.  They are kept abstract: whatever is
    proved below holds for every implementation of them. *)
Class SelectionOps : Type := {
  extendStartTo : Selection -> Selection -> Selection;
  extendEndTo : Selection -> Selection -> Selection;
  extendToStartOfLine : Selection -> Selection;
  extendToStartOfNextLine : Selection -> Selection
}.

(* ===================================================================== *)
(** ** Syntax trees *)
(* ===================================================================== *)

(** A node as the parser delivers it: a JavaScript object with a [type]
    tag, an optional range and, by key, its child nodes.

    - [ref] stands for the identity of the object: [a === b] is
      [ref a = ref b];
    - [name] is read on identifiers, [shorthand] on object properties;
    - [computed] is the flag of object properties and member expressions,
      set for [{ [key]: value }] and [object[property]]; the parser
      delivers it and nothing in this program reads it;
    - [children] lists the child nodes with the key they are stored under,
      in the order of the visitor keys of the node type; an array-valued
      key ([declarations], [params], [body]) contributes one entry per
      element, a key holding [null] contributes none.

    Every [type] is taken to be a node type of the parser, so that the
    traversals enter every node. *)
#[local] Unset Elimination Schemes.
Inductive Node : Type :=
  mkNode {
    ref : nat;
    type : string;
    loc : option SourceLocation;
    name : string;
    shorthand : bool;
    computed : bool;
    children : list (string * Node)
  }.
#[local] Set Elimination Schemes.

(** What a call leaves behind: a value, or a [TypeError] that was thrown
    (reading a property of [undefined] or [null]). *)
Inductive Completion (A : Type) : Type :=
| Normal (a : A)
| Threw.
Arguments Threw {A}.

Definition bind {A B : Type} (c : Completion A) (k : A -> Completion B)
  : Completion B :=
  match c with
  | Normal a => k a
  | Threw => Threw
  end.

Notation "x <- c ;; k" := (bind c (fun x => k))
  (at level 61, c at next level, right associativity).

Module Ast.

Definition setLoc (l : option SourceLocation) (n : Node) : Node :=
  mkNode (ref n) (type n) l (name n) (shorthand n) (computed n) (children n).

Definition setChildren (cs : list (string * Node)) (n : Node) : Node :=
  mkNode (ref n) (type n) (loc n) (name n) (shorthand n) (computed n) cs.

(** [a === b] on two nodes. *)
Definition sameNode (a b : Node) : bool := ref a =? ref b.

(** [node[key]] for a key that holds an array of nodes. *)
Definition fieldList (key : string) (n : Node) : list Node :=
  map snd (filter (fun kc => String.eqb (fst kc) key) (children n)).

(** [node[key]] for a key that holds one node or [null]. *)
Definition field (key : string) (n : Node) : option Node :=
  hd_error (fieldList key n).

(** The [t.isX(node)] guards of the parser's type library compare the
    [type] tag. *)
Definition hasType (t : string) (n : Node) : bool := String.eqb (type n) t.

Definition isIdentifier := hasType "Identifier".
Definition isVariableDeclaration := hasType "VariableDeclaration".
Definition isVariableDeclarator := hasType "VariableDeclarator".
Definition isAssignmentExpression := hasType "AssignmentExpression".
Definition isFunctionDeclaration := hasType "FunctionDeclaration".
Definition isBlockStatement := hasType "BlockStatement".
Definition isObjectProperty := hasType "ObjectProperty".
Definition isMemberExpression := hasType "MemberExpression".
Definition isUnaryExpression := hasType "UnaryExpression".
Definition isExportNamedDeclaration := hasType "ExportNamedDeclaration".

(** Modelled from the spec: [ast.isSelectableNode] is not among the
    sources; a node is selectable when it has a range of its own. *)
Definition isSelectableNode (n : Node) : bool :=
  match loc n with Some _ => true | None => false end.

(** Modelled from the spec: [ast.isSelectableVariableDeclarator] is not
    among the sources; it is the filter of [node.declarations] and keeps
    the declarators that have a range. *)
Definition isSelectableVariableDeclarator (n : Node) : bool :=
  isSelectableNode n.

(** Modelled from the spec: [ast.isSelectableIdentifier] is not among the
    sources; an identifier that has a range. *)
Definition isSelectableIdentifier (n : Node) : bool :=
  isIdentifier n && isSelectableNode n.

(** Modelled from the spec: [selection.isInsideNode(node)] is not among
    the sources; "true iff node's range fully contains the selection", so
    a node without a range contains nothing. *)
Definition isInsideNode (s : Selection) (n : Node) : bool :=
  match loc n with
  | Some l => Sel.isInside s (Sel.fromAST l)
  | None => false
  end.

(** One entry of the [ancestors] array handed to the [enter] callback of
    [ast.traverse]: the object [{ node, key, index }], of which this
    program reads [node] only. *)
Record Ancestor : Type := mkAncestor { node : Node; key : string }.

(** [ast.traverse(root, { enter })]: the calls [enter(node, ancestors)] in
    the order they are made, the root first with no ancestor, then every
    child in the order of the visitor keys; [ancestors] runs from the root
    to the immediate parent. *)
Fixpoint visitsFrom (ancestors : list Ancestor) (n : Node)
  : list (Node * list Ancestor) :=
  (n, ancestors)
    :: flat_map
         (fun kc : string * Node =>
            let (k, c) := kc in
            visitsFrom (ancestors ++ [mkAncestor n k]) c)
         (children n).

Definition visits (root : Node) : list (Node * list Ancestor) :=
  visitsFrom [] root.

(** [last] of [array.ts]: [array[array.length - 1]], which is
    [undefined] on the empty array. *)
Definition last {A : Type} (array : list A) : option A :=
  match array with
  | [] => None
  | _ => nth_error array (List.length array - 1)
  end.

(** [Selection.fromAST(node.loc)]: reading [start] of a [null] range
    throws. *)
Definition selectionOf (n : Node) : Completion Selection :=
  match loc n with
  | Some l => Normal (Sel.fromAST l)
  | None => Threw
  end.

End Ast.

(** The helpers of the [ast] module that [inline-variable.ts] calls and that
    are not among the sources.  [areEqual] is the structural equality of two
    nodes, [findExportedIdNames] lists the names a scope exports. *)
Class AstHelpers : Type := {
  areEqual : Node -> Node -> bool;
  findExportedIdNames : Node -> list string
}.

(* ===================================================================== *)
(** ** Shadow detection ([isShadowIn], in both files) *)
(* ===================================================================== *)

Module Shadow.
Section WithEquality.

(** [ast.areEqual] in [inline-variable.ts], [areEquivalent] in
    [ast/scope.ts]; the two functions are otherwise the same text. *)
Variable equal : Node -> Node -> bool.

Definition isDeclaredInFunction (id n : Node) : bool :=
  Ast.isFunctionDeclaration n
  && existsb (fun param => equal id param) (Ast.fieldList "params" n).

(** [ast.areEqual(id, declaration.id) && declaration.id !== id]. *)
Definition redeclares (id declaration : Node) : bool :=
  Ast.isVariableDeclarator declaration
  && match Ast.field "id" declaration with
     | Some declared => equal id declared && negb (Ast.sameNode declared id)
     | None => false
     end.

Definition isDeclaredInScope (id n : Node) : bool :=
  Ast.isBlockStatement n
  && existsb
       (fun child =>
          Ast.isVariableDeclaration child
          && existsb (redeclares id) (Ast.fieldList "declarations" child))
       (Ast.fieldList "body" n).

(** A variable is "shadow" if one of its ancestors redefines the
    identifier. *)
Definition isShadowIn (id : Node) (ancestors : list Ast.Ancestor) : bool :=
  existsb
    (fun a =>
       isDeclaredInFunction id (Ast.node a) || isDeclaredInScope id (Ast.node a))
    ancestors.

End WithEquality.
End Shadow.

(* ===================================================================== *)
(** ** Inline variable ([inline-variable.ts]) *)
(* ===================================================================== *)

Inductive ErrorReason : Type :=
| DidNotFoundInlinableCode
| CantInlineRedeclaredVariables
| CantInlineExportedVariables
| DidNotFoundInlinableCodeIdentifiers.

(** A modification handed to the editor: [{ code, selection }]. *)
Record Edit : Type := mkEdit { edit_code : string; edit_selection : Selection }.

(** The editor as [inlineVariable] uses it.  [read] is the text of the
    document at a selection, which [readThenWrite] hands to its callback. *)
Record Editor : Type := mkEditor { read : Selection -> string }.

(** The calls received by the editor.  [ReadThenWrite] carries what the
    callback returned. *)
Inductive EditorCall : Type :=
| ShowError (reason : ErrorReason)
| ReadThenWrite (selection : Selection) (edits : list Edit).

(** One invocation: the editor calls made, and whether a [TypeError]
    escaped (the promise is then rejected). *)
Record Run : Type := mkRun { calls : list EditorCall; threw : bool }.

Definition isReadThenWrite (c : EditorCall) : bool :=
  match c with
  | ReadThenWrite _ _ => true
  | ShowError _ => false
  end.

(** The edits an invocation emitted. *)
Definition emittedEdits (r : Run) : list Edit :=
  flat_map
    (fun c => match c with ReadThenWrite _ edits => edits | ShowError _ => [] end)
    (calls r).

Record IdentifierToReplace : Type :=
  mkIdentifierToReplace {
    replace_loc : SourceLocation;
    isInUnaryExpression : bool;
    shorthandKey : option string
  }.

Record MultiDeclarationsLocs : Type :=
  mkMultiDeclarationsLocs {
    isOtherAfterCurrent : bool;
    current : SourceLocation;
    other : SourceLocation
  }.

(** The two implementations of the [InlinableCode] interface: the leaf
    [InlinableIdentifier(id, scope, valueLoc)], which keeps
    [Selection.fromAST(valueLoc)], and the composite
    [InlinableDeclarations(child, multiDeclarationsLocs)]. *)
Inductive InlinableCode : Type :=
| InlinableIdentifier (id scope : Node) (selection : Selection)
| InlinableDeclarations (child : InlinableCode)
                        (declarationsLocs : MultiDeclarationsLocs).

(** A path of [ast.traverseAST]: the node and its parent node. *)
Record NodeAndParent : Type := mkNodeAndParent { path_node : Node; path_parent : Node }.

Module InlineVariable.
Section WithCollaborators.

Context {helpers : AstHelpers} {selections : SelectionOps}.

Definition isShadowIn : Node -> list Ast.Ancestor -> bool :=
  Shadow.isShadowIn areEqual.

(** *** The leaf *)

(** [enter] of [isRedeclared]: the new value of [result].  The left side
    of an assignment expression is never [null]; a node without one
    matches nothing. *)
Definition enterRedeclared (id : Node) (result : bool)
           (visit : Node * list Ast.Ancestor) : bool :=
  let n := fst visit in
  if negb (Ast.isAssignmentExpression n) then result
  else
    match Ast.field "left" n with
    | Some lhs => if negb (areEqual id lhs) then result else true
    | None => result
    end.

Definition leafIsRedeclared (id scope : Node) : bool :=
  fold_left (enterRedeclared id) (Ast.visits scope) false.

(** [findExportedIdNames(this.scope).includes(this.id.name)]. *)
Definition leafIsExported (id scope : Node) : bool :=
  existsb (String.eqb (name id)) (findExportedIdNames scope).

(** [ast.isFunctionDeclaration(parent)], where [parent] is
    [last(ancestors)]: the guard compares the [type] property of the
    object it is given, and an entry [{ node, key, index }] of
    [ancestors] has none. *)
Definition entryIsFunctionDeclaration (parent : Ast.Ancestor) : bool := false.

(** [parent.node[key] === node]. *)
Definition isChildAt (key : string) (parent n : Node) : bool :=
  match Ast.field key parent with
  | Some c => Ast.sameNode c n
  | None => false
  end.

(** [enter] of [identifiersToReplace]: the new value of [result]. *)
Definition enterReplace (id : Node) (result : list IdentifierToReplace)
           (visit : Node * list Ast.Ancestor)
  : Completion (list IdentifierToReplace) :=
  let (n, ancestors) := visit in
  match loc n with
  | None => Normal result
  | Some nodeLoc =>
    if negb (areEqual id n) then Normal result
    else if isShadowIn id ancestors then Normal result
    else
      let selection := Sel.fromAST nodeLoc in
      let isSameIdentifier := Ast.isInsideNode selection id in
      if isSameIdentifier then Normal result
      else
        match Ast.last ancestors with
        | None => Threw
        | Some parent =>
          if entryIsFunctionDeclaration parent then Normal result
          else if Ast.isObjectProperty (Ast.node parent)
                  && isChildAt "key" (Ast.node parent) n
          then Normal result
          else if Ast.isMemberExpression (Ast.node parent)
                  && isChildAt "property" (Ast.node parent) n
          then Normal result
          else
            Normal
              (result ++
                 [mkIdentifierToReplace
                    nodeLoc
                    (Ast.isUnaryExpression (Ast.node parent))
                    (if Ast.isObjectProperty (Ast.node parent)
                        && shorthand (Ast.node parent)
                        && Ast.isIdentifier n
                     then Some (name n)
                     else None)])
        end
  end.

Definition leafIdentifiersToReplace (id scope : Node)
  : Completion (list IdentifierToReplace) :=
  fold_left
    (fun acc visit => result <- acc ;; enterReplace id result visit)
    (Ast.visits scope)
    (Normal []).

Definition leafCodeToRemoveSelection (id : Node) (selection : Selection)
  : Completion Selection :=
  idSelection <- Ast.selectionOf id ;;
  Normal
    (extendToStartOfNextLine
       (extendToStartOfLine (extendStartTo selection idSelection))).

(** *** The interface, with the composite delegating to its child *)

Fixpoint selection (c : InlinableCode) : Selection :=
  match c with
  | InlinableIdentifier _ _ s => s
  | InlinableDeclarations child _ => selection child
  end.

Fixpoint isRedeclared (c : InlinableCode) : bool :=
  match c with
  | InlinableIdentifier id scope _ => leafIsRedeclared id scope
  | InlinableDeclarations child _ => isRedeclared child
  end.

Fixpoint isExported (c : InlinableCode) : bool :=
  match c with
  | InlinableIdentifier id scope _ => leafIsExported id scope
  | InlinableDeclarations child _ => isExported child
  end.

Fixpoint identifiersToReplace (c : InlinableCode)
  : Completion (list IdentifierToReplace) :=
  match c with
  | InlinableIdentifier id scope _ => leafIdentifiersToReplace id scope
  | InlinableDeclarations child _ => identifiersToReplace child
  end.

Definition codeToRemoveSelection (c : InlinableCode) : Completion Selection :=
  match c with
  | InlinableIdentifier id _ s => leafCodeToRemoveSelection id s
  | InlinableDeclarations _ locs =>
    Normal
      (if isOtherAfterCurrent locs
       then extendEndTo (Sel.fromAST (current locs)) (Sel.fromAST (other locs))
       else extendStartTo (Sel.fromAST (current locs)) (Sel.fromAST (other locs)))
  end.

End WithCollaborators.

(** *** Finding the declaration to inline *)

(** Lines 69-73 of [findInlinableCode], run on entering [n] below
    [parent]:
    [if (isExportNamedDeclaration(parent) && !isSelectableNode(node))
       node.loc = parent.loc]. *)
Definition inheritLoc (parent n : Node) : Node :=
  if Ast.isExportNamedDeclaration parent && negb (Ast.isSelectableNode n)
  then Ast.setLoc (loc parent) n
  else n.

(** The assignment [node.loc = parent.loc] changes the node object
    itself, and that object is what [InlinableIdentifier] later holds as
    [scope].  [entered parent n] is the tree below [n] as the walk leaves
    it: [n] is entered, which may change its range, then its children
    are, below the [n] just changed. *)
Fixpoint entered (parent n : Node) : Node :=
  let n' := inheritLoc parent n in
  Ast.setChildren
    (map (fun kc : string * Node => (fst kc, entered n' (snd kc))) (children n))
    n'.

(** The walk enters what is below the root, never the root. *)
Definition walked (root : Node) : Node :=
  Ast.setChildren
    (map (fun kc : string * Node => (fst kc, entered root (snd kc)))
         (children root))
    root.

(** The nodes below [parent] with their parent, a node before its
    children, in the order of the visitor keys. *)
Fixpoint pathsBelow (parent : Node) : list NodeAndParent :=
  flat_map
    (fun kc : string * Node =>
       mkNodeAndParent (snd kc) parent :: pathsBelow (snd kc))
    (children parent).

(** [ast.traverseAST(code, { enter })]: the paths given to [enter], each
    with the range it has when [enter] goes on to match it. *)
Definition traverseAST (code : Node) : list NodeAndParent :=
  pathsBelow (walked code).

(** [node.declarations.filter(ast.isSelectableVariableDeclarator)].  The
    filter narrows the type: a declarator that is kept has a range, and
    comes here with it. *)
Definition selectableDeclarations (n : Node) : list (Node * SourceLocation) :=
  flat_map
    (fun d =>
       if Ast.isSelectableVariableDeclarator d
       then match loc d with Some l => [(d, l)] | None => [] end
       else [])
    (Ast.fieldList "declarations" n).

(** [new InlinableIdentifier(id, parent, init.loc)] behind its two
    guards, [isSelectableIdentifier(id)] and [isSelectableNode(init)]. *)
Definition inlinableIdentifierOf (declaration parent : Node)
  : option InlinableCode :=
  match Ast.field "id" declaration, Ast.field "init" declaration with
  | Some id, Some init =>
    if negb (Ast.isSelectableIdentifier id) then None
    else
      match loc init with
      | Some initLoc => Some (InlinableIdentifier id parent (Sel.fromAST initLoc))
      | None => None
      end
  | _, _ => None
  end.

(** [declarations[index - 1]]: [undefined] before the first one. *)
Definition previousOf {A : Type} (declarations : list A) (index : nat)
  : option A :=
  match index with
  | 0 => None
  | S i => nth_error declarations i
  end.

(** We prefer to use the next declaration by default.
    Fallback on previous declaration when current is the last one. *)
Definition declarationsLocsOf (declarations : list (Node * SourceLocation))
           (index : nat) (currentLoc : SourceLocation)
  : option MultiDeclarationsLocs :=
  match nth_error declarations (index + 1), previousOf declarations index with
  | Some nextDeclaration, _ =>
    Some (mkMultiDeclarationsLocs true currentLoc (snd nextDeclaration))
  | None, Some previousDeclaration =>
    Some (mkMultiDeclarationsLocs false currentLoc (snd previousDeclaration))
  | None, None => None
  end.

(** The callback of [declarations.forEach]: the new value of [result]. *)
Definition eachDeclaration (selection : Selection) (parent : Node)
           (declarations : list (Node * SourceLocation))
           (result : option InlinableCode)
           (indexed : nat * (Node * SourceLocation))
  : option InlinableCode :=
  let (index, declaration) := indexed in
  if negb (Ast.isInsideNode selection (fst declaration)) then result
  else
    match declarationsLocsOf declarations index (snd declaration) with
    | None => result
    | Some declarationsLocs =>
      match inlinableIdentifierOf (fst declaration) parent with
      | None => result
      | Some inlinableId =>
        Some (InlinableDeclarations inlinableId declarationsLocs)
      end
    end.

Definition indexed {A : Type} (l : list A) : list (nat * A) :=
  combine (seq 0 (List.length l)) l.

(** [enter] of [findInlinableCode], after the range was inherited: the
    new value of [result]. *)
Definition enter (selection : Selection) (result : option InlinableCode)
           (path : NodeAndParent) : option InlinableCode :=
  let n := path_node path in
  let parent := path_parent path in
  if negb (Ast.isVariableDeclaration n) then result
  else if negb (Ast.isInsideNode selection n) then result
  else
    let declarations := selectableDeclarations n in
    match declarations with
    | [declaration] =>
      match inlinableIdentifierOf (fst declaration) parent with
      | Some inlinable => Some inlinable
      | None => result
      end
    | _ =>
      fold_left (eachDeclaration selection parent declarations)
                (indexed declarations) result
    end.

Definition findInlinableCode (code : Node) (selection : Selection)
  : option InlinableCode :=
  fold_left (enter selection) (traverseAST code) None.

(** *** The refactoring *)

Section WithEditor.

Context {helpers : AstHelpers} {selections : SelectionOps}.

(** The text that replaces one identifier. *)
Definition replacementCode (inlinedCode : string) (i : IdentifierToReplace)
  : string :=
  if isInUnaryExpression i then ("(" ++ inlinedCode ++ ")")%string
  else
    match shorthandKey i with
    | Some k =>
      (* an empty string is falsy *)
      if String.eqb k "" then inlinedCode
      else (k ++ ": " ++ inlinedCode)%string
    | None => inlinedCode
    end.

(** The callback given to [editor.readThenWrite]. *)
Definition modifications (inlinableCode : InlinableCode)
           (idsToReplace : list IdentifierToReplace) (inlinedCode : string)
  : Completion (list Edit) :=
  toRemove <- codeToRemoveSelection inlinableCode ;;
  Normal
    (map (fun i => mkEdit (replacementCode inlinedCode i)
                          (Sel.fromAST (replace_loc i)))
         idsToReplace
     ++ [mkEdit "" toRemove]).

(** [inlineVariable(code, selection, editor)]; [code] is the tree that
    [ast.traverseAST] walks.  A [TypeError] in a getter or in the callback
    of [readThenWrite] leaves the invocation before anything is written. *)
Definition inlineVariable (code : Node) (selection : Selection)
           (editor : Editor) : Run :=
  match findInlinableCode code selection with
  | None => mkRun [ShowError DidNotFoundInlinableCode] false
  | Some inlinableCode =>
    if isRedeclared inlinableCode
    then mkRun [ShowError CantInlineRedeclaredVariables] false
    else if isExported inlinableCode
    then mkRun [ShowError CantInlineExportedVariables] false
    else
      match identifiersToReplace inlinableCode with
      | Threw => mkRun [] true
      | Normal idsToReplace =>
        if List.length idsToReplace =? 0
        then mkRun [ShowError DidNotFoundInlinableCodeIdentifiers] false
        else
          let target := InlineVariable.selection inlinableCode in
          match modifications inlinableCode idsToReplace (read editor target) with
          | Normal edits => mkRun [ReadThenWrite target edits] false
          | Threw => mkRun [] true
          end
      end
  end.

End WithEditor.
End InlineVariable.

(* ===================================================================== *)
(** ** Scope paths ([ast/scope.ts]) *)
(* ===================================================================== *)

(** A path of the traversal library: a node and the path of its parent,
    [null] at the top.  [t.isX(path)] reads [path.type], which is the
    [type] of the node. *)
#[local] Unset Elimination Schemes.
Inductive NodePath : Type :=
  mkNodePath { nodeOf : Node; parentPath : option NodePath }.
#[local] Set Elimination Schemes.

Module Scope.

Definition hasType (t : string) (path : NodePath) : bool :=
  String.eqb (type (nodeOf path)) t.

(** A guard applied to [path.parentPath], which may be [null]. *)
Definition onParent (guard : NodePath -> bool) (path : NodePath) : bool :=
  match parentPath path with
  | Some p => guard p
  | None => false
  end.

Definition isExpressionStatement := hasType "ExpressionStatement".
Definition isVariableDeclaration := hasType "VariableDeclaration".
Definition isReturnStatement := hasType "ReturnStatement".
Definition isClassDeclaration := hasType "ClassDeclaration".
Definition isIfStatement := hasType "IfStatement".
Definition isWhileStatement := hasType "WhileStatement".
Definition isSwitchStatement := hasType "SwitchStatement".
Definition isForStatement := hasType "ForStatement".
Definition isThrowStatement := hasType "ThrowStatement".

(** [t.isExportDeclaration]: the alias of the three export node types. *)
Definition isExportDeclaration (path : NodePath) : bool :=
  hasType "ExportAllDeclaration" path
  || hasType "ExportDefaultDeclaration" path
  || hasType "ExportNamedDeclaration" path.

(** The callback [findScopePath] gives to [findParent]. *)
Definition isScopePath (parentPath : NodePath) : bool :=
  isExpressionStatement parentPath
  || (isVariableDeclaration parentPath
      && negb (onParent isExportDeclaration parentPath))
  || isReturnStatement parentPath
  || isClassDeclaration parentPath
  || (isIfStatement parentPath && negb (onParent isIfStatement parentPath))
  || isWhileStatement parentPath
  || isSwitchStatement parentPath
  || isExportDeclaration parentPath
  || isForStatement parentPath
  || isThrowStatement parentPath.

(** [path.findParent(callback)]: the first path above [path] that the
    callback accepts, [null] when there is none. *)
Fixpoint findParent (callback : NodePath -> bool) (path : NodePath)
  : option NodePath :=
  match path with
  | mkNodePath _ (Some p) =>
    if callback p then Some p else findParent callback p
  | mkNodePath _ None => None
  end.

Definition findScopePath (path : NodePath) : option NodePath :=
  findParent isScopePath path.

(** [isShadowIn] of this file, over [areEquivalent]. *)
Definition isShadowIn (areEquivalent : Node -> Node -> bool)
  : Node -> list Ast.Ancestor -> bool :=
  Shadow.isShadowIn areEquivalent.

(** The paths above [path], the nearest first. *)
Fixpoint ancestry (path : NodePath) : list NodePath :=
  match path with
  | mkNodePath _ (Some p) => p :: ancestry p
  | mkNodePath _ None => []
  end.

(** The kinds of statement the specification lists for [findScopePath],
    in its words. *)
Inductive ScopeKind (p : NodePath) : Prop :=
| expression_statement :
    type (nodeOf p) = "ExpressionStatement" -> ScopeKind p
| non_exported_variable_declaration :
    type (nodeOf p) = "VariableDeclaration" ->
    (forall q, parentPath p = Some q ->
               type (nodeOf q) <> "ExportAllDeclaration"
               /\ type (nodeOf q) <> "ExportDefaultDeclaration"
               /\ type (nodeOf q) <> "ExportNamedDeclaration") ->
    ScopeKind p
| return_statement : type (nodeOf p) = "ReturnStatement" -> ScopeKind p
| class_declaration : type (nodeOf p) = "ClassDeclaration" -> ScopeKind p
| top_level_if :
    type (nodeOf p) = "IfStatement" ->
    (forall q, parentPath p = Some q -> type (nodeOf q) <> "IfStatement") ->
    ScopeKind p
| while_statement : type (nodeOf p) = "WhileStatement" -> ScopeKind p
| switch_statement : type (nodeOf p) = "SwitchStatement" -> ScopeKind p
| export_declaration :
    type (nodeOf p) = "ExportAllDeclaration"
    \/ type (nodeOf p) = "ExportDefaultDeclaration"
    \/ type (nodeOf p) = "ExportNamedDeclaration" ->
    ScopeKind p
| for_statement : type (nodeOf p) = "ForStatement" -> ScopeKind p
| throw_statement : type (nodeOf p) = "ThrowStatement" -> ScopeKind p.

End Scope.

(* ===================================================================== *)
(** ** The destructure prompt of extract variable *)
(* ===================================================================== *)

Module ExtractVariable.

Inductive DestructureStrategy : Type := Destructure | Preserve.

(** One option given to [editor.askUserChoice]. *)
Record Choice : Type := mkChoice { label : string; value : DestructureStrategy }.

(** The expression under the selection, as far as the prompt looks at it:
    an identifier, a member access [object.property] or
    [object[property]], or anything else, kept as its text. *)
Inductive Expression : Type :=
| Identifier (name : string)
| MemberExpression (object : Expression) (property : string) (computed : bool)
| Other (source : string).

Fixpoint sourceOf (e : Expression) : string :=
  match e with
  | Identifier n => n
  | MemberExpression o p false => (sourceOf o ++ "." ++ p)%string
  | MemberExpression o p true => (sourceOf o ++ "[" ++ p ++ "]")%string
  | Other s => s
  end.

(** A member-expression chain: accesses on top of an identifier. *)
Fixpoint isChain (e : Expression) : bool :=
  match e with
  | Identifier _ => true
  | MemberExpression o _ _ => isChain o
  | Other _ => false
  end.

(** Some access of the chain is computed. *)
Fixpoint hasComputedSegment (e : Expression) : bool :=
  match e with
  | MemberExpression o _ c => c || hasComputedSegment o
  | _ => false
  end.

(** Modelled from the spec: [extract-variable.ts] is not among the
    sources, only its tests are.  "If the extracted node is a
    non-computed member-expression chain of two or more links, the engine
    must ask the caller to choose between Destructure and Preserve,
    unless any link in the chain is a computed member access; also no
    question is asked when the chain is depth 1 (a bare identifier)."
    The options are "exactly two, in the fixed order
    [Destructure, Preserve], with human-readable labels showing the
    literal resulting code shape"; the labels are those of the tests.
    The result is the list of the calls of [askUserChoice]. *)
Definition askUserChoiceCalls (extracted : Expression) : list (list Choice) :=
  match extracted with
  | MemberExpression o p _ =>
    if isChain extracted && negb (hasComputedSegment extracted)
    then
      [[mkChoice
          ("Destructure => `const { " ++ p ++ " } = " ++ sourceOf o ++ "`")
          Destructure;
        mkChoice
          ("Preserve => `const " ++ p ++ " = " ++ sourceOf extracted ++ "`")
          Preserve]]
    else []
  | _ => []
  end.

End ExtractVariable.

(* ===================================================================== *)
(** ** The code-action provider ([action-provider.ts]) *)
(* ===================================================================== *)

Module ActionProvider.

(** [filePath.includes(part)]. *)
Fixpoint includes (s part : string) : bool :=
  String.prefix part s
  || match s with
     | EmptyString => false
     | String _ rest => includes rest part
     end.

(** What a handler did to the path it was given, as the traversal reads
    it when the handler returns: nothing, [path.skip()] or [path.stop()].
    The path is the live path of the traversal. *)
Inductive Control : Type := Continue | Skip | Stop.

(** The flags set on one path add up. *)
Definition both (a b : Control) : Control :=
  match a, b with
  | Stop, _ => Stop
  | _, Stop => Stop
  | Skip, _ => Skip
  | _, Skip => Skip
  | Continue, Continue => Continue
  end.

(** What a call of a handler leaves: the paths it called [onMatch] on, in
    order, and what it did to the path. *)
Record Visited : Type :=
  mkVisited { matches : list NodeAndParent; control : Control }.

(** What a visitor handler does with a path: the above, or it throws. *)
Definition Handler : Type := NodeAndParent -> Completion Visited.

(** A visitor: an [enter] handler and handlers by node type, each of
    which may be missing. *)
Record Visitor : Type :=
  mkVisitor { enter : option Handler; forType : string -> option Handler }.

Record Command : Type := mkCommand { key : string; title : string }.

Record ActionProviderConfig : Type :=
  mkActionProviderConfig {
    message : string;
    createVisitor : Selection -> Visitor;
    updateMessage : option (NodeAndParent -> string);
    isPreferred : bool
  }.

(** [RefactoringWithActionProvider]. *)
Record Refactoring : Type :=
  mkRefactoring { command : Command; actionProvider : ActionProviderConfig }.

Record VSCodeCommand : Type :=
  mkVSCodeCommand { vs_command : string; vs_title : string }.

(** [vscode.CodeAction], of kind [RefactorRewrite]. *)
Record CodeAction : Type :=
  mkCodeAction {
    action_title : string;
    action_isPreferred : bool;
    action_command : VSCodeCommand
  }.

(** The editor the adapter creates: its text and its selection. *)
Record VSCodeEditor : Type :=
  mkVSCodeEditor { editor_code : string; editor_selection : Selection }.

(** What the provider takes from its surroundings: the configuration, the
    active editor if there is one, and the parser, which throws on text
    it cannot parse. *)
Record Host : Type :=
  mkHost {
    getIgnoredFolders : list string;
    shouldShowInQuickFix : string -> bool;
    createVSCodeEditor : option VSCodeEditor;
    parse : string -> Completion Node
  }.

(** A [Map<string, V>]: the keys in the order they were first set. *)
Fixpoint mapSet {V : Type} (k : string) (v : V) (m : list (string * V))
  : list (string * V) :=
  match m with
  | [] => [(k, v)]
  | (k', v') :: rest =>
    if String.eqb k' k then (k, v) :: rest else (k', v') :: mapSet k v rest
  end.

Definition mapValues {V : Type} (m : list (string * V)) : list V := map snd m.

Definition runHandler (h : option Handler) (path : NodeAndParent)
  : Completion Visited :=
  match h with
  | Some f => f path
  | None => Normal (mkVisited [] Continue)
  end.

(** [this.visit(visitor, path)]: the calls of [onMatch] it leads to, and
    what the two handlers did to the path.  The second handler is called
    whatever the first one did. *)
Definition visit (visitor : Visitor) (path : NodeAndParent)
  : Completion Visited :=
  fromEnter <- runHandler (enter visitor) path ;;
  fromType <- runHandler (forType visitor (type (path_node path))) path ;;
  Normal (mkVisited (matches fromEnter ++ matches fromType)
                    (both (control fromEnter) (control fromType))).

(** The callback given to [createVisitor].  [actionProvider.message] is
    overwritten on the refactoring object itself and the object is then
    put in the map; the value kept here is the object as it is at that
    moment. *)
Definition onMatch (refactoring : Refactoring)
           (applicable : list (string * Refactoring))
           (visitedPath : NodeAndParent) : list (string * Refactoring) :=
  let provider := actionProvider refactoring in
  let provider' :=
      match updateMessage provider with
      | Some update =>
        mkActionProviderConfig (update visitedPath) (createVisitor provider)
                               (updateMessage provider) (isPreferred provider)
      | None => provider
      end in
  mapSet (key (command refactoring))
         (mkRefactoring (command refactoring) provider')
         applicable.

(** The body of [refactoringsToCheck.forEach] for one refactoring, on the
    map and on what was done to the path so far. *)
Definition check (selection : Selection) (path : NodeAndParent)
           (state : list (string * Refactoring) * Control)
           (refactoring : Refactoring)
  : Completion (list (string * Refactoring) * Control) :=
  visited <- visit (createVisitor (actionProvider refactoring) selection) path ;;
  Normal (fold_left (onMatch refactoring) (matches visited) (fst state),
          both (snd state) (control visited)).

Definition foldM {S A : Type} (f : S -> A -> Completion S) (l : list A) (s : S)
  : Completion S :=
  fold_left (fun acc a => s' <- acc ;; f s' a) l (Normal s).

(** The traversal on reaching the child [kc] of [parent], with [walk] what
    was done so far: a state and whether the traversal was stopped.
    Nothing is entered once a path was stopped; the children of a path
    that was skipped are not entered; [below] is the walk below a
    node. *)
Definition enterChild {S : Type}
           (below : Node -> Completion (S * bool) -> Completion (S * bool))
           (enter : S -> NodeAndParent -> Completion (S * Control))
           (parent : Node) (walk : Completion (S * bool)) (kc : string * Node)
  : Completion (S * bool) :=
  w <- walk ;;
  if snd w then Normal w
  else
    entered <- enter (fst w) (mkNodeAndParent (snd kc) parent) ;;
    match snd entered with
    | Stop => Normal (fst entered, true)
    | Skip => Normal (fst entered, false)
    | Continue => below (snd kc) (Normal (fst entered, false))
    end.

Fixpoint traverseBelow {S : Type}
         (enter : S -> NodeAndParent -> Completion (S * Control))
         (parent : Node) (walk : Completion (S * bool)) {struct parent}
  : Completion (S * bool) :=
  fold_left (enterChild (traverseBelow enter) enter parent) (children parent) walk.

(** [t.traverseAST(ast, { enter })] for a callback that works on a state
    and tells what it did to the path: the paths below the root are
    entered, a node before its children. *)
Definition traverseAST {S : Type}
           (enter : S -> NodeAndParent -> Completion (S * Control))
           (ast : Node) (s : S) : Completion S :=
  w <- traverseBelow enter ast (Normal (s, false)) ;;
  Normal (fst w).

(** The callback on the state alone, leaving out what it did to the
    path. *)
Definition entering {S : Type}
           (enter : S -> NodeAndParent -> Completion (S * Control))
           (s : S) (path : NodeAndParent) : Completion S :=
  e <- enter s path ;; Normal (fst e).

(** The [enter] callback of [findApplicableRefactorings]. *)
Definition checkAll (selection : Selection)
           (refactoringsToCheck : list Refactoring)
           (applicable : list (string * Refactoring)) (path : NodeAndParent)
  : Completion (list (string * Refactoring) * Control) :=
  foldM (check selection path) refactoringsToCheck (applicable, Continue).

Definition findApplicableRefactorings (host : Host)
           (refactorings : list Refactoring) (ast : Node)
           (selection : Selection) : Completion (list Refactoring) :=
  let refactoringsToCheck :=
      filter (fun r => shouldShowInQuickFix host (key (command r)))
             refactorings in
  applicable <- traverseAST (checkAll selection refactoringsToCheck) ast [] ;;
  Normal (mapValues applicable).

(** The three bytes of the sparkles sign that ends a title. *)
Definition sparkles : string :=
  String (ascii_of_nat 226) (String (ascii_of_nat 156)
    (String (ascii_of_nat 168) EmptyString)).

Definition buildCodeActionFor (refactoring : Refactoring) : CodeAction :=
  mkCodeAction
    (message (actionProvider refactoring) ++ " " ++ sparkles)%string
    (isPreferred (actionProvider refactoring))
    (mkVSCodeCommand
       ("abracadabra." ++ key (command refactoring))%string
       (title (command refactoring))).

Definition isNavigatingAnIgnoredFile (host : Host) (filePath : string) : bool :=
  existsb (fun ignored => includes filePath ("/" ++ ignored ++ "/")%string)
          (getIgnoredFolders host).

Definition NO_ACTION : list CodeAction := [].

(** [try { ... } catch { return NO_ACTION }]. *)
Definition orNoAction (body : Completion (list CodeAction))
  : Completion (list CodeAction) :=
  match body with
  | Normal actions => Normal actions
  | Threw => Normal NO_ACTION
  end.

Definition provideCodeActions (host : Host) (refactorings : list Refactoring)
           (documentPath : string) : Completion (list CodeAction) :=
  if isNavigatingAnIgnoredFile host documentPath then Normal NO_ACTION
  else
    match createVSCodeEditor host with
    | None => Normal NO_ACTION
    | Some editor =>
      orNoAction
        (ast <- parse host (editor_code editor) ;;
         applicable <-
           findApplicableRefactorings host refactorings ast
                                      (editor_selection editor) ;;
         Normal (map buildCodeActionFor applicable))
    end.

End ActionProvider.

(* ===================================================================== *)
(** ** The array helpers ([array.ts]) *)
(* ===================================================================== *)

Module Arrays.

(** [last] is [Ast.last] above. *)

(** [array.slice(0, -1)]: the elements before the index [length - 1],
    none of them when the array is empty. *)
Definition allButLast {A : Type} (array : list A) : list A :=
  firstn (List.length array - 1) array.

(** [array.length - 1 === index], on numbers: [-1] for the empty array. *)
Definition isLast {A : Type} (array : list A) (index : Z) : bool :=
  (Z.of_nat (List.length array) - 1 =? index)%Z.

End Arrays.

(* ===================================================================== *)
(** ** The other functions of [ast/scope.ts] *)
(* ===================================================================== *)

Module ScopePaths.


(** Modelled from the spec: [isSelectablePath] of [ast/selection.ts] is not
    among the sources; a path is selectable when its node has a range. *)
Definition isSelectablePath (path : NodePath) : bool :=
  Ast.isSelectableNode (nodeOf path).

Definition isProgram := Scope.hasType "Program".
Definition isBlockStatement := Scope.hasType "BlockStatement".

(** [path.getAncestry()]: the path, then the paths above it. *)
Definition getAncestry (path : NodePath) : list NodePath :=
  path :: Scope.ancestry path.

(** [allAncestors[allAncestors.length - 1]], of an array that holds at
    least the path. *)
Definition getProgramPath (path : NodePath) : NodePath :=
  match Ast.last (getAncestry path) with
  | Some top => top
  | None => path
  end.

(** [t.isForXStatement]: the alias of the for-in and for-of statements. *)
Definition isForXStatement (path : NodePath) : bool :=
  Scope.hasType "ForInStatement" path || Scope.hasType "ForOfStatement" path.

(** [t.isX(parent, { key: node })]: [parent[key] === node]. *)
Definition holdsAt (key : string) (parent : NodePath) (n : Node) : bool :=
  match Ast.field key (nodeOf parent) with
  | Some held => Ast.sameNode held n
  | None => false
  end.

Section WithAliases.

(** The node types under the aliases [Function] and [Statement] of the
    type library; the tables are not part of this repository. *)
Variable isFunctionType : string -> bool.
Variable isStatementType : string -> bool.

(** [path.isFunction()] looks the node type up under the alias. *)
Definition isFunction (path : NodePath) : bool :=
  isFunctionType (type (nodeOf path)).

(** [path.isStatement()] is more than the lookup: on a path the traversal
    library checks

    [[
    if (nodeIsStatement(node)) {
      if (isVariableDeclaration(node)) {
        if (isForXStatement(parent, { left: node })) return false;
        if (isForStatement(parent, { init: node })) return false;
      }
      return true;
    } else {
      return false;
    }
    ]]

    so that the declaration in the head of a loop is not a statement.
    The parent node is the node of the parent path. *)
Definition isStatement (path : NodePath) : bool :=
  if isStatementType (type (nodeOf path))
  then
    if Scope.isVariableDeclaration path
    then
      match parentPath path with
      | Some parent =>
        if isForXStatement parent && holdsAt "left" parent (nodeOf path)
        then false
        else if Scope.isForStatement parent && holdsAt "init" parent (nodeOf path)
        then false
        else true
      | None => true
      end
    else true
  else false.

(** [path.getFunctionParent()]. *)
Definition getFunctionParent (path : NodePath) : option NodePath :=
  Scope.findParent isFunction path.

(** [path.getFunctionParent() || path.parentPath]. *)
Definition getFunctionScopePath (path : NodePath) : option NodePath :=
  match getFunctionParent path with
  | Some functionPath => Some functionPath
  | None => parentPath path
  end.

(** The two [return path] of [findAncestorThatCanHaveVariableDeclaration]. *)
Definition canHaveVariableDeclaration (path : NodePath) : bool :=
  if isSelectablePath path
  then
    if isProgram path then true
    else if isStatement path && negb (isBlockStatement path) then true
    else false
  else false.

(** [findAncestorThatCanHaveVariableDeclaration(path)] for a path that is
    not [null]. *)
Fixpoint findAncestorFrom (path : NodePath) : option NodePath :=
  if canHaveVariableDeclaration path then Some path
  else
    match path with
    | mkNodePath _ (Some above) => findAncestorFrom above
    | mkNodePath _ None => None
    end.

Definition findAncestorThatCanHaveVariableDeclaration (path : option NodePath)
  : option NodePath :=
  match path with
  | None => None
  | Some p => findAncestorFrom p
  end.

(** [path.getEarliestCommonAncestorFrom(otherPaths)] of the traversal
    library.  It returns a path or throws; it can also return
    [undefined], here [None], when it finds no path below the deepest
    common ancestor for one of the paths. *)
Variable getEarliestCommonAncestorFrom :
  NodePath -> list NodePath -> Completion (option NodePath).

(** [findAncestorThatCanHaveVariableDeclaration(ancestor)] as it is called
    here, on what the library returned or on the program path.
    [undefined] is not [null]: for it the first test does not return, and
    reading its [node] throws, outside the [try]. *)
Definition findCommonAncestorToDeclareVariable
           (path : NodePath) (otherPaths : list NodePath)
  : Completion (option NodePath) :=
  let ancestor :=
      match getEarliestCommonAncestorFrom path otherPaths with
      | Normal found => found
      | Threw =>
        (* If it fails, it means it couldn't find the earliest ancestor. *)
        Some (getProgramPath path)
      end in
  match ancestor with
  | Some found => Normal (findAncestorThatCanHaveVariableDeclaration (Some found))
  | None => Threw
  end.

End WithAliases.

Definition isArrayPattern := Ast.hasType "ArrayPattern".
Definition isAssignmentPattern := Ast.hasType "AssignmentPattern".
Definition isRestElement := Ast.hasType "RestElement".
Definition isObjectPattern := Ast.hasType "ObjectPattern".

(** [node[key].flatMap(f)] over the children of a node; a [null] element
    gives nothing. *)
Fixpoint eachAt {B : Type} (key : string) (f : Node -> list B)
         (cs : list (string * Node)) : list B :=
  match cs with
  | [] => []
  | (k, c) :: rest =>
    (if String.eqb k key then f c else []) ++ eachAt key f rest
  end.

(** [f(node[key])] over the children of a node; nothing for [null]. *)
Fixpoint firstAt {B : Type} (key : string) (f : Node -> list B)
         (cs : list (string * Node)) : list B :=
  match cs with
  | [] => []
  | (k, c) :: rest => if String.eqb k key then f c else firstAt key f rest
  end.

Fixpoint getNames (n : Node) : list string :=
  if isArrayPattern n then eachAt "elements" getNames (children n)
  else if isAssignmentPattern n then firstAt "left" getNames (children n)
  else if Ast.isIdentifier n then [name n]
  else if isRestElement n then firstAt "argument" getNames (children n)
  else if isObjectPattern n then eachAt "properties" getNames (children n)
  else if Ast.isObjectProperty n then firstAt "key" getNames (children n)
  else [].

(** The keys [getNames] goes through. *)
Definition patternKeys : list string :=
  ["elements"; "left"; "argument"; "properties"; "key"].

(** The children that are not stored under [key], each changed by [f]. *)
Fixpoint dropAt (key : string) (f : Node -> Node) (cs : list (string * Node))
  : list (string * Node) :=
  match cs with
  | [] => []
  | (k, c) :: rest =>
    if String.eqb k key then dropAt key f rest
    else (k, f c) :: dropAt key f rest
  end.

(** The tree without what is stored under [key], at any depth. *)
Fixpoint without (key : string) (n : Node) : Node :=
  Ast.setChildren (dropAt key (without key) (children n)) n.

End ScopePaths.

(* ===================================================================== *)
(** ** What the specification says, as predicates *)
(* ===================================================================== *)

(** *** Shadow detection *)

Section ShadowSpecification.

Variable equal : Node -> Node -> bool.

(** (a) a function declaration with a parameter equal to [id]. *)
Definition ShadowedByParameter (id n : Node) : Prop :=
  type n = "FunctionDeclaration"
  /\ exists param, In param (Ast.fieldList "params" n) /\ equal id param = true.

(** (b) a block statement whose direct body has a variable declaration
    with a declarator whose id is equal to [id] and is another node. *)
Definition ShadowedByBlock (id n : Node) : Prop :=
  type n = "BlockStatement"
  /\ exists child declaration declared,
      In child (Ast.fieldList "body" n)
      /\ type child = "VariableDeclaration"
      /\ In declaration (Ast.fieldList "declarations" child)
      /\ type declaration = "VariableDeclarator"
      /\ Ast.field "id" declaration = Some declared
      /\ equal id declared = true
      /\ ref declared <> ref id.


End ShadowSpecification.

(** *** Inline variable: what the specification says, as predicates *)

Section InlineSpecification.

Context {helpers : AstHelpers} {selections : SelectionOps}.

(** The identifier an inlinable code declares and the scope that holds the
    declaration; a composite has those of its child. *)
Fixpoint declaredId (c : InlinableCode) : Node :=
  match c with
  | InlinableIdentifier id _ _ => id
  | InlinableDeclarations child _ => declaredId child
  end.

Fixpoint declaringScope (c : InlinableCode) : Node :=
  match c with
  | InlinableIdentifier _ scope _ => scope
  | InlinableDeclarations child _ => declaringScope child
  end.

(** Some assignment expression in the scope has a left side equal to the
    identifier. *)
Definition Reassigned (id scope : Node) : Prop :=
  exists n ancestors lhs,
    In (n, ancestors) (Ast.visits scope)
    /\ type n = "AssignmentExpression"
    /\ Ast.field "left" n = Some lhs
    /\ areEqual id lhs = true.

(** The name of the identifier is among the names the scope exports. *)
Definition Exported (id scope : Node) : Prop :=
  In (name id) (findExportedIdNames scope).

(** The occurrence lies within the range of the declared identifier: it is
    the declaration site. *)
Definition isDeclarationSite (id n : Node) : bool :=
  match loc n with
  | Some l => Ast.isInsideNode (Sel.fromAST l) id
  | None => false
  end.

(** The node is the [key] of an object property, its immediate parent. *)
Definition isObjectPropertyKey (n : Node) (ancestors : list Ast.Ancestor) : bool :=
  match Ast.last ancestors with
  | Some parent =>
    Ast.isObjectProperty (Ast.node parent)
    && InlineVariable.isChildAt "key" (Ast.node parent) n
  | None => false
  end.

(** The node is the [property] of a member expression, its immediate
    parent. *)
Definition isMemberPropertyName (n : Node) (ancestors : list Ast.Ancestor) : bool :=
  match Ast.last ancestors with
  | Some parent =>
    Ast.isMemberExpression (Ast.node parent)
    && InlineVariable.isChildAt "property" (Ast.node parent) n
  | None => false
  end.

(** A node of the scope that has a range, is equal to the declared
    identifier, is not shadowed and is not the declaration site. *)
Definition isOccurrence (id : Node) (visit : Node * list Ast.Ancestor) : bool :=
  Ast.isSelectableNode (fst visit)
  && areEqual id (fst visit)
  && negb (InlineVariable.isShadowIn id (snd visit))
  && negb (isDeclarationSite id (fst visit)).

(** An occurrence that is neither an object-property key nor the property
    name of a member expression: a site to replace. *)
Definition isReplacementSite (id : Node) (visit : Node * list Ast.Ancestor) : bool :=
  isOccurrence id visit
  && negb (isObjectPropertyKey (fst visit) (snd visit))
  && negb (isMemberPropertyName (fst visit) (snd visit)).

(** The site is the value of a shorthand object property. *)
Definition isShorthandValue (n parent : Node) : bool :=
  Ast.isObjectProperty parent && shorthand parent && Ast.isIdentifier n.

(** What is recorded for a site: its range, and what its immediate parent
    is. *)
Definition recordOf (visit : Node * list Ast.Ancestor) : list IdentifierToReplace :=
  match loc (fst visit), Ast.last (snd visit) with
  | Some l, Some parent =>
    [mkIdentifierToReplace
       l
       (Ast.isUnaryExpression (Ast.node parent))
       (if isShorthandValue (fst visit) (Ast.node parent)
        then Some (name (fst visit))
        else None)]
  | _, _ => []
  end.

Definition replacementSites (id scope : Node) : list (Node * list Ast.Ancestor) :=
  filter (isReplacementSite id) (Ast.visits scope).









(** The text put at a site, for the initializer text [init]. *)
Definition ReplacedBy (init : string) (n parent : Node) (code : string) : Prop :=
  (Ast.isUnaryExpression parent = true ->
   code = ("(" ++ init ++ ")")%string)
  /\ (Ast.isUnaryExpression parent = false ->
      isShorthandValue n parent = true ->
      name n <> "" ->
      code = (name n ++ ": " ++ init)%string)
  /\ (Ast.isUnaryExpression parent = false ->
      isShorthandValue n parent = false ->
      code = init).

(** The edit made at a site. *)
Definition EditAt (init : string) (visit : Node * list Ast.Ancestor) (e : Edit)
  : Prop :=
  exists l parent,
    loc (fst visit) = Some l
    /\ Ast.last (snd visit) = Some parent
    /\ edit_selection e = Sel.fromAST l
    /\ ReplacedBy init (fst visit) (Ast.node parent) (edit_code e).

(** The results assigned to [result] during the walk, in order: for each
    path, what [enter] leaves when it assigns. *)
Definition matchesOf (selection : Selection) (code : Node) : list InlinableCode :=
  flat_map
    (fun path =>
       match InlineVariable.enter selection None path with
       | Some r => [r]
       | None => []
       end)
    (InlineVariable.traverseAST code).

End InlineSpecification.

(** *** The range that is removed *)

Section RemovalSpecification.

Context {selections : SelectionOps}.

(** The removal of a single declarator: the initializer, its start taken
    back to the identifier, then to the start of the line, its end taken
    to the start of the next line. *)
Definition LeafRemoval (declaration : Node) (c : InlinableCode) : Prop :=
  exists id init idLoc initLoc,
    Ast.field "id" declaration = Some id
    /\ Ast.field "init" declaration = Some init
    /\ loc id = Some idLoc
    /\ loc init = Some initLoc
    /\ InlineVariable.codeToRemoveSelection c
       = Normal
           (extendToStartOfNextLine
              (extendToStartOfLine
                 (extendStartTo (Sel.fromAST initLoc) (Sel.fromAST idLoc)))).

(** The removal of the declarator at [index] among several: its range,
    the end taken to the next declarator when there is one, the start
    taken back to the previous declarator otherwise. *)
Definition MergedWithSibling (declarations : list (Node * SourceLocation))
           (index : nat) (declaration : Node * SourceLocation)
           (c : InlinableCode) : Prop :=
  (exists next,
      nth_error declarations (index + 1) = Some next
      /\ InlineVariable.codeToRemoveSelection c
         = Normal (extendEndTo (Sel.fromAST (snd declaration))
                               (Sel.fromAST (snd next))))
  \/ (index + 1 = List.length declarations
      /\ exists i previous,
          index = S i
          /\ nth_error declarations i = Some previous
          /\ InlineVariable.codeToRemoveSelection c
             = Normal (extendStartTo (Sel.fromAST (snd declaration))
                                     (Sel.fromAST (snd previous)))).

(** The declarator has an identifier and an initializer, each with a
    range. *)
Definition HasIdAndInit (declaration : Node) : Prop :=
  exists id init,
    Ast.field "id" declaration = Some id
    /\ type id = "Identifier"
    /\ loc id <> None
    /\ Ast.field "init" declaration = Some init
    /\ loc init <> None.

(** [path] is the last variable declaration around the selection that the
    walk enters. *)
Definition LastDeclarationAround (selection : Selection) (code : Node)
           (path : NodeAndParent) : Prop :=
  exists before after,
    InlineVariable.traverseAST code = before ++ path :: after
    /\ type (path_node path) = "VariableDeclaration"
    /\ Ast.isInsideNode selection (path_node path) = true
    /\ Forall (fun later =>
                 type (path_node later) = "VariableDeclaration" ->
                 Ast.isInsideNode selection (path_node later) = false)
              after.

(** [declaration], at [index], is the last of the declarators around the
    selection. *)
Definition LastDeclaratorAround (selection : Selection)
           (declarations : list (Node * SourceLocation)) (index : nat)
           (declaration : Node * SourceLocation) : Prop :=
  nth_error declarations index = Some declaration
  /\ Ast.isInsideNode selection (fst declaration) = true
  /\ forall later other,
      index < later ->
      nth_error declarations later = Some other ->
      Ast.isInsideNode selection (fst other) = false.

(** What the declaration at [path] makes of the removal. *)
Definition RemovalAt (selection : Selection) (path : NodeAndParent)
           (c : InlinableCode) : Prop :=
  let declarations := InlineVariable.selectableDeclarations (path_node path) in
  (exists declaration,
      declarations = [declaration] /\ LeafRemoval (fst declaration) c)
  \/ (List.length declarations <> 1
      /\ exists index declaration,
          nth_error declarations index = Some declaration
          /\ Ast.isInsideNode selection (fst declaration) = true
          /\ MergedWithSibling declarations index declaration c).

End RemovalSpecification.

(** *** The range inherited from a named export *)


(** *** The code-action provider *)

Section ProviderSpecification.

Import ActionProvider.

(** The path goes through an ignored folder: it contains [/ignored/]. *)
Definition InIgnoredFolder (host : Host) (filePath : string) : Prop :=
  exists ignored before after,
    In ignored (getIgnoredFolders host)
    /\ filePath = (before ++ ("/" ++ ignored ++ "/") ++ after)%string.

(** The map has one entry per key, and keeps each refactoring under its
    own command key. *)
Definition KeyedOnce (m : list (string * Refactoring)) : Prop :=
  NoDup (map fst m)
  /\ Forall (fun kr => key (command (snd kr)) = fst kr) m.

End ProviderSpecification.

(** *** The other functions of [ast/scope.ts] *)

Section ScopePathsSpecification.

Variable isStatementType : string -> bool.

(** The variable declaration in the head of a loop: the [left] of a
    for-in or for-of statement, the [init] of a for statement. *)
Definition InLoopHead (p : NodePath) : Prop :=
  type (nodeOf p) = "VariableDeclaration"
  /\ exists loop held,
      parentPath p = Some loop
      /\ (((type (nodeOf loop) = "ForInStatement"
            \/ type (nodeOf loop) = "ForOfStatement")
           /\ Ast.field "left" (nodeOf loop) = Some held)
          \/ (type (nodeOf loop) = "ForStatement"
              /\ Ast.field "init" (nodeOf loop) = Some held))
      /\ ref held = ref (nodeOf p).

(** A path where a variable can be declared: it has a range, and it is
    the program or a statement that is neither a block nor the
    declaration in the head of a loop. *)
Definition CanDeclare (p : NodePath) : Prop :=
  loc (nodeOf p) <> None
  /\ (type (nodeOf p) = "Program"
      \/ (isStatementType (type (nodeOf p)) = true
          /\ ~ InLoopHead p
          /\ type (nodeOf p) <> "BlockStatement")).

End ScopePathsSpecification.

(** *** What an action of the provider stands for *)

Section ProviderMatches.

Import ActionProvider.

(** On entering [path], the visitor of [r] calls its callback with
    [visitedPath]. *)
Definition MatchesAt (selection : Selection) (r : Refactoring)
           (path visitedPath : NodeAndParent) : Prop :=
  exists visited,
    visit (createVisitor (actionProvider r) selection) path = Normal visited
    /\ In visitedPath (matches visited).

(** [applied] is [r] as the match on [visitedPath] leaves it: the same
    command and preference, and the message [updateMessage] gives for the
    visited path when [r] has one. *)
Definition AppliedAs (r applied : Refactoring) (visitedPath : NodeAndParent) : Prop :=
  command applied = command r
  /\ isPreferred (actionProvider applied) = isPreferred (actionProvider r)
  /\ message (actionProvider applied)
     = match updateMessage (actionProvider r) with
       | Some update => update visitedPath
       | None => message (actionProvider r)
       end.

(** [applied] comes from a refactoring of the provider that is shown in
    the quick fixes and that matched at a path of the tree. *)
Definition Justified (host : Host) (refactorings : list Refactoring)
           (ast : Node) (selection : Selection) (applied : Refactoring) : Prop :=
  exists r path visitedPath,
    In r refactorings
    /\ shouldShowInQuickFix host (key (command r)) = true
    /\ In path (InlineVariable.pathsBelow ast)
    /\ MatchesAt selection r path visitedPath
    /\ AppliedAs r applied visitedPath.

(** No visitor of the refactorings shown skips or stops a path of the
    tree. *)
Definition NoneSkipsOrStops (host : Host) (refactorings : list Refactoring)
           (ast : Node) (selection : Selection) : Prop :=
  forall r path visited,
    In r refactorings ->
    shouldShowInQuickFix host (key (command r)) = true ->
    In path (InlineVariable.pathsBelow ast) ->
    visit (createVisitor (actionProvider r) selection) path = Normal visited ->
    control visited = Continue.

End ProviderMatches.

(* ===================================================================== *)
(** ** Programs to run the definitions on *)
(* ===================================================================== *)

Module Example.

Definition range (l1 c1 l2 c2 : nat) : option SourceLocation :=
  Some (mkLoc (mkPosition l1 c1) (mkPosition l2 c2)).

Definition cursor (l c : nat) : Selection :=
  mkSelection (mkPosition l c) (mkPosition l c).

Definition node (r : nat) (t : string) (l : option SourceLocation)
           (cs : list (string * Node)) : Node :=
  mkNode r t l "" false false cs.

Definition identifier (r : nat) (l : option SourceLocation) (nm : string) : Node :=
  mkNode r "Identifier" l nm false false [].

(** The names declared below the named exports of a scope. *)
Definition exportedNames (scope : Node) : list string :=
  flat_map
    (fun visit : Node * list Ast.Ancestor =>
       if Ast.isExportNamedDeclaration (fst visit)
       then
         flat_map
           (fun declaration =>
              flat_map
                (fun declarator =>
                   match Ast.field "id" declarator with
                   | Some id => [name id]
                   | None => []
                   end)
                (Ast.fieldList "declarations" declaration))
           (Ast.fieldList "declaration" (fst visit))
       else [])
    (Ast.visits scope).

(** Modelled from the spec: [ast.areEqual] and [findExportedIdNames] are
    not among the sources.  For the programs below, two nodes are equal
    when they are identifiers of the same name, and "an identifier is
    exported if its name appears among the names introduced by export
    declarations reachable from its enclosing scope". *)
Definition byName : AstHelpers :=
  {| areEqual a b :=
       Ast.isIdentifier a && Ast.isIdentifier b && String.eqb (name a) (name b);
     findExportedIdNames := exportedNames |}.

(** Modelled from the spec: the widening operations of [Selection] are
    not among the sources.  "Extension operations widen a selection to
    align with a line boundary or another node's boundary; they never
    shrink."  Here the start goes back to where an earlier selection ends,
    and the end goes on to where a later selection starts. *)
Definition widening : SelectionOps :=
  {| extendStartTo s o :=
       if Pos.leb (sel_end o) (sel_start s)
       then mkSelection (sel_end o) (sel_end s)
       else s;
     extendEndTo s o :=
       if Pos.leb (sel_end s) (sel_start o)
       then mkSelection (sel_start s) (sel_start o)
       else s;
     extendToStartOfLine s :=
       mkSelection (mkPosition (line (sel_start s)) 0) (sel_end s);
     extendToStartOfNextLine s :=
       mkSelection (sel_start s) (mkPosition (S (line (sel_end s))) 0) |}.

(** An editor whose document reads [1] at every selection. *)
Definition editor : Editor := mkEditor (fun _ => "1").

(** [[
const foo = 1;
console.foo(-foo, { foo }, foo);
]] *)
Definition uses : Node :=
  node 0 "File" (range 1 0 2 32)
    [("program",
      node 1 "Program" (range 1 0 2 32)
        [("body",
          node 2 "VariableDeclaration" (range 1 0 1 14)
            [("declarations",
              node 3 "VariableDeclarator" (range 1 6 1 13)
                [("id", identifier 4 (range 1 6 1 9) "foo");
                 ("init", node 5 "NumericLiteral" (range 1 12 1 13) [])])]);
         ("body",
          node 6 "ExpressionStatement" (range 2 0 2 32)
            [("expression",
              node 7 "CallExpression" (range 2 0 2 31)
                [("callee",
                  node 8 "MemberExpression" (range 2 0 2 11)
                    [("object", identifier 9 (range 2 0 2 7) "console");
                     ("property", identifier 10 (range 2 8 2 11) "foo")]);
                 ("arguments",
                  node 11 "UnaryExpression" (range 2 12 2 16)
                    [("argument", identifier 12 (range 2 13 2 16) "foo")]);
                 ("arguments",
                  node 13 "ObjectExpression" (range 2 18 2 25)
                    [("properties",
                      mkNode 14 "ObjectProperty" (range 2 20 2 23) "" true false
                        [("key", identifier 15 (range 2 20 2 23) "foo");
                         ("value", identifier 16 (range 2 20 2 23) "foo")])]);
                 ("arguments", identifier 17 (range 2 27 2 30) "foo")])])])].


(** [[
const a = function () {
  const b = 1, c = 2;
  return b;
}, d = 3;
]] *)
Definition nested : Node :=
  node 0 "File" (range 1 0 4 9)
    [("program",
      node 1 "Program" (range 1 0 4 9)
        [("body",
          node 2 "VariableDeclaration" (range 1 0 4 9)
            [("declarations",
              node 3 "VariableDeclarator" (range 1 6 4 1)
                [("id", identifier 4 (range 1 6 1 7) "a");
                 ("init",
                  node 5 "FunctionExpression" (range 1 10 4 1)
                    [("body",
                      node 6 "BlockStatement" (range 1 22 4 1)
                        [("body",
                          node 7 "VariableDeclaration" (range 2 2 2 21)
                            [("declarations",
                              node 8 "VariableDeclarator" (range 2 8 2 13)
                                [("id", identifier 9 (range 2 8 2 9) "b");
                                 ("init",
                                  node 10 "NumericLiteral" (range 2 12 2 13) [])]);
                             ("declarations",
                              node 11 "VariableDeclarator" (range 2 15 2 20)
                                [("id", identifier 12 (range 2 15 2 16) "c");
                                 ("init",
                                  node 13 "NumericLiteral" (range 2 19 2 20) [])])]);
                         ("body",
                          node 14 "ReturnStatement" (range 3 2 3 11)
                            [("argument",
                              identifier 15 (range 3 9 3 10) "b")])])])]);
             ("declarations",
              node 16 "VariableDeclarator" (range 4 3 4 8)
                [("id", identifier 17 (range 4 3 4 4) "d");
                 ("init", node 18 "NumericLiteral" (range 4 7 4 8) [])])])])].

(** [[
function f(foo) {
  return foo;
}
]] on the lines 2 to 4 of the next program. *)
Definition functionOfShadowed : Node :=
  node 6 "FunctionDeclaration" (range 2 0 4 1)
    [("id", identifier 7 (range 2 9 2 10) "f");
     ("params", identifier 8 (range 2 11 2 14) "foo");
     ("body",
      node 9 "BlockStatement" (range 2 16 4 1)
        [("body",
          node 10 "ReturnStatement" (range 3 2 3 13)
            [("argument", identifier 11 (range 3 9 3 12) "foo")])])].

(** [[
const foo = 1;
function f(foo) {
  return foo;
}
foo = 2;
]] *)
Definition shadowed : Node :=
  node 0 "File" (range 1 0 5 8)
    [("program",
      node 1 "Program" (range 1 0 5 8)
        [("body",
          node 2 "VariableDeclaration" (range 1 0 1 14)
            [("declarations",
              node 3 "VariableDeclarator" (range 1 6 1 13)
                [("id", identifier 4 (range 1 6 1 9) "foo");
                 ("init", node 5 "NumericLiteral" (range 1 12 1 13) [])])]);
         ("body", functionOfShadowed);
         ("body",
          node 12 "ExpressionStatement" (range 5 0 5 8)
            [("expression",
              node 13 "AssignmentExpression" (range 5 0 5 7)
                [("left", identifier 14 (range 5 0 5 3) "foo");
                 ("right", node 15 "NumericLiteral" (range 5 6 5 7) [])])])])].

(** [[
export const foo = 1;
]]
with a variable declaration that has no range of its own. *)
Definition exported : Node :=
  node 0 "File" (range 1 0 1 21)
    [("program",
      node 1 "Program" (range 1 0 1 21)
        [("body",
          node 2 "ExportNamedDeclaration" (range 1 0 1 21)
            [("declaration",
              node 3 "VariableDeclaration" None
                [("declarations",
                  node 4 "VariableDeclarator" (range 1 13 1 20)
                    [("id", identifier 5 (range 1 13 1 16) "foo");
                     ("init", node 6 "NumericLiteral" (range 1 19 1 20) [])])])])])].

(** [[
if (a) {
  if (b) {}
}
]] *)
Definition ifs : Node :=
  node 0 "File" (range 1 0 3 1)
    [("program",
      node 1 "Program" (range 1 0 3 1)
        [("body",
          node 2 "IfStatement" (range 1 0 3 1)
            [("test", identifier 3 (range 1 4 1 5) "a");
             ("consequent",
              node 4 "BlockStatement" (range 1 7 3 1)
                [("body",
                  node 5 "IfStatement" (range 2 2 2 11)
                    [("test", identifier 6 (range 2 6 2 7) "b");
                     ("consequent",
                      node 7 "BlockStatement" (range 2 9 2 11) [])])])])])].

(** A visitor that matches every if statement around the selection. *)
Definition onIfStatement (selection : Selection) : ActionProvider.Visitor :=
  ActionProvider.mkVisitor
    None
    (fun t =>
       if String.eqb t "IfStatement"
       then Some (fun path =>
                    Normal (ActionProvider.mkVisited
                              (if Ast.isInsideNode selection (path_node path)
                               then [path]
                               else [])
                              ActionProvider.Continue))
       else None).

(** A visitor that matches the first if statement around the selection
    and stops the path there. *)
Definition onFirstIfStatement (selection : Selection) : ActionProvider.Visitor :=
  ActionProvider.mkVisitor
    None
    (fun t =>
       if String.eqb t "IfStatement"
       then Some (fun path =>
                    Normal (if Ast.isInsideNode selection (path_node path)
                            then ActionProvider.mkVisited [path] ActionProvider.Stop
                            else ActionProvider.mkVisited [] ActionProvider.Continue))
       else None).

(** A visitor that matches the if statements around the selection that
    are in a block. *)
Definition onIfStatementInBlock (selection : Selection) : ActionProvider.Visitor :=
  ActionProvider.mkVisitor
    None
    (fun t =>
       if String.eqb t "IfStatement"
       then Some (fun path =>
                    Normal (ActionProvider.mkVisited
                              (if Ast.isInsideNode selection (path_node path)
                                  && Ast.isBlockStatement (path_parent path)
                               then [path]
                               else [])
                              ActionProvider.Continue))
       else None).

(** The configuration of [flip-if-else/index.ts]. *)
Definition flipIfElse : ActionProvider.Refactoring :=
  ActionProvider.mkRefactoring
    (ActionProvider.mkCommand "flipIfElse" "Flip If/Else")
    (ActionProvider.mkActionProviderConfig "Flip if/else" onIfStatement None true).

(** The configuration of [merge-with-previous-if-statement/index.ts]. *)
Definition mergeWithPreviousIfStatement : ActionProvider.Refactoring :=
  ActionProvider.mkRefactoring
    (ActionProvider.mkCommand "mergeWithPreviousIfStatement"
                              "Merge With Previous If Statement")
    (ActionProvider.mkActionProviderConfig "Merge with previous if" onIfStatement
                                           None true).

(** Two refactorings with the same commands, the first with a visitor
    that stops at its match. *)
Definition flipIfElseThenStop : ActionProvider.Refactoring :=
  ActionProvider.mkRefactoring
    (ActionProvider.mkCommand "flipIfElse" "Flip If/Else")
    (ActionProvider.mkActionProviderConfig "Flip if/else" onFirstIfStatement
                                           None true).

Definition mergeWithPreviousIfStatementInBlock : ActionProvider.Refactoring :=
  ActionProvider.mkRefactoring
    (ActionProvider.mkCommand "mergeWithPreviousIfStatement"
                              "Merge With Previous If Statement")
    (ActionProvider.mkActionProviderConfig "Merge with previous if"
                                           onIfStatementInBlock None true).

Definition host : ActionProvider.Host :=
  ActionProvider.mkHost
    ["node_modules"; "dist"]
    (fun _ => true)
    (Some (ActionProvider.mkVSCodeEditor "if (a) { if (b) {} }" (cursor 2 7)))
    (fun _ => Normal ifs).

(** The same, with a parser that rejects the text. *)
Definition hostThatCannotParse : ActionProvider.Host :=
  ActionProvider.mkHost
    ["node_modules"; "dist"]
    (fun _ => true)
    (Some (ActionProvider.mkVSCodeEditor "if (" (cursor 1 4)))
    (fun _ => Threw).

(** The paths of a program, each with the path of its parent. *)
Definition programPath : NodePath :=
  mkNodePath (node 1 "Program" None []) None.

Definition pathIn (parent : NodePath) (r : nat) (t : string) : NodePath :=
  mkNodePath (node r t None []) (Some parent).

(** What was found, or the tree itself when nothing was. *)
Definition found (code : Node) (selection : Selection) : InlinableCode :=
  match InlineVariable.findInlinableCode code selection with
  | Some c => c
  | None => InlinableIdentifier code code selection
  end.

(** The declarator [b] of [nested], found by a cursor on it. *)
Definition foundInNested : InlinableCode :=
  Eval vm_compute in found nested (cursor 2 8).

(** The edits [inlineVariable] writes for [uses]. *)
Definition editsOfUses : list Edit :=
  Eval vm_compute in
    emittedEdits
      (@InlineVariable.inlineVariable byName widening uses (cursor 1 7) editor).

(** The declaration of [b] and [c] in [nested], the seventh path the walk
    enters, and its two declarators. *)
Definition declarationInNested : NodeAndParent :=
  nth 6 (InlineVariable.traverseAST nested) (mkNodeAndParent nested nested).

Definition declaratorsInNested : list (Node * SourceLocation) :=
  InlineVariable.selectableDeclarations (path_node declarationInNested).

Definition declaratorInNested (index : nat) : Node * SourceLocation :=
  nth index declaratorsInNested (nested, mkLoc (mkPosition 0 0) (mkPosition 0 0)).




Definition isComposite (c : InlinableCode) : bool :=
  match c with
  | InlinableDeclarations _ _ => true
  | InlinableIdentifier _ _ _ => false
  end.

End Example.

(** More programs, for the other functions. *)
Module MoreExamples.

(** The parameter [{ a: { c }, ...rest }] of a function: an object pattern
    whose property [a] holds another pattern. *)
Definition nestedPattern : Node :=
  Example.node 1 "ObjectPattern" (Example.range 1 11 1 30)
    [("properties",
      Example.node 2 "ObjectProperty" (Example.range 1 13 1 21)
        [("key", Example.identifier 3 (Example.range 1 13 1 14) "a");
         ("value",
          Example.node 4 "ObjectPattern" (Example.range 1 16 1 21)
            [("properties",
              mkNode 5 "ObjectProperty" (Example.range 1 18 1 19) "" true false
                [("key", Example.identifier 6 (Example.range 1 18 1 19) "c");
                 ("value", Example.identifier 7 (Example.range 1 18 1 19) "c")])])]);
     ("properties",
      Example.node 8 "RestElement" (Example.range 1 23 1 30)
        [("argument", Example.identifier 9 (Example.range 1 26 1 30) "rest")])].

(** The path of the inner if statement of [Example.ifs], the fifth path
    the provider enters. *)
Definition innerIf : NodeAndParent :=
  nth 4 (InlineVariable.pathsBelow Example.ifs)
      (mkNodeAndParent Example.ifs Example.ifs).



(** The node types of the JavaScript grammar that the type library puts
    under its aliases [Statement] and [Function]. *)
Definition isStatementType (t : string) : bool :=
  existsb (String.eqb t)
    ["BlockStatement"; "BreakStatement"; "ContinueStatement";
     "DebuggerStatement"; "DoWhileStatement"; "EmptyStatement";
     "ExpressionStatement"; "ForInStatement"; "ForStatement";
     "FunctionDeclaration"; "IfStatement"; "LabeledStatement";
     "ReturnStatement"; "SwitchStatement"; "ThrowStatement"; "TryStatement";
     "VariableDeclaration"; "WhileStatement"; "WithStatement";
     "ClassDeclaration"; "ExportAllDeclaration"; "ExportDefaultDeclaration";
     "ExportNamedDeclaration"; "ForOfStatement"; "ImportDeclaration"].

Definition isFunctionType (t : string) : bool :=
  existsb (String.eqb t)
    ["FunctionDeclaration"; "FunctionExpression"; "ObjectMethod";
     "ArrowFunctionExpression"; "ClassMethod"; "ClassPrivateMethod"].

(** [[
for (const i = 0; ; ) {}
]]
with the paths of the loop and of the declaration in its head. *)
Definition loopDeclaration : Node :=
  Example.node 2 "VariableDeclaration" (Example.range 1 5 1 16)
    [("declarations",
      Example.node 3 "VariableDeclarator" (Example.range 1 11 1 16)
        [("id", Example.identifier 4 (Example.range 1 11 1 12) "i");
         ("init", Example.node 5 "NumericLiteral" (Example.range 1 15 1 16) [])])].

Definition loop : Node :=
  Example.node 1 "ForStatement" (Example.range 1 0 1 24)
    [("init", loopDeclaration);
     ("body", Example.node 6 "BlockStatement" (Example.range 1 22 1 24) [])].

Definition loopPath : NodePath :=
  mkNodePath
    loop
    (Some (mkNodePath
             (Example.node 0 "Program" (Example.range 1 0 1 24) [("body", loop)])
             None)).

Definition loopDeclarationPath : NodePath :=
  mkNodePath loopDeclaration (Some loopPath).

(** A return statement in the block of a function [g] that is declared in
    the block of a function [f]. *)
Definition outerFunctionPath : NodePath :=
  Example.pathIn Example.programPath 2 "FunctionDeclaration".

Definition innerFunctionPath : NodePath :=
  Example.pathIn (Example.pathIn outerFunctionPath 3 "BlockStatement")
                 4 "FunctionDeclaration".

Definition returnPath : NodePath :=
  Example.pathIn (Example.pathIn innerFunctionPath 5 "BlockStatement")
                 6 "ReturnStatement".

End MoreExamples.

(* ===================================================================== *)
(** ** Properties *)
(* ===================================================================== *)

(** *** Induction on trees *)

Section NodeInduction.

Variable P : Node -> Prop.
Hypothesis step :
  forall r t l nm sh cp cs,
    Forall (fun kc : string * Node => P (snd kc)) cs ->
    P (mkNode r t l nm sh cp cs).

Fixpoint Node_tree_ind (n : Node) : P n :=
  match n with
  | mkNode r t l nm sh cp cs =>
    step r t l nm sh cp
         ((fix below (l : list (string * Node))
             : Forall (fun kc : string * Node => P (snd kc)) l :=
             match l with
             | [] => Forall_nil _
             | (k, c) :: rest =>
               Forall_cons (k, c) (Node_tree_ind c) (below rest)
             end) cs)
  end.

End NodeInduction.

(** *** Shadow detection *)

Section ShadowProperties.

Variable equal : Node -> Node -> bool.

Lemma hasType_true (t : string) (n : Node) :
  Ast.hasType t n = true <-> type n = t.
Proof. unfold Ast.hasType. apply String.eqb_eq. Qed.

Lemma isDeclaredInFunction_iff (id n : Node) :
  Shadow.isDeclaredInFunction equal id n = true <-> ShadowedByParameter equal id n.
Proof.
  unfold Shadow.isDeclaredInFunction, ShadowedByParameter, Ast.isFunctionDeclaration.
  rewrite andb_true_iff, hasType_true, existsb_exists. reflexivity.
Qed.

Lemma redeclares_iff (id declaration : Node) :
  Shadow.redeclares equal id declaration = true <->
  type declaration = "VariableDeclarator"
  /\ exists declared,
      Ast.field "id" declaration = Some declared
      /\ equal id declared = true
      /\ ref declared <> ref id.
Proof.
  unfold Shadow.redeclares, Ast.isVariableDeclarator, Ast.sameNode.
  rewrite andb_true_iff, hasType_true.
  destruct (Ast.field "id" declaration) as [declared|].
  - rewrite andb_true_iff, negb_true_iff, Nat.eqb_neq. split.
    + intros (Ht & He & Hr). split; [exact Ht|]. exists declared. auto.
    + intros (Ht & d & Hd & He & Hr). inversion Hd; subst. auto.
  - split.
    + intros (_ & Hf). discriminate Hf.
    + intros (_ & d & Hd & _). discriminate Hd.
Qed.

Lemma isDeclaredInScope_iff (id n : Node) :
  Shadow.isDeclaredInScope equal id n = true <-> ShadowedByBlock equal id n.
Proof.
  unfold Shadow.isDeclaredInScope, ShadowedByBlock, Ast.isBlockStatement.
  rewrite andb_true_iff, hasType_true, existsb_exists. split.
  - intros (Ht & child & Hin & Hc). split; [exact Ht|].
    apply andb_true_iff in Hc. destruct Hc as (Hv & Hd).
    apply hasType_true in Hv. apply existsb_exists in Hd.
    destruct Hd as (declaration & Hind & Hr).
    apply redeclares_iff in Hr. destruct Hr as (Ht' & declared & H1 & H2 & H3).
    exists child, declaration, declared. auto 10.
  - intros (Ht & child & declaration & declared & H1 & H2 & H3 & H4 & H5 & H6 & H7).
    split; [exact Ht|]. exists child. split; [exact H1|].
    apply andb_true_iff. split.
    + apply hasType_true. exact H2.
    + apply existsb_exists. exists declaration. split; [exact H3|].
      apply redeclares_iff. split; [exact H4|]. exists declared. auto.
Qed.


(** C3.  [isShadowIn id ancestors] holds exactly when some ancestor is
    (a) a function declaration with a parameter equal to [id], or (b) a
    block statement whose direct body has a variable declaration with a
    declarator whose id is equal to [id] and is a different node than
    [id]; and a declarator whose id is the node [id] itself never counts
    as a redeclaration.  This is [isShadowIn] of [inline-variable.ts]
    with [equal] read as [ast.areEqual], and of [ast/scope.ts] with
    [equal] read as [areEquivalent]. *)
Theorem isShadowIn_characterisation (id : Node) (ancestors : list Ast.Ancestor) :
  (Shadow.isShadowIn equal id ancestors = true <->
   exists a, In a ancestors
             /\ (ShadowedByParameter equal id (Ast.node a)
                 \/ ShadowedByBlock equal id (Ast.node a)))
  /\ (forall declaration declared,
         Ast.field "id" declaration = Some declared ->
         ref declared = ref id ->
         Shadow.redeclares equal id declaration = false).
Proof.
  split.
  - unfold Shadow.isShadowIn. rewrite existsb_exists. split.
    + intros (a & Hin & Ha). exists a. split; [exact Hin|].
      apply orb_true_iff in Ha. destruct Ha as [Ha|Ha].
      * left. apply isDeclaredInFunction_iff. exact Ha.
      * right. apply isDeclaredInScope_iff. exact Ha.
    + intros (a & Hin & Ha). exists a. split; [exact Hin|].
      apply orb_true_iff. destruct Ha as [Ha|Ha].
      * left. apply isDeclaredInFunction_iff. exact Ha.
      * right. apply isDeclaredInScope_iff. exact Ha.
  - intros declaration declared Hfield Href.
    apply not_true_is_false. intro Hr. apply redeclares_iff in Hr.
    destruct Hr as (_ & d & Hd & _ & Hne).
    rewrite Hfield in Hd. inversion Hd; subst. contradiction.
Qed.

End ShadowProperties.

(** *** Scope paths *)

Section ScopeProperties.

Lemma path_hasType_true (t : string) (p : NodePath) :
  Scope.hasType t p = true <-> type (nodeOf p) = t.
Proof. unfold Scope.hasType. apply String.eqb_eq. Qed.

Lemma path_hasType_false (t : string) (p : NodePath) :
  Scope.hasType t p = false <-> type (nodeOf p) <> t.
Proof. unfold Scope.hasType. apply String.eqb_neq. Qed.

Lemma isExportDeclaration_true (p : NodePath) :
  Scope.isExportDeclaration p = true <->
  type (nodeOf p) = "ExportAllDeclaration"
  \/ type (nodeOf p) = "ExportDefaultDeclaration"
  \/ type (nodeOf p) = "ExportNamedDeclaration".
Proof.
  unfold Scope.isExportDeclaration.
  rewrite !orb_true_iff, !path_hasType_true. tauto.
Qed.

Lemma onParent_false (guard : NodePath -> bool) (p : NodePath) :
  Scope.onParent guard p = false <->
  forall q, parentPath p = Some q -> guard q = false.
Proof.
  unfold Scope.onParent. destruct (parentPath p) as [q|]; split.
  - intros H q' Hq. inversion Hq; subst. exact H.
  - intros H. apply H. reflexivity.
  - intros _ q Hq. discriminate Hq.
  - reflexivity.
Qed.

Lemma isExportDeclaration_false (p : NodePath) :
  Scope.isExportDeclaration p = false <->
  type (nodeOf p) <> "ExportAllDeclaration"
  /\ type (nodeOf p) <> "ExportDefaultDeclaration"
  /\ type (nodeOf p) <> "ExportNamedDeclaration".
Proof.
  unfold Scope.isExportDeclaration.
  rewrite !orb_false_iff, !path_hasType_false. tauto.
Qed.

Lemma isScopePath_iff (p : NodePath) :
  Scope.isScopePath p = true <-> Scope.ScopeKind p.
Proof.
  unfold Scope.isScopePath,
    Scope.isExpressionStatement, Scope.isVariableDeclaration,
    Scope.isReturnStatement, Scope.isClassDeclaration, Scope.isIfStatement,
    Scope.isWhileStatement, Scope.isSwitchStatement, Scope.isForStatement,
    Scope.isThrowStatement.
  rewrite !orb_true_iff, !andb_true_iff, !negb_true_iff,
    !path_hasType_true, isExportDeclaration_true, !onParent_false.
  split.
  - intros [[[[[[[[[H|H]|H]|H]|H]|H]|H]|H]|H]|H].
    + apply Scope.expression_statement; exact H.
    + destruct H as (Ht & Hp).
      apply Scope.non_exported_variable_declaration; [exact Ht|].
      intros q Hq. apply isExportDeclaration_false. apply Hp. exact Hq.
    + apply Scope.return_statement; exact H.
    + apply Scope.class_declaration; exact H.
    + destruct H as (Ht & Hp). apply Scope.top_level_if; [exact Ht|].
      intros q Hq. apply path_hasType_false. apply Hp. exact Hq.
    + apply Scope.while_statement; exact H.
    + apply Scope.switch_statement; exact H.
    + apply Scope.export_declaration; exact H.
    + apply Scope.for_statement; exact H.
    + apply Scope.throw_statement; exact H.
  - intros [H|Ht Hp|H|H|Ht Hp|H|H|H|H|H]; try tauto.
    + do 8 left. right. split; [exact Ht|].
      intros q Hq. apply isExportDeclaration_false. apply Hp. exact Hq.
    + do 5 left. right. split; [exact Ht|].
      intros q Hq. apply path_hasType_false. apply Hp. exact Hq.
Qed.

(** A path is above [path]: its parent, or above its parent. *)
Fixpoint NodePath_above_ind (P : NodePath -> Prop)
         (top : forall n, P (mkNodePath n None))
         (below : forall n p, P p -> P (mkNodePath n (Some p)))
         (path : NodePath) : P path :=
  match path with
  | mkNodePath n None => top n
  | mkNodePath n (Some p) => below n p (NodePath_above_ind P top below p)
  end.

Lemma findParent_first (callback : NodePath -> bool) (path : NodePath) :
  match Scope.findParent callback path with
  | Some p =>
    exists nearer further,
      Scope.ancestry path = nearer ++ p :: further
      /\ callback p = true
      /\ Forall (fun q => callback q = false) nearer
  | None => Forall (fun q => callback q = false) (Scope.ancestry path)
  end.
Proof.
  induction path as [n|n p IH] using NodePath_above_ind; simpl.
  - constructor.
  - destruct (callback p) eqn:Hp.
    + exists [], (Scope.ancestry p). simpl. auto.
    + destruct (Scope.findParent callback p) as [found|].
      * destruct IH as (nearer & further & Ha & Hc & Hn).
        exists (p :: nearer), further. rewrite Ha. simpl. auto.
      * constructor; assumption.
Qed.

(** C7.  [findScopePath(path)] is the nearest path above [path] whose kind
    is in the fixed set (expression statement, variable declaration not
    directly inside an export declaration, return statement, class
    declaration, if statement whose parent is not an if statement, while
    statement, switch statement, export declaration, for statement, throw
    statement); there is no result exactly when no path above is of such
    a kind. *)
Theorem findScopePath_nearest_scope_kind (path : NodePath) :
  match Scope.findScopePath path with
  | Some found =>
    exists nearer further,
      Scope.ancestry path = nearer ++ found :: further
      /\ Scope.ScopeKind found
      /\ Forall (fun q => ~ Scope.ScopeKind q) nearer
  | None => Forall (fun q => ~ Scope.ScopeKind q) (Scope.ancestry path)
  end.
Proof.
  unfold Scope.findScopePath.
  pose proof (findParent_first Scope.isScopePath path) as H.
  assert (Hno : forall l, Forall (fun q => Scope.isScopePath q = false) l ->
                          Forall (fun q => ~ Scope.ScopeKind q) l).
  { intros l Hl. eapply Forall_impl; [|exact Hl]. intros q Hq Hk.
    apply isScopePath_iff in Hk. congruence. }
  destruct (Scope.findParent Scope.isScopePath path) as [found|].
  - destruct H as (nearer & further & Ha & Hc & Hn).
    exists nearer, further. split; [exact Ha|]. split.
    + apply isScopePath_iff. exact Hc.
    + apply Hno. exact Hn.
  - apply Hno. exact H.
Qed.

End ScopeProperties.


(** *** Inline variable: the walks of the leaf *)

Section LeafProperties.

Context {helpers : AstHelpers} {selections : SelectionOps}.

Lemma last_snoc {A : Type} (l : list A) (a : A) : Ast.last (l ++ [a]) = Some a.
Proof.
  unfold Ast.last. destruct (l ++ [a]) eqn:E.
  - destruct l; discriminate E.
  - rewrite <- E. rewrite length_app. simpl.
    replace (List.length l + 1 - 1) with (List.length l) by lia.
    rewrite nth_error_app2 by lia. rewrite Nat.sub_diag. reflexivity.
Qed.

Lemma last_some_of_app {A : Type} (l suffix : list A) (a : A) :
  exists b, Ast.last (l ++ a :: suffix) = Some b.
Proof.
  destruct (@exists_last _ (a :: suffix)) as (front & b & E); [discriminate|].
  exists b. rewrite E, app_assoc. apply last_snoc.
Qed.

(** Every call of [enter] below the root comes with at least the ancestor
    it was reached from. *)
Lemma visitsFrom_extends (n : Node) :
  forall ancestors visit,
    In visit (Ast.visitsFrom ancestors n) ->
    exists suffix, snd visit = ancestors ++ suffix.
Proof.
  induction n as [r t l nm sh cp cs IH] using Node_tree_ind.
  intros ancestors visit Hin. simpl in Hin. destruct Hin as [E|Hin].
  - subst visit. exists []. simpl. rewrite app_nil_r. reflexivity.
  - apply in_flat_map in Hin. destruct Hin as ((k & c) & Hc & Hv).
    rewrite Forall_forall in IH. specialize (IH (k, c) Hc). simpl in IH.
    destruct (IH _ _ Hv) as (suffix & E).
    exists (Ast.mkAncestor (mkNode r t l nm sh cp cs) k :: suffix).
    rewrite E, <- app_assoc. reflexivity.
Qed.

Lemma visits_root (scope : Node) :
  exists below,
    Ast.visits scope = (scope, []) :: below
    /\ Forall (fun visit => exists parent, Ast.last (snd visit) = Some parent) below.
Proof.
  unfold Ast.visits. destruct scope as [r t l nm sh cp cs]. simpl.
  eexists. split; [reflexivity|].
  apply Forall_forall. intros visit Hin.
  apply in_flat_map in Hin. destruct Hin as ((k & c) & _ & Hv).
  apply visitsFrom_extends in Hv. destruct Hv as (suffix & E).
  rewrite E. simpl. apply (last_some_of_app []).
Qed.

Lemma fold_enterRedeclared (id : Node) (l : list (Node * list Ast.Ancestor)) :
  forall result,
    fold_left (InlineVariable.enterRedeclared id) l result = true <->
    result = true
    \/ exists n ancestors lhs,
        In (n, ancestors) l
        /\ type n = "AssignmentExpression"
        /\ Ast.field "left" n = Some lhs
        /\ areEqual id lhs = true.
Proof.
  induction l as [|(n, ancestors) l IH]; intros result; simpl.
  - split; [auto|]. intros [H|(n & a & lhs & [] & _)]. exact H.
  - rewrite IH. unfold InlineVariable.enterRedeclared. simpl.
    unfold Ast.isAssignmentExpression.
    destruct (Ast.hasType "AssignmentExpression" n) eqn:Ht; simpl.
    + apply hasType_true in Ht.
      destruct (Ast.field "left" n) as [lhs|] eqn:Hl.
      * destruct (areEqual id lhs) eqn:He; simpl.
        -- split; [|auto]. intros _. right. exists n, ancestors, lhs. auto.
        -- split.
           ++ intros [H|(n' & a' & lhs' & Hin & H1 & H2 & H3)]; [auto|].
              right. exists n', a', lhs'. auto.
           ++ intros [H|(n' & a' & lhs' & [E|Hin] & H1 & H2 & H3)]; [auto| |].
              ** inversion E; subst. congruence.
              ** right. exists n', a', lhs'. auto.
      * split.
        -- intros [H|(n' & a' & lhs' & Hin & H1 & H2 & H3)]; [auto|].
           right. exists n', a', lhs'. auto.
        -- intros [H|(n' & a' & lhs' & [E|Hin] & H1 & H2 & H3)]; [auto| |].
           ++ inversion E; subst. congruence.
           ++ right. exists n', a', lhs'. auto.
    + apply String.eqb_neq in Ht. split.
      * intros [H|(n' & a' & lhs' & Hin & H1 & H2 & H3)]; [auto|].
        right. exists n', a', lhs'. auto.
      * intros [H|(n' & a' & lhs' & [E|Hin] & H1 & H2 & H3)]; [auto| |].
        -- inversion E; subst. unfold Ast.hasType in Ht. contradiction.
        -- right. exists n', a', lhs'. auto.
Qed.

Lemma isRedeclared_iff (c : InlinableCode) :
  InlineVariable.isRedeclared c = true <->
  Reassigned (declaredId c) (declaringScope c).
Proof.
  induction c as [id scope s|child IH locs]; simpl; [|exact IH].
  unfold InlineVariable.leafIsRedeclared, Reassigned.
  rewrite fold_enterRedeclared. split.
  - intros [H|H]; [discriminate H|exact H].
  - auto.
Qed.

Lemma isExported_iff (c : InlinableCode) :
  InlineVariable.isExported c = true <->
  Exported (declaredId c) (declaringScope c).
Proof.
  induction c as [id scope s|child IH locs]; simpl; [|exact IH].
  unfold InlineVariable.leafIsExported, Exported.
  rewrite existsb_exists. split.
  - intros (x & Hin & E). apply String.eqb_eq in E. subst. exact Hin.
  - intros Hin. exists (name id). split; [exact Hin|apply String.eqb_refl].
Qed.

(** One call of [enter] of [identifiersToReplace], when the node has a
    parent. *)
Lemma enterReplace_with_parent (id : Node) (result : list IdentifierToReplace)
      (visit : Node * list Ast.Ancestor) (parent : Ast.Ancestor) :
  Ast.last (snd visit) = Some parent ->
  InlineVariable.enterReplace id result visit =
  Normal (result ++ (if isReplacementSite id visit then recordOf visit else [])).
Proof.
  destruct visit as (n, ancestors). simpl. intros Hlast.
  unfold InlineVariable.enterReplace, isReplacementSite, isOccurrence,
    isObjectPropertyKey, isMemberPropertyName, isDeclarationSite, recordOf,
    isShorthandValue, Ast.isSelectableNode, InlineVariable.entryIsFunctionDeclaration.
  simpl. rewrite Hlast.
  destruct (loc n) as [l|]; simpl; [|rewrite app_nil_r; reflexivity].
  destruct (areEqual id n); simpl; [|rewrite app_nil_r; reflexivity].
  destruct (InlineVariable.isShadowIn id ancestors); simpl;
    [rewrite app_nil_r; reflexivity|].
  destruct (Ast.isInsideNode (Sel.fromAST l) id); simpl;
    [rewrite app_nil_r; reflexivity|].
  destruct (Ast.isObjectProperty (Ast.node parent)
            && InlineVariable.isChildAt "key" (Ast.node parent) n); simpl;
    [rewrite app_nil_r; reflexivity|].
  destruct (Ast.isMemberExpression (Ast.node parent)
            && InlineVariable.isChildAt "property" (Ast.node parent) n); simpl;
    [rewrite app_nil_r; reflexivity|].
  reflexivity.
Qed.

(** The call of [enter] on the root of the scope, which has no parent. *)
Lemma enterReplace_root (id scope : Node) (result : list IdentifierToReplace) :
  InlineVariable.enterReplace id result (scope, []) =
  if isOccurrence id (scope, []) then Threw else Normal result.
Proof.
  unfold InlineVariable.enterReplace, isOccurrence, isDeclarationSite,
    Ast.isSelectableNode. simpl.
  destruct (loc scope) as [l|]; simpl; [|reflexivity].
  destruct (areEqual id scope); simpl; [|reflexivity].
  destruct (Ast.isInsideNode (Sel.fromAST l) id); reflexivity.
Qed.

Lemma fold_enterReplace_threw (id : Node) (l : list (Node * list Ast.Ancestor)) :
  fold_left (fun acc visit => result <- acc ;; InlineVariable.enterReplace id result visit)
            l Threw = Threw.
Proof. induction l as [|v l IH]; simpl; [reflexivity|exact IH]. Qed.

Lemma fold_enterReplace_below (id : Node) (l : list (Node * list Ast.Ancestor)) :
  Forall (fun visit => exists parent, Ast.last (snd visit) = Some parent) l ->
  forall result,
    fold_left (fun acc visit => r <- acc ;; InlineVariable.enterReplace id r visit)
              l (Normal result)
    = Normal (result ++ flat_map recordOf (filter (isReplacementSite id) l)).
Proof.
  induction 1 as [|v l (parent & Hp) _ IH]; intros result; simpl.
  - rewrite app_nil_r. reflexivity.
  - rewrite (enterReplace_with_parent id result v Hp), IH.
    destruct (isReplacementSite id v); simpl.
    + rewrite <- app_assoc. reflexivity.
    + rewrite app_nil_r. reflexivity.
Qed.

(** The root of the scope is never a site to record: it has no parent. *)
Lemma recordOf_root (scope : Node) : recordOf (scope, []) = [].
Proof. unfold recordOf. simpl. destruct (loc scope); reflexivity. Qed.

Lemma leafIdentifiersToReplace_eq (id scope : Node) :
  InlineVariable.leafIdentifiersToReplace id scope =
  if isOccurrence id (scope, []) then Threw
  else Normal (flat_map recordOf (replacementSites id scope)).
Proof.
  unfold InlineVariable.leafIdentifiersToReplace, replacementSites.
  destruct (visits_root scope) as (below & E & Hbelow). rewrite E.
  cbn -[InlineVariable.enterReplace]. rewrite enterReplace_root.
  destruct (isOccurrence id (scope, [])) eqn:Ho.
  - apply fold_enterReplace_threw.
  - rewrite (fold_enterReplace_below id Hbelow). simpl.
    unfold isReplacementSite at 2. rewrite Ho. reflexivity.
Qed.

Lemma identifiersToReplace_eq (c : InlinableCode) :
  InlineVariable.identifiersToReplace c =
  if isOccurrence (declaredId c) (declaringScope c, []) then Threw
  else Normal (flat_map recordOf (replacementSites (declaredId c) (declaringScope c))).
Proof.
  induction c as [id scope s|child IH locs]; simpl; [|exact IH].
  apply leafIdentifiersToReplace_eq.
Qed.

End LeafProperties.

(** *** Inline variable: the refactoring *)

Section InlineProperties.

Context {helpers : AstHelpers} {selections : SelectionOps}.

Lemma replacementSites_below (id scope : Node) :
  isOccurrence id (scope, []) = false ->
  exists below,
    replacementSites id scope = filter (isReplacementSite id) below
    /\ Forall (fun visit => exists parent, Ast.last (snd visit) = Some parent) below.
Proof.
  intros Hroot. destruct (visits_root scope) as (below & E & Hbelow).
  exists below. split; [|exact Hbelow].
  unfold replacementSites. rewrite E. simpl.
  unfold isReplacementSite at 1. rewrite Hroot. reflexivity.
Qed.










Lemma replacementCode_ReplacedBy (init : string) (n parent : Node) :
  ReplacedBy init n parent
    (InlineVariable.replacementCode init
       (mkIdentifierToReplace
          (mkLoc (mkPosition 0 0) (mkPosition 0 0))
          (Ast.isUnaryExpression parent)
          (if isShorthandValue n parent then Some (name n) else None))).
Proof.
  unfold ReplacedBy, InlineVariable.replacementCode. simpl.
  repeat split.
  - intros ->. reflexivity.
  - intros -> -> Hname. apply String.eqb_neq in Hname. rewrite Hname. reflexivity.
  - intros -> ->. reflexivity.
Qed.

Lemma sites_edits (init : string) (sites : list (Node * list Ast.Ancestor)) :
  Forall (fun site =>
            Ast.isSelectableNode (fst site) = true
            /\ exists parent, Ast.last (snd site) = Some parent) sites ->
  Forall2 (EditAt init) sites
          (map (fun i => mkEdit (InlineVariable.replacementCode init i)
                                (Sel.fromAST (replace_loc i)))
               (flat_map recordOf sites)).
Proof.
  induction 1 as [|site sites (Hsel & parent & Hp) _ IH]; simpl.
  - constructor.
  - unfold recordOf at 1. rewrite Hp. unfold Ast.isSelectableNode in Hsel.
    destruct (loc (fst site)) as [l|] eqn:Hl; [|discriminate Hsel].
    simpl. constructor; [|exact IH].
    exists l, parent. repeat split; try assumption.
    + apply (replacementCode_ReplacedBy init (fst site) (Ast.node parent)).
    + apply (replacementCode_ReplacedBy init (fst site) (Ast.node parent)).
    + apply (replacementCode_ReplacedBy init (fst site) (Ast.node parent)).
Qed.

Lemma replacementSites_have_parents (id scope : Node) :
  isOccurrence id (scope, []) = false ->
  Forall (fun site =>
            Ast.isSelectableNode (fst site) = true
            /\ exists parent, Ast.last (snd site) = Some parent)
         (replacementSites id scope).
Proof.
  intros Hroot.
  destruct (replacementSites_below _ _ Hroot) as (below & E & Hbelow).
  rewrite E.
  apply Forall_forall. intros site Hin. apply filter_In in Hin.
  destruct Hin as (Hin & Hs). rewrite Forall_forall in Hbelow. split.
  - unfold isReplacementSite, isOccurrence in Hs.
    repeat (apply andb_true_iff in Hs; destruct Hs as (Hs & _)). exact Hs.
  - apply Hbelow. exact Hin.
Qed.

(** C5.  When [inlineVariable] writes, its edits are one replacement per
    site, in the order of the sites, followed by the removal of the
    declaration.  With [init] the text the editor reads at the initializer,
    the replacement at a site is [(init)] when the immediate parent of the
    site is a unary expression; it is [name: init] when the site is the
    value of a shorthand object property (an identifier, of a name that is
    not empty); and it is [init] as it is otherwise. *)
Theorem inlineVariable_replacement_text
        (code : Node) (selection : Selection) (editor : Editor)
        (target : Selection) (edits : list Edit) :
  InlineVariable.inlineVariable code selection editor
  = mkRun [ReadThenWrite target edits] false ->
  exists c replacements toRemove,
    InlineVariable.findInlinableCode code selection = Some c
    /\ target = InlineVariable.selection c
    /\ InlineVariable.codeToRemoveSelection c = Normal toRemove
    /\ edits = replacements ++ [mkEdit "" toRemove]
    /\ Forall2 (EditAt (read editor target))
               (replacementSites (declaredId c) (declaringScope c))
               replacements.
Proof.
  unfold InlineVariable.inlineVariable.
  destruct (InlineVariable.findInlinableCode code selection) as [c|];
    [|discriminate].
  destruct (InlineVariable.isRedeclared c); [discriminate|].
  destruct (InlineVariable.isExported c); [discriminate|].
  rewrite identifiersToReplace_eq.
  destruct (isOccurrence (declaredId c) (declaringScope c, [])) eqn:Hroot;
    [discriminate|].
  destruct (List.length _ =? 0); [discriminate|].
  unfold InlineVariable.modifications.
  destruct (InlineVariable.codeToRemoveSelection c) as [toRemove|] eqn:Hremove;
    [|discriminate].
  simpl. intros H. inversion H; subst. clear H.
  eexists c, _, toRemove.
  split; [reflexivity|]. split; [reflexivity|]. split; [exact Hremove|].
  split; [reflexivity|].
  apply sites_edits. apply replacementSites_have_parents. exact Hroot.
Qed.

(** The last part of the statement on a run whose calls are known. *)
Ltac report_only :=
  let reason := fresh "reason" in
  let H := fresh "H" in
  intros reason H; simpl in H;
  repeat match goal with
         | H : _ \/ _ |- _ => destruct H as [H|H]
         | H : False |- _ => destruct H
         end;
  try discriminate;
  match goal with
  | E : ShowError _ = ShowError _ |- _ => inversion E; subst; simpl; auto
  end.

(** C1.  [inlineVariable] reports [DidNotFoundInlinableCode] when the
    selection identifies no declaration; otherwise
    [CantInlineRedeclaredVariables] when the identifier is reassigned in
    the declaring scope; otherwise [CantInlineExportedVariables] when its
    name is among the exported names of the scope; otherwise
    [DidNotFoundInlinableCodeIdentifiers] when no identifier is to be
    replaced.  Whenever an error is reported it is the only call the
    editor receives: [readThenWrite] is not called and no edit is
    emitted. *)
Theorem inlineVariable_failures
        (code : Node) (selection : Selection) (editor : Editor) :
  let run := InlineVariable.inlineVariable code selection editor in
  (InlineVariable.findInlinableCode code selection = None ->
   run = mkRun [ShowError DidNotFoundInlinableCode] false)
  /\ (forall c,
         InlineVariable.findInlinableCode code selection = Some c ->
         Reassigned (declaredId c) (declaringScope c) ->
         run = mkRun [ShowError CantInlineRedeclaredVariables] false)
  /\ (forall c,
         InlineVariable.findInlinableCode code selection = Some c ->
         ~ Reassigned (declaredId c) (declaringScope c) ->
         Exported (declaredId c) (declaringScope c) ->
         run = mkRun [ShowError CantInlineExportedVariables] false)
  /\ (forall c,
         InlineVariable.findInlinableCode code selection = Some c ->
         ~ Reassigned (declaredId c) (declaringScope c) ->
         ~ Exported (declaredId c) (declaringScope c) ->
         InlineVariable.identifiersToReplace c = Normal [] ->
         run = mkRun [ShowError DidNotFoundInlinableCodeIdentifiers] false)
  /\ (forall reason,
         In (ShowError reason) (calls run) ->
         calls run = [ShowError reason]
         /\ existsb isReadThenWrite (calls run) = false
         /\ emittedEdits run = []).
Proof.
  unfold InlineVariable.inlineVariable. cbv zeta.
  destruct (InlineVariable.findInlinableCode code selection) as [c|].
  2:{ split; [reflexivity|]. repeat (split; [intros c E; discriminate E|]).
      report_only. }
  pose proof (isRedeclared_iff c) as Hr. pose proof (isExported_iff c) as He.
  split; [discriminate|].
  destruct (InlineVariable.isRedeclared c).
  { split; [reflexivity|].
    split; [intros c' E Hn; inversion E; subst c'; exfalso; apply Hn, Hr; reflexivity|].
    split; [intros c' E Hn; inversion E; subst c'; exfalso; apply Hn, Hr; reflexivity|].
    report_only. }
  split; [intros c' E Hre; inversion E; subst c'; apply Hr in Hre; discriminate Hre|].
  destruct (InlineVariable.isExported c).
  { split; [reflexivity|].
    split; [intros c' E _ Hn; inversion E; subst c'; exfalso; apply Hn, He; reflexivity|].
    report_only. }
  split; [intros c' E _ Hex; inversion E; subst c'; apply He in Hex; discriminate Hex|].
  destruct (InlineVariable.identifiersToReplace c) as [ids|] eqn:Hids.
  - destruct ids as [|i ids]; simpl.
    + split; [reflexivity|]. report_only.
    + split; [intros c' E _ _ Hn; inversion E; subst c'; rewrite Hids in Hn; discriminate Hn|].
      destruct (InlineVariable.modifications c (i :: ids)
                  (read editor (InlineVariable.selection c))); report_only.
  - split; [intros c' E _ _ Hn; inversion E; subst c'; rewrite Hids in Hn; discriminate Hn|].
    report_only.
Qed.

End InlineProperties.

(** *** Finding the declaration: the last writer wins *)

Section FindProperties.

Context {selections : SelectionOps}.

(** A loop that overwrites its result whenever [g] yields one ends with
    the last one yielded. *)
Lemma fold_last_writer {A B : Type} (g : A -> option B)
      (f : option B -> A -> option B) :
  (forall result x,
      f result x = match g x with Some b => Some b | None => result end) ->
  forall l init,
    fold_left f l init =
    match Ast.last (flat_map (fun x => match g x with Some b => [b] | None => [] end) l)
    with
    | Some b => Some b
    | None => init
    end.
Proof.
  intros Hf l. induction l as [|x l IH] using rev_ind; intros init.
  - reflexivity.
  - rewrite fold_left_app, flat_map_app. simpl. rewrite Hf, IH.
    destruct (g x) as [b|]; simpl.
    + rewrite last_snoc. reflexivity.
    + rewrite app_nil_r. reflexivity.
Qed.

Lemma eachDeclaration_result (selection : Selection) (parent : Node)
      (declarations : list (Node * SourceLocation))
      (result : option InlinableCode) (x : nat * (Node * SourceLocation)) :
  InlineVariable.eachDeclaration selection parent declarations result x =
  match InlineVariable.eachDeclaration selection parent declarations None x with
  | Some c => Some c
  | None => result
  end.
Proof.
  unfold InlineVariable.eachDeclaration. destruct x as (index, declaration).
  destruct (negb (Ast.isInsideNode selection (fst declaration))); [reflexivity|].
  destruct (InlineVariable.declarationsLocsOf declarations index (snd declaration));
    [|reflexivity].
  destruct (InlineVariable.inlinableIdentifierOf (fst declaration) parent);
    reflexivity.
Qed.

Lemma enter_result (selection : Selection) (result : option InlinableCode)
      (path : NodeAndParent) :
  InlineVariable.enter selection result path =
  match InlineVariable.enter selection None path with
  | Some c => Some c
  | None => result
  end.
Proof.
  unfold InlineVariable.enter.
  destruct (negb (Ast.isVariableDeclaration (path_node path))); [reflexivity|].
  destruct (negb (Ast.isInsideNode selection (path_node path))); [reflexivity|].
  set (declarations := InlineVariable.selectableDeclarations (path_node path)).
  assert (Hfold :
            fold_left
              (InlineVariable.eachDeclaration selection (path_parent path) declarations)
              (InlineVariable.indexed declarations) result
            = match fold_left
                      (InlineVariable.eachDeclaration selection (path_parent path)
                                                      declarations)
                      (InlineVariable.indexed declarations) None
              with
              | Some c => Some c
              | None => result
              end).
  { rewrite 2 (fold_last_writer
                 (InlineVariable.eachDeclaration selection (path_parent path)
                                                 declarations None)
                 (InlineVariable.eachDeclaration selection (path_parent path)
                                                 declarations)
                 (eachDeclaration_result selection (path_parent path) declarations)).
    destruct (Ast.last _); reflexivity. }
  destruct declarations as [|d [|d' rest]]; try exact Hfold.
  destruct (InlineVariable.inlinableIdentifierOf (fst d) (path_parent path));
    reflexivity.
Qed.

(** C9, as the code has it.  [findInlinableCode] returns the last result
    assigned during the walk: every matching declaration overwrites
    [result], so the match met last in traversal order is the one
    returned, and [null] is returned when nothing matched. *)
Theorem findInlinableCode_last_match (code : Node) (selection : Selection) :
  InlineVariable.findInlinableCode code selection
  = Ast.last (matchesOf selection code).
Proof.
  unfold InlineVariable.findInlinableCode, matchesOf.
  rewrite (fold_last_writer (InlineVariable.enter selection None)
                            (InlineVariable.enter selection)
                            (enter_result selection)).
  destruct (Ast.last _); reflexivity.
Qed.

End FindProperties.

(** *** The range that is removed *)

Section RemovalProperties.

Context {selections : SelectionOps}.

Lemma last_In {A : Type} (l : list A) (a : A) : Ast.last l = Some a -> In a l.
Proof.
  unfold Ast.last. destruct l as [|x l]; [discriminate|].
  apply nth_error_In.
Qed.

Lemma indexed_from_In {A : Type} (l : list A) :
  forall start i x,
    In (i, x) (combine (seq start (List.length l)) l) ->
    exists k, i = start + k /\ nth_error l k = Some x.
Proof.
  induction l as [|y l IH]; intros start i x Hin; simpl in Hin; [destruct Hin|].
  destruct Hin as [E|Hin].
  - inversion E; subst. exists 0. split; [lia|reflexivity].
  - destruct (IH _ _ _ Hin) as (k & Hi & Hk). exists (S k). split; [lia|exact Hk].
Qed.

Lemma indexed_In {A : Type} (l : list A) (i : nat) (x : A) :
  In (i, x) (InlineVariable.indexed l) -> nth_error l i = Some x.
Proof.
  intros Hin. apply indexed_from_In in Hin. destruct Hin as (k & -> & Hk).
  exact Hk.
Qed.

Lemma inlinableIdentifierOf_leaf (declaration parent : Node) (c : InlinableCode) :
  InlineVariable.inlinableIdentifierOf declaration parent = Some c ->
  LeafRemoval declaration c.
Proof.
  unfold InlineVariable.inlinableIdentifierOf, LeafRemoval.
  destruct (Ast.field "id" declaration) as [id|]; [|discriminate].
  destruct (Ast.field "init" declaration) as [init|]; [|discriminate].
  destruct (Ast.isSelectableIdentifier id) eqn:Hid; [|discriminate]. simpl.
  destruct (loc init) as [initLoc|] eqn:Hinit; [|discriminate].
  intros E. inversion E; subst. clear E.
  unfold Ast.isSelectableIdentifier, Ast.isSelectableNode in Hid.
  apply andb_true_iff in Hid. destruct Hid as (_ & Hloc).
  destruct (loc id) as [idLoc|] eqn:Hl; [|discriminate].
  exists id, init, idLoc, initLoc.
  do 4 (split; [first [reflexivity | assumption]|]).
  simpl. unfold InlineVariable.leafCodeToRemoveSelection, Ast.selectionOf.
  rewrite Hl. reflexivity.
Qed.

Lemma eachDeclaration_merged (selection : Selection) (parent : Node)
      (declarations : list (Node * SourceLocation))
      (index : nat) (declaration : Node * SourceLocation) (c : InlinableCode) :
  nth_error declarations index = Some declaration ->
  InlineVariable.eachDeclaration selection parent declarations None
                                 (index, declaration) = Some c ->
  Ast.isInsideNode selection (fst declaration) = true
  /\ MergedWithSibling declarations index declaration c.
Proof.
  intros Hnth. unfold InlineVariable.eachDeclaration.
  destruct (Ast.isInsideNode selection (fst declaration)); [|discriminate]. simpl.
  unfold InlineVariable.declarationsLocsOf, MergedWithSibling.
  destruct (nth_error declarations (index + 1)) as [next|] eqn:Hnext.
  - destruct (InlineVariable.inlinableIdentifierOf (fst declaration) parent);
      [|discriminate].
    intros E. inversion E; subst. split; [reflexivity|].
    left. exists next. split; reflexivity.
  - destruct index as [|i]; simpl; [discriminate|].
    destruct (nth_error declarations i) as [previous|] eqn:Hprev; [|discriminate].
    destruct (InlineVariable.inlinableIdentifierOf (fst declaration) parent);
      [|discriminate].
    intros E. inversion E; subst. split; [reflexivity|].
    right. split.
    + apply nth_error_None in Hnext.
      assert (S i < List.length declarations)
        by (apply nth_error_Some; congruence).
      lia.
    + exists i, previous. repeat split. exact Hprev.
Qed.

Lemma enter_removal (selection : Selection) (path : NodeAndParent)
      (c : InlinableCode) :
  InlineVariable.enter selection None path = Some c ->
  RemovalAt selection path c.
Proof.
  unfold InlineVariable.enter, RemovalAt.
  destruct (negb (Ast.isVariableDeclaration (path_node path))); [discriminate|].
  destruct (negb (Ast.isInsideNode selection (path_node path))); [discriminate|].
  set (declarations := InlineVariable.selectableDeclarations (path_node path)).
  assert (Hmany :
            fold_left
              (InlineVariable.eachDeclaration selection (path_parent path) declarations)
              (InlineVariable.indexed declarations) None = Some c ->
            exists index declaration,
              nth_error declarations index = Some declaration
              /\ Ast.isInsideNode selection (fst declaration) = true
              /\ MergedWithSibling declarations index declaration c).
  { rewrite (fold_last_writer
               (InlineVariable.eachDeclaration selection (path_parent path)
                                               declarations None)
               (InlineVariable.eachDeclaration selection (path_parent path)
                                               declarations)
               (eachDeclaration_result selection (path_parent path) declarations)).
    destruct (Ast.last _) as [c'|] eqn:Hlast; [|discriminate].
    intros E. inversion E; subst c'. apply last_In in Hlast.
    apply in_flat_map in Hlast. destruct Hlast as ((index & declaration) & Hin & Hc).
    apply indexed_In in Hin.
    destruct (InlineVariable.eachDeclaration selection (path_parent path)
                                             declarations None (index, declaration))
      as [c'|] eqn:Heach; [|destruct Hc].
    destruct Hc as [->|[]].
    exists index, declaration. split; [exact Hin|].
    apply (eachDeclaration_merged _ _ _ _ Hin Heach). }
  destruct declarations as [|d [|d' rest]] eqn:Hdecls.
  - intros H. right. split; [discriminate|]. apply Hmany. exact H.
  - destruct (InlineVariable.inlinableIdentifierOf (fst d) (path_parent path))
      as [c'|] eqn:Hleaf; [|discriminate].
    intros E. inversion E; subst c'. left. exists d. split; [reflexivity|].
    apply (inlinableIdentifierOf_leaf _ _ Hleaf).
  - intros H. right. split; [discriminate|]. apply Hmany. exact H.
Qed.

(** What is returned was assigned on entering some path. *)
Lemma findInlinableCode_some_match
      (code : Node) (selection : Selection) (c : InlinableCode) :
  InlineVariable.findInlinableCode code selection = Some c ->
  exists path,
    In path (InlineVariable.traverseAST code)
    /\ InlineVariable.enter selection None path = Some c.
Proof.
  unfold InlineVariable.findInlinableCode.
  rewrite (fold_last_writer (InlineVariable.enter selection None)
                            (InlineVariable.enter selection)
                            (enter_result selection)).
  destruct (Ast.last _) as [c'|] eqn:Hlast; [|discriminate].
  intros E. inversion E; subst c'. apply last_In in Hlast.
  apply in_flat_map in Hlast. destruct Hlast as (path & Hin & Hc).
  exists path. split; [exact Hin|].
  destruct (InlineVariable.enter selection None path) as [c'|]; [|destruct Hc].
  destruct Hc as [->|[]]. reflexivity.
Qed.

(** A loop that overwrites its result whenever [g] yields one: what is
    yielded last is the result. *)
Lemma fold_last_writer_at {A B : Type} (g : A -> option B)
      (f : option B -> A -> option B) :
  (forall result x,
      f result x = match g x with Some b => Some b | None => result end) ->
  forall before x after b init,
    g x = Some b ->
    Forall (fun y => g y = None) after ->
    fold_left f (before ++ x :: after) init = Some b.
Proof.
  intros Hf before x after b init Hx Hafter.
  rewrite fold_left_app. simpl. rewrite Hf, Hx.
  induction Hafter as [|y after Hy _ IH]; simpl; [reflexivity|].
  rewrite Hf, Hy. exact IH.
Qed.

Lemma indexed_from_split {A : Type} (l : list A) :
  forall start i x,
    nth_error l i = Some x ->
    exists front back,
      combine (seq start (List.length l)) l = front ++ (start + i, x) :: back
      /\ forall j y,
          In (j, y) back ->
          exists k, j = start + k /\ i < k /\ nth_error l k = Some y.
Proof.
  induction l as [|a l IH]; intros start i x Hnth; [destruct i; discriminate Hnth|].
  destruct i as [|i]; simpl in Hnth.
  - inversion Hnth; subst a. exists [], (combine (seq (S start) (List.length l)) l).
    split; [simpl; rewrite Nat.add_0_r; reflexivity|].
    intros j y Hin. apply indexed_from_In in Hin. destruct Hin as (k & -> & Hk).
    exists (S k). split; [lia|]. split; [lia|exact Hk].
  - destruct (IH (S start) i x Hnth) as (front & back & E & Hback).
    exists ((start, a) :: front), back. split.
    + simpl. rewrite E. replace (S start + i) with (start + S i) by lia. reflexivity.
    + intros j y Hin. destruct (Hback j y Hin) as (k & -> & Hlt & Hk).
      exists (S k). split; [lia|]. split; [lia|exact Hk].
Qed.

Lemma indexed_split {A : Type} (l : list A) (i : nat) (x : A) :
  nth_error l i = Some x ->
  exists front back,
    InlineVariable.indexed l = front ++ (i, x) :: back
    /\ forall j y, In (j, y) back -> i < j /\ nth_error l j = Some y.
Proof.
  intros Hnth. destruct (indexed_from_split l 0 i Hnth) as (front & back & E & Hback).
  exists front, back. split; [exact E|].
  intros j y Hin. destruct (Hback j y Hin) as (k & -> & Hlt & Hk). simpl. auto.
Qed.

Lemma inlinableIdentifierOf_some (declaration parent : Node) :
  HasIdAndInit declaration ->
  exists c, InlineVariable.inlinableIdentifierOf declaration parent = Some c.
Proof.
  intros (id & init & Hid & Htype & Hloc & Hinit & Hinitloc).
  unfold InlineVariable.inlinableIdentifierOf. rewrite Hid, Hinit.
  unfold Ast.isSelectableIdentifier, Ast.isIdentifier, Ast.isSelectableNode.
  apply hasType_true in Htype. rewrite Htype.
  destruct (loc id); [|contradiction]. simpl.
  destruct (loc init); [|contradiction]. eexists. reflexivity.
Qed.

(** A declaration that is not around the selection assigns nothing. *)
Lemma enter_elsewhere (selection : Selection) (path : NodeAndParent) :
  (type (path_node path) = "VariableDeclaration" ->
   Ast.isInsideNode selection (path_node path) = false) ->
  InlineVariable.enter selection None path = None.
Proof.
  intros H. unfold InlineVariable.enter, Ast.isVariableDeclaration.
  destruct (Ast.hasType "VariableDeclaration" (path_node path)) eqn:Ht;
    [|reflexivity].
  apply hasType_true in Ht. rewrite (H Ht). reflexivity.
Qed.

(** What the last declaration around the selection assigns is what is
    returned. *)
Lemma findInlinableCode_at_the_last
      (code : Node) (selection : Selection) (path : NodeAndParent)
      (c : InlinableCode) :
  LastDeclarationAround selection code path ->
  InlineVariable.enter selection None path = Some c ->
  InlineVariable.findInlinableCode code selection = Some c.
Proof.
  intros (before & after & E & _ & _ & Hafter) Henter.
  unfold InlineVariable.findInlinableCode. rewrite E.
  apply (fold_last_writer_at (InlineVariable.enter selection None)
                             (InlineVariable.enter selection)
                             (enter_result selection)).
  - exact Henter.
  - eapply Forall_impl; [|exact Hafter].
    intros later Hlater. apply enter_elsewhere. exact Hlater.
Qed.

(** The declarator that is the last one around the selection, among
    several, is merged with a sibling. *)
Lemma enter_merges (selection : Selection) (path : NodeAndParent)
      (index : nat) (declaration : Node * SourceLocation) :
  type (path_node path) = "VariableDeclaration" ->
  Ast.isInsideNode selection (path_node path) = true ->
  List.length (InlineVariable.selectableDeclarations (path_node path)) <> 1 ->
  LastDeclaratorAround selection
                       (InlineVariable.selectableDeclarations (path_node path))
                       index declaration ->
  HasIdAndInit (fst declaration) ->
  exists c,
    InlineVariable.enter selection None path = Some c
    /\ MergedWithSibling (InlineVariable.selectableDeclarations (path_node path))
                         index declaration c.
Proof.
  intros Htype Hinside Hmany (Hnth & Hin & Hlast) Hparts.
  unfold InlineVariable.enter, Ast.isVariableDeclaration.
  apply hasType_true in Htype. rewrite Htype, Hinside. simpl.
  set (declarations := InlineVariable.selectableDeclarations (path_node path)) in *.
  assert (Heach : exists c,
             InlineVariable.eachDeclaration selection (path_parent path)
                                            declarations None (index, declaration)
             = Some c).
  { unfold InlineVariable.eachDeclaration. rewrite Hin. simpl.
    destruct (inlinableIdentifierOf_some (path_parent path) Hparts) as (leaf & Hleaf).
    rewrite Hleaf.
    assert (Hindex : index < List.length declarations)
      by (apply nth_error_Some; congruence).
    unfold InlineVariable.declarationsLocsOf.
    destruct (nth_error declarations (index + 1)) as [next|] eqn:Hnext;
      [eexists; reflexivity|].
    apply nth_error_None in Hnext.
    destruct index as [|i]; simpl.
    - exfalso. apply Hmany. lia.
    - destruct (nth_error declarations i) as [previous|] eqn:Hprevious;
        [eexists; reflexivity|].
      apply nth_error_None in Hprevious. lia. }
  destruct Heach as (c & Heach). exists c.
  assert (Hfold :
            fold_left
              (InlineVariable.eachDeclaration selection (path_parent path) declarations)
              (InlineVariable.indexed declarations) None = Some c).
  { destruct (indexed_split declarations index Hnth) as (front & back & E & Hback).
    rewrite E.
    apply (fold_last_writer_at
             (InlineVariable.eachDeclaration selection (path_parent path)
                                             declarations None)
             (InlineVariable.eachDeclaration selection (path_parent path)
                                             declarations)
             (eachDeclaration_result selection (path_parent path) declarations)).
    - exact Heach.
    - apply Forall_forall. intros (j, other) Hj.
      destruct (Hback j other Hj) as (Hlt & Hother).
      unfold InlineVariable.eachDeclaration.
      rewrite (Hlast j other Hlt Hother). reflexivity. }
  split.
  - destruct declarations as [|d [|d' rest]]; try exact Hfold.
    exfalso. apply Hmany. reflexivity.
  - apply (eachDeclaration_merged _ _ _ _ Hnth Heach).
Qed.

(** C4.  The removal of the declaration that was found.  When the
    declaration has a single declarator (with a range), the removed range
    is that of the initializer, its start taken back to the identifier and
    then to the start of the line, its end taken to the start of the next
    line.  When it has several, the removed range is that of the selected
    declarator merged with a sibling: its end is taken to the next
    declarator when there is one, and its start is taken back to the
    previous declarator when the selected one is the last.  This is what
    any result is made of, and it is what is returned for the last
    declaration around the selection that the walk enters: for its one
    declarator, or for the last of its declarators around the selection,
    provided the declarator has an identifier and an initializer with
    ranges. *)
Theorem findInlinableCode_removal (code : Node) (selection : Selection) :
  (forall c,
      InlineVariable.findInlinableCode code selection = Some c ->
      exists path,
        In path (InlineVariable.traverseAST code)
        /\ Ast.isVariableDeclaration (path_node path) = true
        /\ Ast.isInsideNode selection (path_node path) = true
        /\ RemovalAt selection path c)
  /\ (forall path declaration,
         LastDeclarationAround selection code path ->
         InlineVariable.selectableDeclarations (path_node path) = [declaration] ->
         HasIdAndInit (fst declaration) ->
         exists c,
           InlineVariable.findInlinableCode code selection = Some c
           /\ LeafRemoval (fst declaration) c)
  /\ (forall path index declaration,
         LastDeclarationAround selection code path ->
         List.length (InlineVariable.selectableDeclarations (path_node path)) <> 1 ->
         LastDeclaratorAround selection
                              (InlineVariable.selectableDeclarations (path_node path))
                              index declaration ->
         HasIdAndInit (fst declaration) ->
         exists c,
           InlineVariable.findInlinableCode code selection = Some c
           /\ MergedWithSibling
                (InlineVariable.selectableDeclarations (path_node path))
                index declaration c).
Proof.
  split; [|split].
  - intros c Hfound.
    destruct (findInlinableCode_some_match _ _ Hfound) as (path & Hin & Henter).
    exists path. split; [exact Hin|].
    assert (Hguards : Ast.isVariableDeclaration (path_node path) = true
                      /\ Ast.isInsideNode selection (path_node path) = true).
    { unfold InlineVariable.enter in Henter.
      destruct (Ast.isVariableDeclaration (path_node path)); [|discriminate].
      destruct (Ast.isInsideNode selection (path_node path)); [|discriminate].
      split; reflexivity. }
    destruct Hguards as (Hv & Hi). split; [exact Hv|]. split; [exact Hi|].
    apply enter_removal. exact Henter.
  - intros path declaration Hlast Hone Hparts.
    destruct (inlinableIdentifierOf_some (path_parent path) Hparts) as (c & Hleaf).
    exists c. split.
    + apply (findInlinableCode_at_the_last Hlast).
      destruct Hlast as (_ & _ & _ & Htype & Hinside & _).
      unfold InlineVariable.enter, Ast.isVariableDeclaration.
      apply hasType_true in Htype. rewrite Htype, Hinside, Hone. simpl.
      rewrite Hleaf. reflexivity.
    + apply (inlinableIdentifierOf_leaf _ _ Hleaf).
  - intros path index declaration Hlast Hmany Hdeclarator Hparts.
    pose proof Hlast as (_ & _ & _ & Htype & Hinside & _).
    destruct (enter_merges path Htype Hinside Hmany Hdeclarator Hparts)
      as (c & Henter & Hmerged).
    exists c. split; [|exact Hmerged].
    apply (findInlinableCode_at_the_last Hlast Henter).
Qed.

End RemovalProperties.

(** *** The range inherited from a named export *)

Section ExportRangeProperties.

Lemma inheritLoc_fields (parent n : Node) :
  ref (InlineVariable.inheritLoc parent n) = ref n
  /\ type (InlineVariable.inheritLoc parent n) = type n
  /\ children (InlineVariable.inheritLoc parent n) = children n.
Proof.
  unfold InlineVariable.inheritLoc.
  destruct (Ast.isExportNamedDeclaration parent && negb (Ast.isSelectableNode n));
    repeat split.
Qed.

Lemma inheritLoc_loc (parent n : Node) :
  loc (InlineVariable.inheritLoc parent n)
  = if Ast.isExportNamedDeclaration parent && negb (Ast.isSelectableNode n)
    then loc parent
    else loc n.
Proof.
  unfold InlineVariable.inheritLoc.
  destruct (Ast.isExportNamedDeclaration parent && negb (Ast.isSelectableNode n));
    reflexivity.
Qed.

Lemma entered_fields (parent n : Node) :
  ref (InlineVariable.entered parent n) = ref n
  /\ type (InlineVariable.entered parent n) = type n
  /\ loc (InlineVariable.entered parent n)
     = loc (InlineVariable.inheritLoc parent n).
Proof.
  destruct (inheritLoc_fields parent n) as (Hr & Ht & _).
  destruct n as [r t l nm sh cp cs]. simpl in *. repeat split; assumption.
Qed.


Lemma isExportNamedDeclaration_by_type (a b : Node) :
  type a = type b ->
  Ast.isExportNamedDeclaration a = Ast.isExportNamedDeclaration b.
Proof.
  unfold Ast.isExportNamedDeclaration, Ast.hasType. intros ->. reflexivity.
Qed.



End ExportRangeProperties.

(** *** The destructure prompt *)

Section PromptProperties.

Import ExtractVariable.

(** C6.  [askUserChoice] is called at most once.  When it is called, the
    extracted expression is a member access that is not computed, and the
    options are exactly two, [Destructure] then [Preserve], each labelled
    with the declaration it leads to.  It is not called when the chain has
    a computed segment, nor when the expression is not a member-expression
    chain. *)
Theorem askUserChoice_options (extracted : Expression) :
  (askUserChoiceCalls extracted = []
   \/ exists object property,
       extracted = MemberExpression object property false
       /\ askUserChoiceCalls extracted
          = [[mkChoice
                ("Destructure => `const { " ++ property ++ " } = "
                   ++ sourceOf object ++ "`")
                Destructure;
              mkChoice
                ("Preserve => `const " ++ property ++ " = "
                   ++ sourceOf extracted ++ "`")
                Preserve]])
  /\ (forall options,
         In options (askUserChoiceCalls extracted) ->
         map value options = [Destructure; Preserve])
  /\ (hasComputedSegment extracted = true -> askUserChoiceCalls extracted = [])
  /\ (isChain extracted = false -> askUserChoiceCalls extracted = []).
Proof.
  destruct extracted as [n|object property computed|s].
  - simpl. repeat split; auto. intros options [].
  - unfold askUserChoiceCalls.
    destruct (isChain (MemberExpression object property computed)
              && negb (hasComputedSegment (MemberExpression object property computed)))
             eqn:Hask.
    + apply andb_true_iff in Hask. destruct Hask as (Hchain & Hcomputed).
      apply negb_true_iff in Hcomputed.
      assert (computed = false) as ->.
      { simpl in Hcomputed. apply orb_false_iff in Hcomputed. tauto. }
      repeat split.
      * right. exists object, property. split; reflexivity.
      * intros options [<-|[]]. reflexivity.
      * intros H. rewrite H in Hcomputed. discriminate Hcomputed.
      * intros H. rewrite H in Hchain. discriminate Hchain.
    + repeat split; auto. intros options [].
  - simpl. repeat split; auto. intros options [].
Qed.

End PromptProperties.

(** *** The code-action provider *)

Section ProviderProperties.

Import ActionProvider.

Lemma prefix_iff (part s : string) :
  String.prefix part s = true <-> exists after, s = (part ++ after)%string.
Proof.
  revert s. induction part as [|a part IH]; intros s.
  - split; [|destruct s; reflexivity]. intros _. exists s. reflexivity.
  - destruct s as [|b s]; simpl.
    + split; [discriminate|]. intros (after & E). discriminate E.
    + destruct (ascii_dec a b) as [->|Hne].
      * rewrite IH. split.
        -- intros (after & ->). exists after. reflexivity.
        -- intros (after & E). inversion E. exists after. reflexivity.
      * split; [discriminate|]. intros (after & E). inversion E. congruence.
Qed.

Lemma includes_iff (s part : string) :
  includes s part = true <->
  exists before after, s = (before ++ part ++ after)%string.
Proof.
  induction s as [|c s IH].
  - change (includes "" part) with (String.prefix part "" || false).
    rewrite orb_false_r, prefix_iff. split.
    + intros (after & E). exists EmptyString, after. exact E.
    + intros (before & after & E). destruct before as [|b before].
      * exists after. exact E.
      * discriminate E.
  - change (includes (String c s) part)
      with (String.prefix part (String c s) || includes s part).
    rewrite orb_true_iff, prefix_iff, IH. split.
    + intros [(after & E)|(before & after & E)].
      * exists EmptyString, after. exact E.
      * exists (String c before), after. simpl. rewrite E. reflexivity.
    + intros (before & after & E). destruct before as [|b before].
      * left. exists after. exact E.
      * right. simpl in E. inversion E. exists before, after. reflexivity.
Qed.

Lemma isNavigatingAnIgnoredFile_iff (host : Host) (filePath : string) :
  isNavigatingAnIgnoredFile host filePath = true <-> InIgnoredFolder host filePath.
Proof.
  unfold isNavigatingAnIgnoredFile, InIgnoredFolder. rewrite existsb_exists. split.
  - intros (ignored & Hin & Hinc). apply includes_iff in Hinc.
    destruct Hinc as (before & after & E). exists ignored, before, after.
    split; [exact Hin|exact E].
  - intros (ignored & before & after & Hin & E). exists ignored.
    split; [exact Hin|]. apply includes_iff. exists before, after. exact E.
Qed.

Lemma mapSet_keys {V : Type} (k : string) (v : V) (m : list (string * V)) :
  forall k', In k' (map fst (mapSet k v m)) <-> k' = k \/ In k' (map fst m).
Proof.
  induction m as [|(k0, v0) m IH]; intros k'; simpl.
  - intuition.
  - destruct (String.eqb k0 k) eqn:E; simpl.
    + apply String.eqb_eq in E. subst. intuition.
    + rewrite IH. intuition.
Qed.

Lemma mapSet_KeyedOnce (r : Refactoring) (m : list (string * Refactoring)) :
  KeyedOnce m -> KeyedOnce (mapSet (key (command r)) r m).
Proof.
  unfold KeyedOnce. induction m as [|(k0, r0) m IH]; simpl.
  - intros _. split; repeat constructor. intros [].
  - intros (Hnd & Hall). inversion Hnd; subst. inversion Hall; subst.
    destruct (String.eqb k0 (key (command r))) eqn:E; simpl.
    + apply String.eqb_eq in E. subst. split; constructor; auto.
    + apply String.eqb_neq in E. destruct (IH (conj H2 H4)) as (Hnd' & Hall').
      split; constructor; auto.
      rewrite mapSet_keys. intros [Hk|Hk]; [congruence|contradiction].
Qed.

Lemma onMatch_KeyedOnce (r : Refactoring) (m : list (string * Refactoring))
      (visitedPath : NodeAndParent) :
  KeyedOnce m -> KeyedOnce (onMatch r m visitedPath).
Proof.
  intros H. unfold onMatch.
  set (r' := mkRefactoring (command r) _).
  change (key (command r)) with (key (command r')).
  apply mapSet_KeyedOnce. exact H.
Qed.

Lemma foldM_threw {S A : Type} (f : S -> A -> Completion S) (l : list A) :
  fold_left (fun acc a => s' <- acc ;; f s' a) l Threw = Threw.
Proof. induction l as [|a l IH]; simpl; [reflexivity|exact IH]. Qed.

(** What every step keeps, the whole loop keeps. *)
Lemma foldM_invariant {S A : Type} (P : S -> Prop) (f : S -> A -> Completion S) :
  (forall s a s', P s -> f s a = Normal s' -> P s') ->
  forall l s s', P s -> foldM f l s = Normal s' -> P s'.
Proof.
  intros Hstep l. unfold foldM.
  induction l as [|a l IH]; intros s s' Hs; simpl.
  - intros E. inversion E; subst. exact Hs.
  - destruct (f s a) as [s1|] eqn:Hf.
    + apply IH. apply (Hstep _ _ _ Hs Hf).
    + rewrite foldM_threw. discriminate.
Qed.

Lemma check_KeyedOnce (selection : Selection) (path : NodeAndParent)
      (state state' : list (string * Refactoring) * Control) (r : Refactoring) :
  KeyedOnce (fst state) ->
  check selection path state r = Normal state' ->
  KeyedOnce (fst state').
Proof.
  intros Hm. unfold check.
  destruct (visit (createVisitor (actionProvider r) selection) path)
    as [visited|]; simpl; [|discriminate].
  intros E. inversion E; subst. clear E. simpl.
  generalize (matches visited) as matched. generalize (fst state) Hm. clear.
  intros m Hm matched. revert m Hm.
  induction matched as [|v matched IH]; intros m Hm; simpl.
  - exact Hm.
  - apply IH. apply onMatch_KeyedOnce. exact Hm.
Qed.

Lemma checkAll_KeyedOnce (selection : Selection) (rs : list Refactoring)
      (path : NodeAndParent) (m m' : list (string * Refactoring)) (c : Control) :
  KeyedOnce m -> checkAll selection rs m path = Normal (m', c) -> KeyedOnce m'.
Proof.
  intros Hm Hcheck. unfold checkAll in Hcheck.
  change m' with (fst (m', c)).
  revert Hcheck.
  apply foldM_invariant with (P := fun state => KeyedOnce (fst state));
    [|exact Hm].
  intros state r state' Hstate. apply check_KeyedOnce. exact Hstate.
Qed.

Lemma traverseBelow_eq {S : Type}
      (enter : S -> NodeAndParent -> Completion (S * Control))
      (parent : Node) (walk : Completion (S * bool)) :
  traverseBelow enter parent walk
  = fold_left (enterChild (traverseBelow enter) enter parent) (children parent) walk.
Proof. destruct parent; reflexivity. Qed.

Lemma fold_enterChild_threw {S : Type}
      (below : Node -> Completion (S * bool) -> Completion (S * bool))
      (enter : S -> NodeAndParent -> Completion (S * Control))
      (parent : Node) (cs : list (string * Node)) :
  fold_left (enterChild below enter parent) cs Threw = Threw.
Proof. induction cs as [|kc cs IH]; simpl; [reflexivity|exact IH]. Qed.

(** One child of the walk, case by case. *)
Lemma enterChild_cases {S : Type}
      (below : Node -> Completion (S * bool) -> Completion (S * bool))
      (enter : S -> NodeAndParent -> Completion (S * Control))
      (parent : Node) (s : S) (stopped : bool) (kc : string * Node) :
  enterChild below enter parent (Normal (s, stopped)) kc
  = if stopped then Normal (s, true)
    else
      match enter s (mkNodeAndParent (snd kc) parent) with
      | Normal (s', Stop) => Normal (s', true)
      | Normal (s', Skip) => Normal (s', false)
      | Normal (s', Continue) => below (snd kc) (Normal (s', false))
      | Threw => Threw
      end.
Proof.
  unfold enterChild. simpl. destruct stopped; [reflexivity|].
  destruct (enter s (mkNodeAndParent (snd kc) parent)) as [(s', c)|]; simpl;
    [destruct c; reflexivity|reflexivity].
Qed.

Lemma fold_enterChild_invariant {S : Type} (P : S -> Prop)
      (Q : NodeAndParent -> Prop)
      (enter : S -> NodeAndParent -> Completion (S * Control)) (parent : Node) :
  (forall s path s' c, Q path -> P s -> enter s path = Normal (s', c) -> P s') ->
  forall cs,
    Forall (fun kc : string * Node =>
              Q (mkNodeAndParent (snd kc) parent)
              /\ forall w w',
                  P (fst w) ->
                  traverseBelow enter (snd kc) (Normal w) = Normal w' ->
                  P (fst w'))
           cs ->
    forall w w',
      P (fst w) ->
      fold_left (enterChild (traverseBelow enter) enter parent) cs (Normal w)
      = Normal w' ->
      P (fst w').
Proof.
  intros Hstep cs Hcs.
  induction Hcs as [|kc cs (Hq & Hkc) _ IH]; intros w w' Hw; cbn [fold_left].
  - intros E. inversion E; subst. exact Hw.
  - destruct w as (s, stopped). rewrite enterChild_cases.
    destruct stopped; [apply IH; exact Hw|].
    destruct (enter s (mkNodeAndParent (snd kc) parent)) as [(s', c)|] eqn:He;
      [|rewrite fold_enterChild_threw; discriminate].
    assert (Hs' : P s') by (apply (Hstep _ _ _ _ Hq Hw He)).
    destruct c; try (apply IH; exact Hs').
    destruct (traverseBelow enter (snd kc) (Normal (s', false))) as [w1|] eqn:Hb;
      [|rewrite fold_enterChild_threw; discriminate].
    apply IH. apply (Hkc (s', false) w1 Hs' Hb).
Qed.

(** What is kept on entering a path is kept by the walk, whichever paths
    it enters. *)
Lemma traverseBelow_invariant {S : Type} (P : S -> Prop)
      (Q : NodeAndParent -> Prop)
      (enter : S -> NodeAndParent -> Completion (S * Control)) :
  (forall s path s' c, Q path -> P s -> enter s path = Normal (s', c) -> P s') ->
  forall parent,
    (forall path, In path (InlineVariable.pathsBelow parent) -> Q path) ->
    forall w w',
      P (fst w) ->
      traverseBelow enter parent (Normal w) = Normal w' ->
      P (fst w').
Proof.
  intros Hstep parent.
  induction parent as [r t l nm sh cp cs IH] using Node_tree_ind.
  intros HQ w w'. rewrite traverseBelow_eq.
  apply (fold_enterChild_invariant P Q enter _ Hstep).
  apply Forall_forall. intros kc Hin. rewrite Forall_forall in IH. split.
  - apply HQ. simpl. apply in_flat_map. exists kc. split; [exact Hin|].
    left. reflexivity.
  - apply (IH kc Hin). intros path Hpath. apply HQ. simpl.
    apply in_flat_map. exists kc. split; [exact Hin|]. right. exact Hpath.
Qed.

(** What [findApplicableRefactorings] returns are the values of the map
    the walk ends with. *)
Lemma findApplicableRefactorings_walk (host : Host) (refactorings : list Refactoring)
      (ast : Node) (selection : Selection) (applicable : list Refactoring) :
  findApplicableRefactorings host refactorings ast selection = Normal applicable ->
  exists w,
    traverseBelow
      (checkAll selection
                (filter (fun r => shouldShowInQuickFix host (key (command r)))
                        refactorings))
      ast (Normal ([], false)) = Normal w
    /\ applicable = mapValues (fst w).
Proof.
  unfold findApplicableRefactorings, traverseAST.
  destruct (traverseBelow _ _ _) as [w|]; simpl; [|discriminate].
  intros E. inversion E. exists w. split; reflexivity.
Qed.

Lemma walk_KeyedOnce (selection : Selection) (rs : list Refactoring) (ast : Node)
      (w : list (string * Refactoring) * bool) :
  traverseBelow (checkAll selection rs) ast (Normal ([], false)) = Normal w ->
  KeyedOnce (fst w).
Proof.
  apply traverseBelow_invariant
    with (P := KeyedOnce) (Q := fun _ : NodeAndParent => True).
  - intros s path s' c _ Hs. apply checkAll_KeyedOnce. exact Hs.
  - intros path _. exact I.
  - split; constructor.
Qed.

Lemma findApplicableRefactorings_keys (host : Host) (refactorings : list Refactoring)
      (ast : Node) (selection : Selection) (applicable : list Refactoring) :
  findApplicableRefactorings host refactorings ast selection = Normal applicable ->
  NoDup (map (fun r => key (command r)) applicable).
Proof.
  intros H. apply findApplicableRefactorings_walk in H.
  destruct H as (w & Hwalk & ->).
  destruct (walk_KeyedOnce _ _ _ Hwalk) as (Hnd & Hall). unfold mapValues. rewrite map_map.
  replace (map (fun kr => key (command (snd kr))) (fst w)) with (map fst (fst w));
    [exact Hnd|].
  apply map_ext_in. intros kr Hin. rewrite Forall_forall in Hall.
  symmetry. apply Hall. exact Hin.
Qed.

Lemma commands_NoDup (applicable : list Refactoring) :
  NoDup (map (fun r => key (command r)) applicable) ->
  NoDup (map (fun a => vs_command (action_command a))
             (map buildCodeActionFor applicable)).
Proof.
  rewrite map_map. simpl.
  induction applicable as [|r rs IH]; simpl; intros H; [constructor|].
  inversion H; subst. constructor; [|apply IH; assumption].
  intros Hin. apply H2. apply in_map_iff in Hin.
  destruct Hin as (r' & E & Hin). simpl in E. injection E as Hkey.
  apply in_map_iff. exists r'. split; [exact Hkey|exact Hin].
Qed.

(** C10.  [provideCodeActions] always returns a list of actions, whatever
    the parser and the visitors do, and no two of its actions are for the
    same command key.  The list is empty when the path of the document
    goes through an ignored folder, when there is no editor, when the text
    cannot be parsed, and when checking the refactorings throws. *)
Theorem provideCodeActions_never_throws
        (host : Host) (refactorings : list Refactoring) (documentPath : string) :
  (exists actions,
      provideCodeActions host refactorings documentPath = Normal actions
      /\ NoDup (map (fun a => vs_command (action_command a)) actions))
  /\ (InIgnoredFolder host documentPath ->
      provideCodeActions host refactorings documentPath = Normal [])
  /\ (createVSCodeEditor host = None ->
      provideCodeActions host refactorings documentPath = Normal [])
  /\ (forall editor,
         createVSCodeEditor host = Some editor ->
         parse host (editor_code editor) = Threw ->
         provideCodeActions host refactorings documentPath = Normal [])
  /\ (forall editor ast,
         createVSCodeEditor host = Some editor ->
         parse host (editor_code editor) = Normal ast ->
         findApplicableRefactorings host refactorings ast (editor_selection editor)
         = Threw ->
         provideCodeActions host refactorings documentPath = Normal []).
Proof.
  pose proof (isNavigatingAnIgnoredFile_iff host documentPath) as Hignored.
  unfold provideCodeActions.
  destruct (isNavigatingAnIgnoredFile host documentPath).
  { split; [exists []; split; [reflexivity|constructor]|]. repeat split. }
  split.
  - destruct (createVSCodeEditor host) as [editor|];
      [|exists []; split; [reflexivity|constructor]].
    destruct (parse host (editor_code editor)) as [ast|]; simpl;
      [|exists []; split; [reflexivity|constructor]].
    destruct (findApplicableRefactorings host refactorings ast
                                         (editor_selection editor))
      as [applicable|] eqn:Hfind; simpl;
      [|exists []; split; [reflexivity|constructor]].
    eexists. split; [reflexivity|].
    apply commands_NoDup. apply (findApplicableRefactorings_keys _ _ _ _ Hfind).
  - split; [intros H; apply Hignored in H; discriminate H|].
    split; [intros ->; reflexivity|].
    split.
    + intros editor -> ->. reflexivity.
    + intros editor ast He Hp Hf. rewrite He, Hp. simpl. rewrite Hf. reflexivity.
Qed.

End ProviderProperties.


(* ===================================================================== *)
(** ** The properties on the programs *)
(* ===================================================================== *)

Section OnPrograms.

Import Example.

(** The four failures of [inlineVariable], on a cursor outside any
    declaration, on a variable assigned to again, on an exported variable
    and on a variable that is not used. *)
Lemma inlineVariable_failures_on_programs :
  (InlineVariable.findInlinableCode uses (cursor 2 1) = None
   /\ @InlineVariable.inlineVariable byName widening uses (cursor 2 1) editor
      = mkRun [ShowError DidNotFoundInlinableCode] false)
  /\ @InlineVariable.inlineVariable byName widening shadowed (cursor 1 7) editor
     = mkRun [ShowError CantInlineRedeclaredVariables] false
  /\ @InlineVariable.inlineVariable byName widening exported (cursor 1 14) editor
     = mkRun [ShowError CantInlineExportedVariables] false
  /\ @InlineVariable.inlineVariable byName widening nested (cursor 4 3) editor
     = mkRun [ShowError DidNotFoundInlinableCodeIdentifiers] false.
Proof.
  split; [split|split; [|split]].
  - vm_compute. reflexivity.
  - apply (proj1 (@inlineVariable_failures byName widening uses (cursor 2 1) editor)).
    vm_compute. reflexivity.
  - eapply (proj1 (proj2 (@inlineVariable_failures byName widening shadowed
                                                   (cursor 1 7) editor))).
    + vm_compute. reflexivity.
    + apply (proj1 (@isRedeclared_iff byName _)). vm_compute. reflexivity.
  - eapply (proj1 (proj2 (proj2 (@inlineVariable_failures byName widening exported
                                                          (cursor 1 14) editor)))).
    + vm_compute. reflexivity.
    + intros H. apply (proj2 (@isRedeclared_iff byName _)) in H.
      vm_compute in H. discriminate H.
    + apply (proj1 (@isExported_iff byName _)). vm_compute. reflexivity.
  - eapply (proj1 (proj2 (proj2 (proj2
             (@inlineVariable_failures byName widening nested (cursor 4 3) editor))))).
    + vm_compute. reflexivity.
    + intros H. apply (proj2 (@isRedeclared_iff byName _)) in H.
      vm_compute in H. discriminate H.
    + intros H. apply (proj2 (@isExported_iff byName _)) in H.
      vm_compute in H. discriminate H.
    + vm_compute. reflexivity.
Defined.

(** In [nested] a cursor on [b] is inside two declarations of several
    declarators, that of [a] and [d] and that of [b] and [c].  Each of
    them is a match, and the one returned is not the first. *)
Lemma findInlinableCode_not_the_first_match :
  List.length (matchesOf (cursor 2 8) nested) = 2
  /\ forallb isComposite (matchesOf (cursor 2 8) nested) = true
  /\ InlineVariable.findInlinableCode nested (cursor 2 8)
     <> hd_error (matchesOf (cursor 2 8) nested).
Proof.
  split; [vm_compute; reflexivity|].
  split; [vm_compute; reflexivity|].
  vm_compute. intros H. discriminate H.
Qed.


(** The removals in [nested].  With the cursor on [b], [b = 1] is merged
    with [c], the next declarator: [b = 1, ] goes.  With the cursor on
    [c], the last declarator, [c = 2] is merged with [b], the previous
    one: [, c = 2] goes. *)
Lemma findInlinableCode_removal_on_nested :
  (exists c,
      InlineVariable.findInlinableCode nested (cursor 2 8) = Some c
      /\ @MergedWithSibling widening declaratorsInNested 0 (declaratorInNested 0) c)
  /\ (exists c,
         InlineVariable.findInlinableCode nested (cursor 2 15) = Some c
         /\ @MergedWithSibling widening declaratorsInNested 1 (declaratorInNested 1) c)
  /\ @InlineVariable.codeToRemoveSelection widening (found nested (cursor 2 8))
     = Normal (mkSelection (mkPosition 2 8) (mkPosition 2 15))
  /\ @InlineVariable.codeToRemoveSelection widening (found nested (cursor 2 15))
     = Normal (mkSelection (mkPosition 2 13) (mkPosition 2 20)).
Proof.
  assert (Hlast : forall selection,
             Ast.isInsideNode selection (path_node declarationInNested) = true ->
             LastDeclarationAround selection nested declarationInNested).
  { intros selection Hin.
    exists (firstn 6 (InlineVariable.traverseAST nested)),
           (skipn 7 (InlineVariable.traverseAST nested)).
    split; [vm_compute; reflexivity|]. split; [reflexivity|]. split; [exact Hin|].
    cbv [nested]. cbn.
    repeat (apply Forall_cons; [intros H; discriminate H|]). apply Forall_nil. }
  assert (Hparts : forall index,
             index < 2 -> HasIdAndInit (fst (declaratorInNested index))).
  { intros [|[|index]] Hlt; [| |lia];
      (do 2 eexists; split; [cbv; reflexivity|]; split; [reflexivity|];
       split; [discriminate|]; split; [cbv; reflexivity|discriminate]). }
  assert (Hmany : List.length declaratorsInNested <> 1) by (cbv; discriminate).
  split; [|split; [|split; vm_compute; reflexivity]].
  - apply (proj2 (proj2 (@findInlinableCode_removal widening nested (cursor 2 8)))
             declarationInNested 0 (declaratorInNested 0)).
    + apply Hlast. reflexivity.
    + exact Hmany.
    + split; [reflexivity|]. split; [reflexivity|].
      intros [|[|later]] other Hlt Hnth; [lia| |].
      * cbv in Hnth. inversion Hnth; subst other. reflexivity.
      * cbv in Hnth. destruct later; discriminate Hnth.
    + apply Hparts. lia.
  - apply (proj2 (proj2 (@findInlinableCode_removal widening nested (cursor 2 15)))
             declarationInNested 1 (declaratorInNested 1)).
    + apply Hlast. reflexivity.
    + exact Hmany.
    + split; [reflexivity|]. split; [reflexivity|].
      intros [|[|later]] other Hlt Hnth; [lia|lia|].
      cbv in Hnth. destruct later; discriminate Hnth.
    + apply Hparts. lia.
Defined.

(** The edits for [foo] in [uses]: [(1)] below the unary minus, [foo: 1]
    as the value of the shorthand property, [1] as an argument, and
    nothing for the property name [console.foo]. *)
Lemma inlineVariable_replacement_text_on_uses :
  @InlineVariable.inlineVariable byName widening uses (cursor 1 7) editor
  = mkRun [ReadThenWrite (Sel.fromAST (mkLoc (mkPosition 1 12) (mkPosition 1 13)))
                         editsOfUses] false
  /\ map edit_code editsOfUses = ["(1)"; "foo: 1"; "1"; ""]
  /\ exists c replacements toRemove,
      InlineVariable.findInlinableCode uses (cursor 1 7) = Some c
      /\ Sel.fromAST (mkLoc (mkPosition 1 12) (mkPosition 1 13))
         = InlineVariable.selection c
      /\ @InlineVariable.codeToRemoveSelection widening c = Normal toRemove
      /\ editsOfUses = replacements ++ [mkEdit "" toRemove]
      /\ Forall2
           (@EditAt
              (read editor (Sel.fromAST (mkLoc (mkPosition 1 12) (mkPosition 1 13)))))
           (@replacementSites byName (declaredId c) (declaringScope c))
           replacements.
Proof.
  assert (H : @InlineVariable.inlineVariable byName widening uses (cursor 1 7) editor
              = mkRun [ReadThenWrite
                         (Sel.fromAST (mkLoc (mkPosition 1 12) (mkPosition 1 13)))
                         editsOfUses] false)
    by (vm_compute; reflexivity).
  split; [exact H|]. split; [vm_compute; reflexivity|].
  apply (@inlineVariable_replacement_text byName widening uses (cursor 1 7) editor
                                          _ _ H).
Defined.

End OnPrograms.

Section MoreOnPrograms.

Import Example.

(** The sites of [foo] in [uses], by their ranges: the operand of the
    unary minus, the value of the shorthand property and the last
    argument; not the declared identifier, not the key of the property,
    not the property name in [console.foo]. *)
Example identifiersToReplace_on_uses :
  match @InlineVariable.identifiersToReplace byName (found uses (cursor 1 7)) with
  | Normal ids =>
    map replace_loc ids
    = [mkLoc (mkPosition 2 13) (mkPosition 2 16);
       mkLoc (mkPosition 2 20) (mkPosition 2 23);
       mkLoc (mkPosition 2 27) (mkPosition 2 30)]
  | Threw => False
  end.
Proof. vm_compute. reflexivity. Qed.

(** In [shadowed] the parameter [foo] and the [foo] that is returned are
    shadowed by the parameter; the [foo] assigned to is not. *)
Example identifiersToReplace_on_shadowed :
  match @InlineVariable.identifiersToReplace byName (found shadowed (cursor 1 7)) with
  | Normal ids => map replace_loc ids = [mkLoc (mkPosition 5 0) (mkPosition 5 3)]
  | Threw => False
  end.
Proof. vm_compute. reflexivity. Qed.

(** The function declaration of [shadowed] has a parameter [foo] and so
    shadows [foo] below it; the block that holds the declaration of [b]
    in [nested] does not shadow [b]. *)
Lemma isShadowIn_on_programs :
  (ShadowedByParameter (@areEqual byName) (declaredId (found shadowed (cursor 1 7)))
                       functionOfShadowed
   /\ Shadow.isShadowIn (@areEqual byName)
        (declaredId (found shadowed (cursor 1 7)))
        [Ast.mkAncestor (declaringScope (found shadowed (cursor 1 7))) "body";
         Ast.mkAncestor functionOfShadowed "body"] = true)
  /\ Shadow.isShadowIn (@areEqual byName)
       (declaredId foundInNested)
       [Ast.mkAncestor (declaringScope foundInNested) "body"] = false.
Proof.
  split; [|vm_compute; reflexivity].
  assert (Hp : ShadowedByParameter
                 (@areEqual byName) (declaredId (found shadowed (cursor 1 7)))
                 functionOfShadowed).
  { split; [reflexivity|].
    exists (identifier 8 (range 2 11 2 14) "foo").
    split; [cbv; left; reflexivity|reflexivity]. }
  split; [exact Hp|].
  apply (proj2 (proj1 (isShadowIn_characterisation (@areEqual byName) _ _))).
  eexists. split; [right; left; reflexivity|]. left. exact Hp.
Defined.

(** The prompts of the tests of extract variable: [foo.bar.baz] is asked
    about, with the two labels the test expects; [foo.bar.children[0]] and
    a string are not. *)
Lemma askUserChoice_on_the_tests :
  ExtractVariable.askUserChoiceCalls
    (ExtractVariable.MemberExpression
       (ExtractVariable.MemberExpression (ExtractVariable.Identifier "foo") "bar" false)
       "baz" false)
  = [[ExtractVariable.mkChoice "Destructure => `const { baz } = foo.bar`"
                               ExtractVariable.Destructure;
      ExtractVariable.mkChoice "Preserve => `const baz = foo.bar.baz`"
                               ExtractVariable.Preserve]]
  /\ ExtractVariable.askUserChoiceCalls
       (ExtractVariable.MemberExpression
          (ExtractVariable.MemberExpression
             (ExtractVariable.MemberExpression (ExtractVariable.Identifier "foo")
                                               "bar" false)
             "children" false)
          "0" true)
     = []
  /\ ExtractVariable.askUserChoiceCalls (ExtractVariable.Other "'hello'") = [].
Proof.
  split; [reflexivity|]. split.
  - apply (proj1 (proj2 (proj2 (askUserChoice_options _)))). reflexivity.
  - apply (proj2 (proj2 (proj2 (askUserChoice_options _)))). reflexivity.
Defined.

(** An identifier in a call in an expression statement has the statement
    as its scope path; a variable declaration directly inside an export is
    passed over for the export; the [if] of an [else if] is passed over
    for the outer [if]; and nothing above the program is a scope path. *)
Example findScopePath_on_paths :
  Scope.findScopePath
    (pathIn (pathIn (pathIn programPath 2 "ExpressionStatement") 3 "CallExpression")
            4 "Identifier")
  = Some (pathIn programPath 2 "ExpressionStatement")
  /\ Scope.findScopePath
       (pathIn (pathIn (pathIn (pathIn programPath 2 "ExportNamedDeclaration")
                               3 "VariableDeclaration")
                       4 "VariableDeclarator")
               5 "NumericLiteral")
     = Some (pathIn programPath 2 "ExportNamedDeclaration")
  /\ Scope.findScopePath
       (pathIn (pathIn (pathIn programPath 2 "IfStatement") 3 "IfStatement")
               4 "Identifier")
     = Some (pathIn programPath 2 "IfStatement")
  /\ Scope.findScopePath (pathIn programPath 2 "Identifier") = None.
Proof. repeat split. Qed.

(** In [exported] the variable declaration has no range; a cursor on the
    [export] keyword is inside the export, so the declaration is found,
    with the export as its scope. *)
Example findInlinableCode_on_exported :
  map (fun path => (type (path_node path), loc (path_node path)))
      (firstn 2 (InlineVariable.traverseAST exported))
  = [("Program", range 1 0 1 21); ("ExportNamedDeclaration", range 1 0 1 21)]
  /\ map (fun path => (type (path_node path), loc (path_node path)))
         (firstn 1 (skipn 2 (InlineVariable.traverseAST exported)))
     = [("VariableDeclaration", range 1 0 1 21)]
  /\ type (declaringScope (found exported (cursor 1 2))) = "ExportNamedDeclaration"
  /\ name (declaredId (found exported (cursor 1 2))) = "foo".
Proof. vm_compute. repeat split. Qed.

(** The provider on [ifs], where both refactorings match at the two if
    statements: one action for each key.  No action below an ignored
    folder, and none when the text cannot be parsed. *)
Lemma provideCodeActions_on_programs :
  map (fun a => ActionProvider.vs_command (ActionProvider.action_command a))
      (match ActionProvider.provideCodeActions
               host [flipIfElse; mergeWithPreviousIfStatement] "/src/a.ts"
       with
       | Normal actions => actions
       | Threw => []
       end)
  = ["abracadabra.flipIfElse"; "abracadabra.mergeWithPreviousIfStatement"]
  /\ ActionProvider.provideCodeActions
       host [flipIfElse; mergeWithPreviousIfStatement] "/app/node_modules/a.ts"
     = Normal []
  /\ ActionProvider.provideCodeActions
       hostThatCannotParse [flipIfElse; mergeWithPreviousIfStatement] "/src/a.ts"
     = Normal [].
Proof.
  split; [vm_compute; reflexivity|]. split.
  - apply (proj1 (proj2 (provideCodeActions_never_throws
                           host [flipIfElse; mergeWithPreviousIfStatement]
                           "/app/node_modules/a.ts"))).
    exists "node_modules", "/app", "a.ts". split; [left; reflexivity|reflexivity].
  - eapply (proj1 (proj2 (proj2 (proj2 (provideCodeActions_never_throws
                                          hostThatCannotParse
                                          [flipIfElse; mergeWithPreviousIfStatement]
                                          "/src/a.ts"))))); reflexivity.
Defined.

End MoreOnPrograms.

(* ===================================================================== *)
(** ** Further properties: the array helpers *)
(* ===================================================================== *)

Section ArrayProperties.

Lemma allButLast_snoc {A : Type} (l : list A) (x : A) :
  Arrays.allButLast (l ++ [x]) = l.
Proof.
  unfold Arrays.allButLast. rewrite length_app. simpl.
  replace (List.length l + 1 - 1) with (List.length l) by lia.
  rewrite firstn_app, Nat.sub_diag, firstn_all. simpl. apply app_nil_r.
Qed.

(** X1.  [allButLast] and [last] take an array apart without losing
    anything: a non-empty array is [allButLast(array)] followed by
    [last(array)], and the empty array has no last element and no others. *)
Theorem allButLast_then_last {A : Type} (array : list A) :
  match Ast.last array with
  | Some x => Arrays.allButLast array ++ [x] = array
  | None => array = [] /\ Arrays.allButLast array = []
  end.
Proof.
  destruct array as [|a array].
  - simpl. split; reflexivity.
  - destruct (@exists_last _ (a :: array)) as (l & x & E); [discriminate|].
    rewrite E, last_snoc, allButLast_snoc. reflexivity.
Qed.

(** X2.  [isLast(array, index)] holds at the index [length - 1] only; at
    that index the element is [last(array)] and the elements before it are
    [allButLast(array)].  For the empty array the only such index is
    [-1]. *)
Theorem isLast_is_the_last_index {A : Type} (array : list A) :
  (forall index,
      Arrays.isLast array index = true <->
      index = (Z.of_nat (List.length array) - 1)%Z)
  /\ (forall i,
         Arrays.isLast array (Z.of_nat i) = true ->
         nth_error array i = Ast.last array
         /\ firstn i array = Arrays.allButLast array)
  /\ (Arrays.isLast array (-1) = true <-> array = []).
Proof.
  assert (Hiff : forall index,
             Arrays.isLast array index = true <->
             index = (Z.of_nat (List.length array) - 1)%Z).
  { intros index. unfold Arrays.isLast. rewrite Z.eqb_eq. split; intros; lia. }
  split; [exact Hiff|]. split.
  - intros i Hi. apply Hiff in Hi.
    assert (Hlen : List.length array = S i) by lia.
    unfold Ast.last, Arrays.allButLast. rewrite Hlen. simpl. rewrite Nat.sub_0_r.
    destruct array; [discriminate Hlen|]. split; reflexivity.
  - rewrite Hiff. split.
    + intros H. destruct array; [reflexivity|]. cbn [List.length] in H. lia.
    + intros ->. reflexivity.
Qed.

End ArrayProperties.

(* ===================================================================== *)
(** ** Further properties: the other functions of [ast/scope.ts] *)
(* ===================================================================== *)

Section IfPathProperties.



End IfPathProperties.

Section ScopePathsProperties.

Variable isFunctionType : string -> bool.
Variable isStatementType : string -> bool.

Lemma findParent_above (callback : NodePath -> bool) (path found : NodePath) :
  Scope.findParent callback path = Some found -> In found (Scope.ancestry path).
Proof.
  intros H. pose proof (findParent_first callback path) as Hfirst.
  rewrite H in Hfirst. destruct Hfirst as (nearer & further & -> & _).
  apply in_or_app. right. left. reflexivity.
Qed.

(** X4.  [getFunctionScopePath] answers with a path above the given one:
    the nearest function, with no function between it and the path, when
    there is a function above; the parent otherwise.  It answers with
    [null] only for a path that has no parent. *)
Theorem getFunctionScopePath_is_above (path : NodePath) :
  (forall found,
      ScopePaths.getFunctionScopePath isFunctionType path = Some found ->
      (ScopePaths.isFunction isFunctionType found = true ->
       exists nearer further,
         Scope.ancestry path = nearer ++ found :: further
         /\ Forall (fun q => ScopePaths.isFunction isFunctionType q = false) nearer)
      /\ (ScopePaths.isFunction isFunctionType found = false ->
          parentPath path = Some found
          /\ Forall (fun q => ScopePaths.isFunction isFunctionType q = false)
                    (Scope.ancestry path)))
  /\ (ScopePaths.getFunctionScopePath isFunctionType path = None <->
      parentPath path = None).
Proof.
  unfold ScopePaths.getFunctionScopePath, ScopePaths.getFunctionParent.
  pose proof (findParent_first (ScopePaths.isFunction isFunctionType) path) as Hfirst.
  destruct (Scope.findParent (ScopePaths.isFunction isFunctionType) path)
    as [functionPath|] eqn:Hfind.
  - split.
    + intros found E. inversion E; subst found.
      destruct Hfirst as (nearer & further & Ha & Hf & Hn). split.
      * intros _. exists nearer, further. split; [exact Ha|exact Hn].
      * congruence.
    + split; [discriminate|]. intros Hnone.
      destruct path as [n [a|]]; [discriminate Hnone|discriminate Hfind].
  - split.
    + intros found Hparent. destruct path as [n [a|]]; simpl in *;
        [|discriminate Hparent].
      inversion Hparent; subst a. split.
      * intros Hf. inversion Hfirst; subst. congruence.
      * intros _. split; [reflexivity|exact Hfirst].
    + reflexivity.
Qed.

Lemma holdsAt_iff (key : string) (parent : NodePath) (n : Node) :
  ScopePaths.holdsAt key parent n = true <->
  exists held, Ast.field key (nodeOf parent) = Some held /\ ref held = ref n.
Proof.
  unfold ScopePaths.holdsAt, Ast.sameNode.
  destruct (Ast.field key (nodeOf parent)) as [held|].
  - rewrite Nat.eqb_eq. split.
    + intros H. exists held. split; [reflexivity|exact H].
    + intros (h & E & H). inversion E; subst h. exact H.
  - split; [discriminate|]. intros (h & E & _). discriminate E.
Qed.

Lemma loopHead_iff (p loop : NodePath) :
  parentPath p = Some loop ->
  Scope.isVariableDeclaration p = true ->
  (ScopePaths.isForXStatement loop && ScopePaths.holdsAt "left" loop (nodeOf p)
   || Scope.isForStatement loop && ScopePaths.holdsAt "init" loop (nodeOf p)) = true
  <-> InLoopHead p.
Proof.
  intros Hparent Hv. apply path_hasType_true in Hv.
  unfold InLoopHead, ScopePaths.isForXStatement, Scope.isForStatement.
  rewrite orb_true_iff, !andb_true_iff, orb_true_iff, !path_hasType_true,
    !holdsAt_iff.
  split.
  - intros [(Ht & held & Hf & Hr)|(Ht & held & Hf & Hr)];
      (split; [exact Hv|]); exists loop, held; (split; [exact Hparent|]);
        (split; [|exact Hr]).
    + left. split; assumption.
    + right. split; assumption.
  - intros (_ & loop' & held & Hp & Hcase & Hr).
    rewrite Hparent in Hp. inversion Hp; subst loop'.
    destruct Hcase as [(Ht & Hf)|(Ht & Hf)].
    + left. split; [exact Ht|]. exists held. split; assumption.
    + right. split; [exact Ht|]. exists held. split; assumption.
Qed.

Lemma isStatement_iff (p : NodePath) :
  ScopePaths.isStatement isStatementType p = true <->
  isStatementType (type (nodeOf p)) = true /\ ~ InLoopHead p.
Proof.
  unfold ScopePaths.isStatement.
  destruct (isStatementType (type (nodeOf p)));
    [|split; [discriminate|intros (H & _); discriminate H]].
  destruct (Scope.isVariableDeclaration p) eqn:Hv.
  - destruct (parentPath p) as [loop|] eqn:Hparent.
    + pose proof (loopHead_iff p Hparent Hv) as Hhead.
      destruct (ScopePaths.isForXStatement loop
                && ScopePaths.holdsAt "left" loop (nodeOf p)); simpl in Hhead.
      * split; [discriminate|]. intros (_ & Hnot). exfalso. apply Hnot.
        apply Hhead. reflexivity.
      * destruct (Scope.isForStatement loop
                  && ScopePaths.holdsAt "init" loop (nodeOf p)).
        -- split; [discriminate|]. intros (_ & Hnot). exfalso. apply Hnot.
           apply Hhead. reflexivity.
        -- split; [|reflexivity]. intros _. split; [reflexivity|].
           intros H. apply Hhead in H. discriminate H.
    + split; [|reflexivity]. intros _. split; [reflexivity|].
      intros (_ & loop & held & H & _). congruence.
  - split; [|reflexivity]. intros _. split; [reflexivity|].
    intros (Ht & _). apply path_hasType_true in Ht.
    unfold Scope.isVariableDeclaration in Hv. congruence.
Qed.

Lemma canHaveVariableDeclaration_iff (p : NodePath) :
  ScopePaths.canHaveVariableDeclaration isStatementType p = true <->
  CanDeclare isStatementType p.
Proof.
  unfold ScopePaths.canHaveVariableDeclaration, CanDeclare,
    ScopePaths.isSelectablePath, Ast.isSelectableNode, ScopePaths.isProgram,
    ScopePaths.isBlockStatement.
  pose proof (isStatement_iff p) as Hstatement.
  destruct (loc (nodeOf p)) as [l|].
  - destruct (Scope.hasType "Program" p) eqn:Hprogram.
    + apply path_hasType_true in Hprogram. split; [|reflexivity].
      intros _. split; [discriminate|left; exact Hprogram].
    + apply path_hasType_false in Hprogram.
      destruct (ScopePaths.isStatement isStatementType p); simpl.
      * destruct (proj1 Hstatement eq_refl) as (Hs & Hhead).
        destruct (Scope.hasType "BlockStatement" p) eqn:Hblock; simpl.
        -- apply path_hasType_true in Hblock. split; [discriminate|].
           intros (_ & [H|(_ & _ & H)]); contradiction.
        -- apply path_hasType_false in Hblock. split; [|reflexivity].
           intros _. split; [discriminate|]. right. auto.
      * split; [discriminate|].
        intros (_ & [H|(Hs & Hhead & _)]); [contradiction|].
        assert (H : false = true) by (apply Hstatement; split; assumption).
        discriminate H.
  - split; [discriminate|]. intros (H & _). contradiction.
Qed.

Lemma findAncestorFrom_first (path : NodePath) :
  match ScopePaths.findAncestorFrom isStatementType path with
  | Some found =>
    exists nearer further,
      ScopePaths.getAncestry path = nearer ++ found :: further
      /\ ScopePaths.canHaveVariableDeclaration isStatementType found = true
      /\ Forall (fun q => ScopePaths.canHaveVariableDeclaration isStatementType q
                          = false) nearer
  | None =>
    Forall (fun q => ScopePaths.canHaveVariableDeclaration isStatementType q = false)
           (ScopePaths.getAncestry path)
  end.
Proof.
  unfold ScopePaths.getAncestry.
  induction path as [n|n a IH] using NodePath_above_ind.
  - simpl.
    destruct (ScopePaths.canHaveVariableDeclaration isStatementType
                                                    (mkNodePath n None)) eqn:Hcan.
    + exists [], []. repeat split; [exact Hcan|constructor].
    + repeat constructor. exact Hcan.
  - change (ScopePaths.findAncestorFrom isStatementType (mkNodePath n (Some a)))
      with (if ScopePaths.canHaveVariableDeclaration isStatementType
                                                     (mkNodePath n (Some a))
            then Some (mkNodePath n (Some a))
            else ScopePaths.findAncestorFrom isStatementType a).
    change (Scope.ancestry (mkNodePath n (Some a))) with (a :: Scope.ancestry a).
    destruct (ScopePaths.canHaveVariableDeclaration isStatementType
                                                    (mkNodePath n (Some a))) eqn:Hcan.
    + exists [], (a :: Scope.ancestry a). repeat split; [exact Hcan|constructor].
    + destruct (ScopePaths.findAncestorFrom isStatementType a) as [found|].
      * destruct IH as (nearer & further & Ha & Hf & Hn).
        exists (mkNodePath n (Some a) :: nearer), further.
        rewrite Ha. repeat split; [exact Hf|constructor; assumption].
      * constructor; assumption.
Qed.

(** X5.  [findAncestorThatCanHaveVariableDeclaration] starts at the path
    itself, not above it: it answers with the first path, among the given
    one and those above it, that has a range and is the program or a
    statement other than a block; [null] when there is no such path, and
    for [null]. *)
Theorem findAncestorThatCanHaveVariableDeclaration_nearest (path : NodePath) :
  match ScopePaths.findAncestorThatCanHaveVariableDeclaration
          isStatementType (Some path)
  with
  | Some found =>
    exists nearer further,
      path :: Scope.ancestry path = nearer ++ found :: further
      /\ CanDeclare isStatementType found
      /\ Forall (fun q => ~ CanDeclare isStatementType q) nearer
  | None =>
    Forall (fun q => ~ CanDeclare isStatementType q) (path :: Scope.ancestry path)
  end
  /\ ScopePaths.findAncestorThatCanHaveVariableDeclaration isStatementType None
     = None.
Proof.
  split; [|reflexivity].
  assert (Hno : forall l,
             Forall (fun q => ScopePaths.canHaveVariableDeclaration isStatementType q
                              = false) l ->
             Forall (fun q => ~ CanDeclare isStatementType q) l).
  { intros l Hl. eapply Forall_impl; [|exact Hl]. intros q Hq Hc.
    apply canHaveVariableDeclaration_iff in Hc. congruence. }
  pose proof (findAncestorFrom_first path) as H.
  unfold ScopePaths.findAncestorThatCanHaveVariableDeclaration.
  destruct (ScopePaths.findAncestorFrom isStatementType path) as [found|].
  - destruct H as (nearer & further & Ha & Hf & Hn).
    exists nearer, further. split; [exact Ha|]. split.
    + apply canHaveVariableDeclaration_iff. exact Hf.
    + apply Hno. exact Hn.
  - apply Hno. exact H.
Qed.

Lemma last_cons_cons {A : Type} (x y : A) (l : list A) :
  Ast.last (x :: y :: l) = Ast.last (y :: l).
Proof. unfold Ast.last. simpl. rewrite !Nat.sub_0_r. reflexivity. Qed.

Lemma getProgramPath_top (path : NodePath) :
  parentPath (ScopePaths.getProgramPath path) = None
  /\ In (ScopePaths.getProgramPath path) (ScopePaths.getAncestry path).
Proof.
  unfold ScopePaths.getProgramPath, ScopePaths.getAncestry.
  induction path as [n|n a IH] using NodePath_above_ind.
  - simpl. split; [reflexivity|left; reflexivity].
  - change (Scope.ancestry (mkNodePath n (Some a))) with (a :: Scope.ancestry a).
    rewrite last_cons_cons. destruct IH as (Hp & Hin).
    destruct (last_some_of_app [] (Scope.ancestry a) a) as (top & Htop).
    change ([] ++ a :: Scope.ancestry a) with (a :: Scope.ancestry a) in Htop.
    rewrite Htop in *.
    split; [exact Hp|right; exact Hin].
Qed.

Section WithCommonAncestor.

Variable getEarliestCommonAncestorFrom :
  NodePath -> list NodePath -> Completion (option NodePath).

(** X6.  [findCommonAncestorToDeclareVariable] catches what the search for
    the common ancestor throws and then looks at the topmost path above
    the given one: it answers with that path if a variable can be declared
    there, and with [null] if not.  When the search returns a path, the
    answer is the nearest path, from that one upwards, where a variable
    can be declared, or [null] when there is none.  The function throws
    itself exactly when the search returns [undefined]. *)
Theorem findCommonAncestorToDeclareVariable_falls_back
        (path : NodePath) (otherPaths : list NodePath) :
  let result :=
      ScopePaths.findCommonAncestorToDeclareVariable
        isStatementType getEarliestCommonAncestorFrom path otherPaths in
  (result = Threw <-> getEarliestCommonAncestorFrom path otherPaths = Normal None)
  /\ (forall ancestor,
         getEarliestCommonAncestorFrom path otherPaths = Normal (Some ancestor) ->
         (forall found,
             result = Normal (Some found) ->
             exists nearer further,
               ancestor :: Scope.ancestry ancestor = nearer ++ found :: further
               /\ CanDeclare isStatementType found
               /\ Forall (fun q => ~ CanDeclare isStatementType q) nearer)
         /\ (result = Normal None ->
             Forall (fun q => ~ CanDeclare isStatementType q)
                    (ancestor :: Scope.ancestry ancestor))
         /\ result <> Threw)
  /\ (getEarliestCommonAncestorFrom path otherPaths = Threw ->
      let top := ScopePaths.getProgramPath path in
      parentPath top = None
      /\ In top (path :: Scope.ancestry path)
      /\ (CanDeclare isStatementType top -> result = Normal (Some top))
      /\ (~ CanDeclare isStatementType top -> result = Normal None)).
Proof.
  cbv zeta. unfold ScopePaths.findCommonAncestorToDeclareVariable,
              ScopePaths.findAncestorThatCanHaveVariableDeclaration.
  assert (Hno : forall l,
             Forall (fun q => ScopePaths.canHaveVariableDeclaration isStatementType q
                              = false) l ->
             Forall (fun q => ~ CanDeclare isStatementType q) l).
  { intros l Hl. eapply Forall_impl; [|exact Hl]. intros q Hq Hc.
    apply canHaveVariableDeclaration_iff in Hc. congruence. }
  split; [|split].
  - destruct (getEarliestCommonAncestorFrom path otherPaths) as [[found|]|];
      split; intros H; try discriminate H; reflexivity.
  - intros ancestor ->. pose proof (findAncestorFrom_first ancestor) as H.
    unfold ScopePaths.getAncestry in H.
    destruct (ScopePaths.findAncestorFrom isStatementType ancestor) as [found|].
    + split; [|split; discriminate].
      intros found' E. inversion E; subst found'.
      destruct H as (nearer & further & Ha & Hf & Hn).
      exists nearer, further. split; [exact Ha|]. split.
      * apply canHaveVariableDeclaration_iff. exact Hf.
      * apply Hno. exact Hn.
    + split; [discriminate|]. split; [|discriminate].
      intros _. apply Hno. exact H.
  - intros ->. destruct (getProgramPath_top path) as (Htop & Hin).
    split; [exact Htop|]. split; [exact Hin|].
    pose proof (canHaveVariableDeclaration_iff (ScopePaths.getProgramPath path))
      as Hcan.
    destruct (ScopePaths.getProgramPath path) as [n [a|]] eqn:Hprogram;
      [discriminate Htop|].
    simpl.
    destruct (ScopePaths.canHaveVariableDeclaration isStatementType
                                                    (mkNodePath n None)).
    + split; [reflexivity|]. intros Hnot. exfalso. apply Hnot, Hcan. reflexivity.
    + split; [|reflexivity]. intros Hc. apply Hcan in Hc. discriminate Hc.
Qed.

End WithCommonAncestor.

End ScopePathsProperties.

Section GetNamesProperties.

(** [getNames] in terms of the fields of the node. *)
Lemma eachAt_fieldList {B : Type} (key : string) (f : Node -> list B) (n : Node) :
  ScopePaths.eachAt key f (children n) = flat_map f (Ast.fieldList key n).
Proof.
  unfold Ast.fieldList. induction (children n) as [|(k, c) cs IH]; simpl.
  - reflexivity.
  - rewrite IH. destruct (String.eqb k key); reflexivity.
Qed.

Lemma firstAt_field {B : Type} (key : string) (f : Node -> list B) (n : Node) :
  ScopePaths.firstAt key f (children n)
  = match Ast.field key n with
    | Some c => f c
    | None => []
    end.
Proof.
  unfold Ast.field, Ast.fieldList. induction (children n) as [|(k, c) cs IH]; simpl.
  - reflexivity.
  - destruct (String.eqb k key); simpl; [reflexivity|exact IH].
Qed.

Lemma eachAt_In {B : Type} (key : string) (f : Node -> list B)
      (cs : list (string * Node)) (b : B) :
  In b (ScopePaths.eachAt key f cs) ->
  exists c, In (key, c) cs /\ In b (f c).
Proof.
  induction cs as [|(k, c) cs IH]; simpl; [intros []|].
  intros H. apply in_app_or in H. destruct H as [H|H].
  - destruct (String.eqb k key) eqn:E; [|destruct H].
    apply String.eqb_eq in E. subst k. exists c. split; [left; reflexivity|exact H].
  - destruct (IH H) as (c' & Hin & Hb). exists c'. split; [right; exact Hin|exact Hb].
Qed.

Lemma firstAt_In {B : Type} (key : string) (f : Node -> list B)
      (cs : list (string * Node)) (b : B) :
  In b (ScopePaths.firstAt key f cs) ->
  exists c, In (key, c) cs /\ In b (f c).
Proof.
  induction cs as [|(k, c) cs IH]; simpl; [intros []|].
  destruct (String.eqb k key) eqn:E.
  - apply String.eqb_eq in E. subst k. intros H.
    exists c. split; [left; reflexivity|exact H].
  - intros H. destruct (IH H) as (c' & Hin & Hb).
    exists c'. split; [right; exact Hin|exact Hb].
Qed.

Lemma getNames_from_identifiers (n : Node) :
  forall ancestors nm,
    In nm (ScopePaths.getNames n) ->
    exists m above,
      In (m, above) (Ast.visitsFrom ancestors n)
      /\ Ast.isIdentifier m = true
      /\ name m = nm.
Proof.
  induction n as [r t l nme sh cp cs IH] using Node_tree_ind.
  intros ancestors nm. set (n := mkNode r t l nme sh cp cs).
  assert (Hchild : forall key c,
             In (key, c) cs -> In nm (ScopePaths.getNames c) ->
             exists m above,
               In (m, above) (Ast.visitsFrom ancestors n)
               /\ Ast.isIdentifier m = true /\ name m = nm).
  { intros key c Hin Hnm. rewrite Forall_forall in IH.
    destruct (IH (key, c) Hin (ancestors ++ [Ast.mkAncestor n key]) nm Hnm)
      as (m & above & Hv & Hi & Hn).
    exists m, above. split; [|split; assumption].
    simpl. right. apply in_flat_map. exists (key, c). split; assumption. }
  change (ScopePaths.getNames n)
    with (if ScopePaths.isArrayPattern n
          then ScopePaths.eachAt "elements" ScopePaths.getNames cs
          else if ScopePaths.isAssignmentPattern n
          then ScopePaths.firstAt "left" ScopePaths.getNames cs
          else if Ast.isIdentifier n then [name n]
          else if ScopePaths.isRestElement n
          then ScopePaths.firstAt "argument" ScopePaths.getNames cs
          else if ScopePaths.isObjectPattern n
          then ScopePaths.eachAt "properties" ScopePaths.getNames cs
          else if Ast.isObjectProperty n
          then ScopePaths.firstAt "key" ScopePaths.getNames cs
          else []).
  destruct (ScopePaths.isArrayPattern n).
  { intros H. apply eachAt_In in H. destruct H as (c & Hin & Hnm).
    apply (Hchild _ _ Hin Hnm). }
  destruct (ScopePaths.isAssignmentPattern n).
  { intros H. apply firstAt_In in H. destruct H as (c & Hin & Hnm).
    apply (Hchild _ _ Hin Hnm). }
  destruct (Ast.isIdentifier n) eqn:Hid.
  { intros [<-|[]]. exists n, ancestors. split; [left; reflexivity|].
    split; [exact Hid|reflexivity]. }
  destruct (ScopePaths.isRestElement n).
  { intros H. apply firstAt_In in H. destruct H as (c & Hin & Hnm).
    apply (Hchild _ _ Hin Hnm). }
  destruct (ScopePaths.isObjectPattern n).
  { intros H. apply eachAt_In in H. destruct H as (c & Hin & Hnm).
    apply (Hchild _ _ Hin Hnm). }
  destruct (Ast.isObjectProperty n).
  { intros H. apply firstAt_In in H. destruct H as (c & Hin & Hnm).
    apply (Hchild _ _ Hin Hnm). }
  intros [].
Qed.

(** X7.  Every name [getNames] returns is the name of an identifier of
    the tree it is given; a node that is neither a pattern, an identifier
    nor an object property has no names. *)
Theorem getNames_are_identifier_names (n : Node) :
  (forall nm,
      In nm (ScopePaths.getNames n) ->
      exists m ancestors,
        In (m, ancestors) (Ast.visits n)
        /\ Ast.isIdentifier m = true
        /\ name m = nm)
  /\ (~ In (type n) ["ArrayPattern"; "AssignmentPattern"; "Identifier";
                     "RestElement"; "ObjectPattern"; "ObjectProperty"] ->
      ScopePaths.getNames n = []).
Proof.
  split.
  - intros nm H. apply (getNames_from_identifiers n [] nm H).
  - intros Hnot. destruct n as [r t l nme sh cp cs]. simpl in Hnot.
    unfold ScopePaths.getNames, ScopePaths.isArrayPattern,
      ScopePaths.isAssignmentPattern, Ast.isIdentifier, ScopePaths.isRestElement,
      ScopePaths.isObjectPattern, Ast.isObjectProperty, Ast.hasType. simpl.
    repeat match goal with
           | |- context [String.eqb t ?s] =>
             destruct (String.eqb_spec t s) as [->|_]; [exfalso; tauto|]
           end.
    reflexivity.
Qed.

Lemma eachAt_dropAt (key k : string) (cs : list (string * Node)) :
  k <> key ->
  Forall (fun kc : string * Node =>
            ScopePaths.getNames (ScopePaths.without key (snd kc))
            = ScopePaths.getNames (snd kc)) cs ->
  ScopePaths.eachAt k ScopePaths.getNames
                    (ScopePaths.dropAt key (ScopePaths.without key) cs)
  = ScopePaths.eachAt k ScopePaths.getNames cs.
Proof.
  intros Hk Hall. induction Hall as [|(k0, c) cs Hc _ IH]; simpl; [reflexivity|].
  destruct (String.eqb k0 key) eqn:E0.
  - apply String.eqb_eq in E0. subst k0.
    destruct (String.eqb key k) eqn:E; [apply String.eqb_eq in E; congruence|].
    exact IH.
  - simpl. simpl in Hc. rewrite Hc, IH. reflexivity.
Qed.

Lemma firstAt_dropAt (key k : string) (cs : list (string * Node)) :
  k <> key ->
  Forall (fun kc : string * Node =>
            ScopePaths.getNames (ScopePaths.without key (snd kc))
            = ScopePaths.getNames (snd kc)) cs ->
  ScopePaths.firstAt k ScopePaths.getNames
                     (ScopePaths.dropAt key (ScopePaths.without key) cs)
  = ScopePaths.firstAt k ScopePaths.getNames cs.
Proof.
  intros Hk Hall. induction Hall as [|(k0, c) cs Hc _ IH]; simpl; [reflexivity|].
  destruct (String.eqb k0 key) eqn:E0.
  - apply String.eqb_eq in E0. subst k0.
    destruct (String.eqb key k) eqn:E; [apply String.eqb_eq in E; congruence|].
    exact IH.
  - simpl. simpl in Hc. rewrite Hc, IH. reflexivity.
Qed.

(** X8.  [getNames] only goes through [elements], [left], [argument],
    [properties] and [key]: what a tree holds under any other key, at any
    depth, changes nothing.  So the value of a property of an object
    pattern is never looked at, nor a default value, nor a type
    annotation. *)
Theorem getNames_ignores_other_keys (key : string) (n : Node) :
  ~ In key ScopePaths.patternKeys ->
  ScopePaths.getNames (ScopePaths.without key n) = ScopePaths.getNames n.
Proof.
  intros Hkey. unfold ScopePaths.patternKeys in Hkey. simpl in Hkey.
  induction n as [r t l nme sh cp cs IH] using Node_tree_ind.
  set (n := mkNode r t l nme sh cp cs).
  change (ScopePaths.getNames (ScopePaths.without key n))
    with (let cs' := ScopePaths.dropAt key (ScopePaths.without key) cs in
          if ScopePaths.isArrayPattern n
          then ScopePaths.eachAt "elements" ScopePaths.getNames cs'
          else if ScopePaths.isAssignmentPattern n
          then ScopePaths.firstAt "left" ScopePaths.getNames cs'
          else if Ast.isIdentifier n then [name n]
          else if ScopePaths.isRestElement n
          then ScopePaths.firstAt "argument" ScopePaths.getNames cs'
          else if ScopePaths.isObjectPattern n
          then ScopePaths.eachAt "properties" ScopePaths.getNames cs'
          else if Ast.isObjectProperty n
          then ScopePaths.firstAt "key" ScopePaths.getNames cs'
          else []).
  change (ScopePaths.getNames n)
    with (if ScopePaths.isArrayPattern n
          then ScopePaths.eachAt "elements" ScopePaths.getNames cs
          else if ScopePaths.isAssignmentPattern n
          then ScopePaths.firstAt "left" ScopePaths.getNames cs
          else if Ast.isIdentifier n then [name n]
          else if ScopePaths.isRestElement n
          then ScopePaths.firstAt "argument" ScopePaths.getNames cs
          else if ScopePaths.isObjectPattern n
          then ScopePaths.eachAt "properties" ScopePaths.getNames cs
          else if Ast.isObjectProperty n
          then ScopePaths.firstAt "key" ScopePaths.getNames cs
          else []).
  cbv zeta.
  rewrite !eachAt_dropAt, !firstAt_dropAt by (assumption || (intros E; tauto)).
  reflexivity.
Qed.

End GetNamesProperties.

(* ===================================================================== *)
(** ** Further properties: the code-action provider *)
(* ===================================================================== *)

Section ProviderMatchProperties.

Import ActionProvider.

Lemma mapSet_In {V : Type} (k : string) (v : V) (m : list (string * V))
      (kv : string * V) :
  In kv (mapSet k v m) -> kv = (k, v) \/ In kv m.
Proof.
  induction m as [|(k0, v0) m IH]; simpl.
  - intros [H|[]]. left. symmetry. exact H.
  - destruct (String.eqb k0 k); simpl.
    + intros [H|H]; [left; symmetry; exact H|right; right; exact H].
    + intros [H|H]; [right; left; exact H|].
      destruct (IH H) as [E|Hin]; [left; exact E|right; right; exact Hin].
Qed.

(** The loop over a list, knowing that each step is for an element of the
    list. *)
Lemma foldM_invariant_In {S A : Type} (P : S -> Prop)
      (f : S -> A -> Completion S) (l : list A) :
  (forall s a s', In a l -> P s -> f s a = Normal s' -> P s') ->
  forall s s', P s -> foldM f l s = Normal s' -> P s'.
Proof.
  unfold foldM. induction l as [|a l IH]; intros Hstep s s' Hs; simpl.
  - intros E. inversion E; subst. exact Hs.
  - destruct (f s a) as [s1|] eqn:Hf.
    + apply IH.
      * intros s0 b s0' Hb. apply Hstep. right. exact Hb.
      * apply (Hstep s a s1); [left; reflexivity|exact Hs|exact Hf].
    + rewrite foldM_threw. discriminate.
Qed.

(** What one step establishes and every step keeps, the loop ends with. *)
Lemma foldM_reaches {S A : Type} (Q : S -> Prop)
      (f : S -> A -> Completion S) (l : list A) (a : A) :
  In a l ->
  (forall s s', f s a = Normal s' -> Q s') ->
  (forall s b s', Q s -> f s b = Normal s' -> Q s') ->
  forall s s', foldM f l s = Normal s' -> Q s'.
Proof.
  intros Hin Hhit Hkeep. induction l as [|b l IH]; [destruct Hin|].
  intros s s'. unfold foldM. simpl.
  destruct (f s b) as [s1|] eqn:Hf; [|rewrite foldM_threw; discriminate].
  destruct Hin as [->|Hin].
  - apply (foldM_invariant Q f Hkeep l). apply (Hhit _ _ Hf).
  - apply (IH Hin).
Qed.

Lemma check_Justified (host : Host) (refactorings : list Refactoring)
      (ast : Node) (selection : Selection) (path : NodeAndParent)
      (state state' : list (string * Refactoring) * Control) (r : Refactoring) :
  In r refactorings ->
  shouldShowInQuickFix host (key (command r)) = true ->
  In path (InlineVariable.pathsBelow ast) ->
  Forall (fun kr => Justified host refactorings ast selection (snd kr)) (fst state) ->
  check selection path state r = Normal state' ->
  Forall (fun kr => Justified host refactorings ast selection (snd kr)) (fst state').
Proof.
  intros Hr Hshown Hpath Hm. unfold check.
  destruct (visit (createVisitor (actionProvider r) selection) path)
    as [visited|] eqn:Hvisit; simpl; [|discriminate].
  intros E. inversion E; subst state'. clear E. simpl.
  assert (Hsub : forall sub,
             (forall vp, In vp sub -> In vp (matches visited)) ->
             forall m0,
               Forall (fun kr => Justified host refactorings ast selection (snd kr)) m0 ->
               Forall (fun kr => Justified host refactorings ast selection (snd kr))
                      (fold_left (onMatch r) sub m0)).
  { induction sub as [|vp sub IH]; intros Hin m0 Hm0; simpl; [exact Hm0|].
    apply IH; [intros vp' H; apply Hin; right; exact H|].
    apply Forall_forall. intros kr Hkr. unfold onMatch in Hkr.
    apply mapSet_In in Hkr. destruct Hkr as [->|Hkr].
    - simpl. exists r, path, vp. repeat split; try assumption.
      + exists visited. split; [exact Hvisit|apply Hin; left; reflexivity].
      + destruct (updateMessage (actionProvider r)); reflexivity.
      + destruct (updateMessage (actionProvider r)); reflexivity.
    - rewrite Forall_forall in Hm0. apply Hm0. exact Hkr. }
  apply Hsub; [auto|exact Hm].
Qed.

(** X9.  Every refactoring [findApplicableRefactorings] returns comes from
    a refactoring of the provider that is shown in the quick fixes and
    whose visitor matched at some path of the tree; it has the command and
    the preference of that refactoring, and as its message the one
    [updateMessage] gives for a path that matched, or the configured one
    when the refactoring has no [updateMessage]. *)
Theorem findApplicableRefactorings_are_matches
        (host : Host) (refactorings : list Refactoring) (ast : Node)
        (selection : Selection) (applicable : list Refactoring) :
  findApplicableRefactorings host refactorings ast selection = Normal applicable ->
  Forall (Justified host refactorings ast selection) applicable.
Proof.
  intros H. apply findApplicableRefactorings_walk in H.
  destruct H as (w & Hwalk & ->).
  assert (Hm : Forall (fun kr => Justified host refactorings ast selection (snd kr))
                      (fst w)).
  { revert Hwalk.
    apply traverseBelow_invariant
      with (P := Forall (fun kr => Justified host refactorings ast selection (snd kr)))
           (Q := fun path => In path (InlineVariable.pathsBelow ast));
      [|auto|constructor].
    intros s path s' c Hpath Hs Hcheck. unfold checkAll in Hcheck.
    change s' with (fst (s', c)). revert Hcheck.
    apply foldM_invariant_In
      with (P := fun state =>
                   Forall (fun kr => Justified host refactorings ast selection (snd kr))
                          (fst state));
      [|exact Hs].
    intros s0 r s1 Hr Hs0. apply filter_In in Hr. destruct Hr as (Hr & Hshown).
    intros Hc. eapply check_Justified; eassumption. }
  unfold mapValues. apply Forall_forall. intros applied Hin.
  apply in_map_iff in Hin. destruct Hin as (kr & <- & Hkr).
  rewrite Forall_forall in Hm. apply Hm. exact Hkr.
Qed.

Lemma onMatch_keys (r : Refactoring) (m : list (string * Refactoring))
      (vp : NodeAndParent) (k : string) :
  In k (map fst (onMatch r m vp)) <-> k = key (command r) \/ In k (map fst m).
Proof. unfold onMatch. apply mapSet_keys. Qed.

Lemma fold_onMatch_keeps (r : Refactoring) (matched : list NodeAndParent) (k : string) :
  forall m, In k (map fst m) -> In k (map fst (fold_left (onMatch r) matched m)).
Proof.
  induction matched as [|vp matched IH]; intros m Hk; simpl; [exact Hk|].
  apply IH. apply onMatch_keys. right. exact Hk.
Qed.

Lemma check_keeps (selection : Selection) (path : NodeAndParent)
      (state state' : list (string * Refactoring) * Control) (r : Refactoring)
      (k : string) :
  In k (map fst (fst state)) ->
  check selection path state r = Normal state' ->
  In k (map fst (fst state')).
Proof.
  intros Hk. unfold check.
  destruct (visit (createVisitor (actionProvider r) selection) path)
    as [visited|]; simpl; [|discriminate].
  intros E. inversion E. simpl. apply fold_onMatch_keeps. exact Hk.
Qed.

Lemma check_adds (selection : Selection) (path visitedPath : NodeAndParent)
      (state state' : list (string * Refactoring) * Control) (r : Refactoring) :
  MatchesAt selection r path visitedPath ->
  check selection path state r = Normal state' ->
  In (key (command r)) (map fst (fst state')).
Proof.
  intros (visited & Hvisit & Hin). unfold check. rewrite Hvisit. simpl.
  intros E. inversion E. simpl.
  destruct (matches visited) as [|vp matched]; [destruct Hin|].
  simpl. apply fold_onMatch_keeps. apply onMatch_keys. left. reflexivity.
Qed.

Lemma foldM_cons {S A : Type} (f : S -> A -> Completion S) (a : A) (l : list A)
      (s : S) :
  foldM f (a :: l) s = (s1 <- f s a ;; foldM f l s1).
Proof.
  unfold foldM. simpl. destruct (f s a); simpl; [reflexivity|apply foldM_threw].
Qed.

Lemma foldM_app {S A : Type} (f : S -> A -> Completion S) (l1 l2 : list A) :
  forall s, foldM f (l1 ++ l2) s = (s1 <- foldM f l1 s ;; foldM f l2 s1).
Proof.
  induction l1 as [|a l1 IH]; intros s; [reflexivity|].
  change ((a :: l1) ++ l2) with (a :: (l1 ++ l2)). rewrite !foldM_cons.
  destruct (f s a) as [s1|]; simpl; [apply IH|reflexivity].
Qed.

Lemma fold_enterChild_every_path {S : Type}
      (enter : S -> NodeAndParent -> Completion (S * Control)) (parent : Node) :
  forall cs,
    Forall (fun kc : string * Node =>
              (forall s s' c,
                  enter s (mkNodeAndParent (snd kc) parent) = Normal (s', c) ->
                  c = Continue)
              /\ forall s,
                  traverseBelow enter (snd kc) (Normal (s, false))
                  = (s' <- foldM (entering enter)
                                 (InlineVariable.pathsBelow (snd kc)) s ;;
                     Normal (s', false)))
           cs ->
    forall s,
      fold_left (enterChild (traverseBelow enter) enter parent) cs (Normal (s, false))
      = (s' <- foldM (entering enter)
                     (flat_map (fun kc : string * Node =>
                                  mkNodeAndParent (snd kc) parent
                                    :: InlineVariable.pathsBelow (snd kc))
                               cs)
                     s ;;
         Normal (s', false)).
Proof.
  intros cs Hcs.
  induction Hcs as [|kc cs (Hc & Hkc) _ IH]; intros s; [reflexivity|].
  cbn [fold_left flat_map]. rewrite enterChild_cases.
  change ((mkNodeAndParent (snd kc) parent :: InlineVariable.pathsBelow (snd kc))
            ++ flat_map (fun kc0 : string * Node =>
                           mkNodeAndParent (snd kc0) parent
                             :: InlineVariable.pathsBelow (snd kc0)) cs)
    with (mkNodeAndParent (snd kc) parent
            :: (InlineVariable.pathsBelow (snd kc)
                  ++ flat_map (fun kc0 : string * Node =>
                                 mkNodeAndParent (snd kc0) parent
                                   :: InlineVariable.pathsBelow (snd kc0)) cs)).
  rewrite foldM_cons. unfold entering at 1.
  destruct (enter s (mkNodeAndParent (snd kc) parent)) as [(s1, c)|] eqn:He.
  - rewrite (Hc _ _ _ He). cbn [bind fst]. rewrite Hkc, foldM_app.
    destruct (foldM (entering enter) (InlineVariable.pathsBelow (snd kc)) s1)
      as [s2|]; cbn [bind].
    + apply IH.
    + apply fold_enterChild_threw.
  - cbn [bind]. apply fold_enterChild_threw.
Qed.

(** When the callback neither skips nor stops a path, the walk enters
    every path below the root, in order. *)
Lemma traverseBelow_every_path {S : Type}
      (enter : S -> NodeAndParent -> Completion (S * Control)) (parent : Node) :
  (forall s path s' c,
      In path (InlineVariable.pathsBelow parent) ->
      enter s path = Normal (s', c) ->
      c = Continue) ->
  forall s,
    traverseBelow enter parent (Normal (s, false))
    = (s' <- foldM (entering enter) (InlineVariable.pathsBelow parent) s ;;
       Normal (s', false)).
Proof.
  induction parent as [r t l nm sh cp cs IH] using Node_tree_ind.
  intros Hcontinue s. rewrite traverseBelow_eq.
  apply (fold_enterChild_every_path enter (mkNode r t l nm sh cp cs)).
  apply Forall_forall. intros kc Hin. rewrite Forall_forall in IH. split.
  - intros s0 s' c. apply Hcontinue. simpl. apply in_flat_map.
    exists kc. split; [exact Hin|left; reflexivity].
  - apply (IH kc Hin). intros s0 path s' c Hpath. apply Hcontinue. simpl.
    apply in_flat_map. exists kc. split; [exact Hin|right; exact Hpath].
Qed.

Lemma checkAll_continues (host : Host) (refactorings : list Refactoring)
      (ast : Node) (selection : Selection) :
  NoneSkipsOrStops host refactorings ast selection ->
  forall m path m' c,
    In path (InlineVariable.pathsBelow ast) ->
    checkAll selection
             (filter (fun r => shouldShowInQuickFix host (key (command r)))
                     refactorings)
             m path = Normal (m', c) ->
    c = Continue.
Proof.
  intros Hnone m path m' c Hpath Hcheck. unfold checkAll in Hcheck.
  change c with (snd (m', c)). revert Hcheck.
  apply foldM_invariant_In with (P := fun state => snd state = Continue);
    [|reflexivity].
  intros state r state' Hr Hstate. apply filter_In in Hr.
  destruct Hr as (Hr & Hshown). unfold check.
  destruct (visit (createVisitor (actionProvider r) selection) path)
    as [visited|] eqn:Hvisit; simpl; [|discriminate].
  intros E. inversion E. simpl.
  rewrite Hstate, (Hnone r path visited Hr Hshown Hpath Hvisit). reflexivity.
Qed.

(** X10.  When checking the refactorings does not throw and no visitor
    skips or stops a path, no match is lost: a refactoring of the provider
    that is shown in the quick fixes and whose visitor matches at some
    path of the tree has its command key among the refactorings
    returned. *)
Theorem findApplicableRefactorings_keeps_every_match
        (host : Host) (refactorings : list Refactoring) (ast : Node)
        (selection : Selection) (applicable : list Refactoring)
        (r : Refactoring) (path visitedPath : NodeAndParent) :
  findApplicableRefactorings host refactorings ast selection = Normal applicable ->
  NoneSkipsOrStops host refactorings ast selection ->
  In r refactorings ->
  shouldShowInQuickFix host (key (command r)) = true ->
  In path (InlineVariable.pathsBelow ast) ->
  MatchesAt selection r path visitedPath ->
  exists applied,
    In applied applicable /\ key (command applied) = key (command r).
Proof.
  intros H Hnone Hr Hshown Hpath Hmatch.
  apply findApplicableRefactorings_walk in H. destruct H as (w & Hwalk & ->).
  set (rs := filter (fun r => shouldShowInQuickFix host (key (command r)))
                    refactorings) in *.
  assert (Hrs : In r rs) by (apply filter_In; split; assumption).
  pose proof (walk_KeyedOnce _ _ _ Hwalk) as Hkeyed.
  rewrite (traverseBelow_every_path (checkAll selection rs) ast) in Hwalk.
  2:{ intros s p s' c Hp. apply (checkAll_continues Hnone _ _ Hp). }
  destruct (foldM (entering (checkAll selection rs))
                  (InlineVariable.pathsBelow ast) [])
    as [m|] eqn:Hfold; [|discriminate Hwalk].
  cbn [bind] in Hwalk. inversion Hwalk; subst w. clear Hwalk. simpl in *.
  assert (Hkeeps : forall s p s',
             In (key (command r)) (map fst s) ->
             entering (checkAll selection rs) s p = Normal s' ->
             In (key (command r)) (map fst s')).
  { intros s p s' Hk. unfold entering, checkAll.
    destruct (foldM (check selection p) rs (s, Continue)) as [state|] eqn:Hc;
      [|discriminate].
    cbn [bind]. intros E. inversion E; subst s'. revert Hc.
    apply foldM_invariant
      with (P := fun state => In (key (command r)) (map fst (fst state)));
      [|exact Hk].
    intros s0 r0 s1 Hk0. apply check_keeps. exact Hk0. }
  assert (Hkey : In (key (command r)) (map fst m)).
  { revert Hfold.
    apply (foldM_reaches (fun m => In (key (command r)) (map fst m)) _ _ path Hpath).
    - intros s s'. unfold entering, checkAll.
      destruct (foldM (check selection path) rs (s, Continue)) as [state|] eqn:Hc;
        [|discriminate].
      cbn [bind]. intros E. inversion E; subst s'. revert Hc.
      apply (foldM_reaches
               (fun state => In (key (command r)) (map fst (fst state))) _ _ r Hrs).
      + intros s0 s1. apply (check_adds _ Hmatch).
      + intros s0 r0 s1 Hk. apply check_keeps. exact Hk.
    - exact Hkeeps. }
  apply in_map_iff in Hkey. destruct Hkey as (kr & Hfst & Hkr).
  exists (snd kr). split.
  - unfold mapValues. apply in_map. exact Hkr.
  - destruct Hkeyed as (_ & Hall). rewrite Forall_forall in Hall.
    rewrite (Hall kr Hkr). exact Hfst.
Qed.

End ProviderMatchProperties.

(* ===================================================================== *)
(** ** Further properties: inline variable *)
(* ===================================================================== *)

Section FoundProperties.

Context {helpers : AstHelpers} {selections : SelectionOps}.

Lemma inlinableIdentifierOf_parts (declaration parent : Node) (c : InlinableCode) :
  InlineVariable.inlinableIdentifierOf declaration parent = Some c ->
  exists init initLoc,
    Ast.field "id" declaration = Some (declaredId c)
    /\ Ast.isSelectableIdentifier (declaredId c) = true
    /\ Ast.field "init" declaration = Some init
    /\ loc init = Some initLoc
    /\ declaringScope c = parent
    /\ InlineVariable.selection c = Sel.fromAST initLoc.
Proof.
  unfold InlineVariable.inlinableIdentifierOf.
  destruct (Ast.field "id" declaration) as [id|]; [|discriminate].
  destruct (Ast.field "init" declaration) as [init|]; [|discriminate].
  destruct (Ast.isSelectableIdentifier id) eqn:Hid; [|discriminate]. simpl.
  destruct (loc init) as [initLoc|] eqn:Hinit; [|discriminate].
  intros E. inversion E; subst c. simpl.
  exists init, initLoc. repeat split; assumption.
Qed.

Lemma selectableDeclarations_In (n : Node) (d : Node * SourceLocation) :
  In d (InlineVariable.selectableDeclarations n) ->
  In (fst d) (Ast.fieldList "declarations" n) /\ loc (fst d) = Some (snd d).
Proof.
  unfold InlineVariable.selectableDeclarations. intros H.
  apply in_flat_map in H. destruct H as (x & Hx & Hd).
  destruct (Ast.isSelectableVariableDeclarator x); [|destruct Hd].
  destruct (loc x) as [l|] eqn:Hl; [|destruct Hd].
  destruct Hd as [<-|[]]. simpl. split; assumption.
Qed.

(** What [enter] assigns is built from one declarator of the node it is
    on. *)
Lemma enter_parts (selection : Selection) (path : NodeAndParent) (c : InlinableCode) :
  InlineVariable.enter selection None path = Some c ->
  Ast.isVariableDeclaration (path_node path) = true
  /\ exists declaration leaf,
      In declaration (InlineVariable.selectableDeclarations (path_node path))
      /\ InlineVariable.inlinableIdentifierOf (fst declaration) (path_parent path)
         = Some leaf
      /\ (c = leaf \/ exists locs, c = InlinableDeclarations leaf locs).
Proof.
  unfold InlineVariable.enter.
  destruct (Ast.isVariableDeclaration (path_node path)); [|discriminate]. simpl.
  destruct (negb (Ast.isInsideNode selection (path_node path))); [discriminate|].
  intros H. split; [reflexivity|]. revert H.
  set (declarations := InlineVariable.selectableDeclarations (path_node path)).
  assert (Hmany :
            fold_left
              (InlineVariable.eachDeclaration selection (path_parent path) declarations)
              (InlineVariable.indexed declarations) None = Some c ->
            exists declaration leaf,
              In declaration declarations
              /\ InlineVariable.inlinableIdentifierOf
                   (fst declaration) (path_parent path) = Some leaf
              /\ (c = leaf \/ exists locs, c = InlinableDeclarations leaf locs)).
  { rewrite (fold_last_writer
               (InlineVariable.eachDeclaration selection (path_parent path)
                                               declarations None)
               (InlineVariable.eachDeclaration selection (path_parent path)
                                               declarations)
               (eachDeclaration_result selection (path_parent path) declarations)).
    destruct (Ast.last _) as [c'|] eqn:Hlast; [|discriminate].
    intros E. inversion E; subst c'. apply last_In in Hlast.
    apply in_flat_map in Hlast. destruct Hlast as ((index & declaration) & Hin & Hc).
    apply indexed_In in Hin. apply nth_error_In in Hin.
    unfold InlineVariable.eachDeclaration in Hc.
    destruct (negb (Ast.isInsideNode selection (fst declaration))); [destruct Hc|].
    destruct (InlineVariable.declarationsLocsOf declarations index (snd declaration))
      as [locs|]; [|destruct Hc].
    destruct (InlineVariable.inlinableIdentifierOf (fst declaration)
                                                   (path_parent path))
      as [leaf|] eqn:Hleaf; [|destruct Hc].
    destruct Hc as [<-|[]].
    exists declaration, leaf. split; [exact Hin|]. split; [exact Hleaf|].
    right. exists locs. reflexivity. }
  destruct declarations as [|d [|d' rest]] eqn:Hdecls; try exact Hmany.
  destruct (InlineVariable.inlinableIdentifierOf (fst d) (path_parent path))
    as [leaf|] eqn:Hleaf; [|discriminate].
  intros E. inversion E; subst c.
  exists d, leaf. split; [left; reflexivity|]. split; [exact Hleaf|].
  left. reflexivity.
Qed.

(** X11.  What [findInlinableCode] returns hangs together: its scope is
    the parent of a variable declaration of the tree, its identifier is
    the id of one declarator of that declaration and is an identifier with
    a range, and the selection it gives the editor to read is the range of
    the initializer of the same declarator. *)
Theorem findInlinableCode_parts
        (code : Node) (selection : Selection) (c : InlinableCode) :
  InlineVariable.findInlinableCode code selection = Some c ->
  exists path declaration init initLoc,
    In path (InlineVariable.traverseAST code)
    /\ Ast.isVariableDeclaration (path_node path) = true
    /\ declaringScope c = path_parent path
    /\ In declaration (Ast.fieldList "declarations" (path_node path))
    /\ Ast.field "id" declaration = Some (declaredId c)
    /\ Ast.isSelectableIdentifier (declaredId c) = true
    /\ Ast.field "init" declaration = Some init
    /\ loc init = Some initLoc
    /\ InlineVariable.selection c = Sel.fromAST initLoc.
Proof.
  intros Hfound.
  destruct (findInlinableCode_some_match _ _ Hfound) as (path & Hin & Henter).
  destruct (enter_parts _ _ Henter) as (Hv & d & leaf & Hd & Hleaf & Hc).
  destruct (inlinableIdentifierOf_parts _ _ Hleaf)
    as (init & initLoc & Hid & Hsel & Hinit & Hloc & Hscope & Hread).
  apply selectableDeclarations_In in Hd. destruct Hd as (Hd & _).
  exists path, (fst d), init, initLoc.
  destruct Hc as [->|(locs & ->)]; simpl; repeat split; assumption.
Qed.

Lemma found_can_be_removed
      (code : Node) (selection : Selection) (c : InlinableCode) :
  InlineVariable.findInlinableCode code selection = Some c ->
  exists toRemove, InlineVariable.codeToRemoveSelection c = Normal toRemove.
Proof.
  intros Hfound.
  destruct (findInlinableCode_some_match _ _ Hfound) as (path & _ & Henter).
  apply (enter_removal (selections := selections)) in Henter.
  destruct Henter as [(d & _ & Hleaf)|(_ & index & d & _ & _ & Hmerged)].
  - destruct Hleaf as (id & init & idLoc & initLoc & _ & _ & _ & _ & H).
    eexists. exact H.
  - destruct Hmerged as [(next & _ & H)|(_ & i & previous & _ & _ & H)];
      eexists; exact H.
Qed.

(** X12.  An invocation of [inlineVariable] makes exactly one call to the
    editor and returns, or throws without having called the editor; and it
    only throws when the scope of the declaration is itself an occurrence
    of the identifier, the one node the walk enters without a parent. *)
Theorem inlineVariable_one_call_or_throws
        (code : Node) (selection : Selection) (editor : Editor) :
  let run := InlineVariable.inlineVariable code selection editor in
  (threw run = false /\ exists call, calls run = [call])
  \/ (threw run = true
      /\ calls run = []
      /\ exists c,
          InlineVariable.findInlinableCode code selection = Some c
          /\ isOccurrence (declaredId c) (declaringScope c, []) = true).
Proof.
  cbv zeta. unfold InlineVariable.inlineVariable.
  destruct (InlineVariable.findInlinableCode code selection) as [c|] eqn:Hfound;
    [|left; split; [reflexivity|eexists; reflexivity]].
  destruct (InlineVariable.isRedeclared c);
    [left; split; [reflexivity|eexists; reflexivity]|].
  destruct (InlineVariable.isExported c);
    [left; split; [reflexivity|eexists; reflexivity]|].
  rewrite identifiersToReplace_eq.
  destruct (isOccurrence (declaredId c) (declaringScope c, [])) eqn:Hroot.
  - right. split; [reflexivity|]. split; [reflexivity|].
    exists c. split; [reflexivity|exact Hroot].
  - left. destruct (List.length _ =? 0);
            [split; [reflexivity|eexists; reflexivity]|].
    unfold InlineVariable.modifications.
    destruct (found_can_be_removed _ _ Hfound) as (toRemove & ->). simpl.
    split; [reflexivity|eexists; reflexivity].
Qed.

(** X13.  Inlining never rewrites the declaration nor a shadowed
    occurrence: every edit [inlineVariable] writes, but the last one that
    removes the declaration, is at the range of a node of the declaring
    scope that is equal to the declared identifier, that no ancestor
    shadows, and that does not lie within the declared identifier. *)
Theorem inlineVariable_edits_are_safe
        (code : Node) (selection : Selection) (editor : Editor)
        (target : Selection) (edits : list Edit) :
  InlineVariable.inlineVariable code selection editor
  = mkRun [ReadThenWrite target edits] false ->
  exists c,
    InlineVariable.findInlinableCode code selection = Some c
    /\ forall e,
        In e (removelast edits) ->
        exists n ancestors l,
          In (n, ancestors) (Ast.visits (declaringScope c))
          /\ loc n = Some l
          /\ edit_selection e = Sel.fromAST l
          /\ areEqual (declaredId c) n = true
          /\ InlineVariable.isShadowIn (declaredId c) ancestors = false
          /\ Ast.isInsideNode (Sel.fromAST l) (declaredId c) = false.
Proof.
  unfold InlineVariable.inlineVariable.
  destruct (InlineVariable.findInlinableCode code selection) as [c|];
    [|discriminate].
  destruct (InlineVariable.isRedeclared c); [discriminate|].
  destruct (InlineVariable.isExported c); [discriminate|].
  rewrite identifiersToReplace_eq.
  destruct (isOccurrence (declaredId c) (declaringScope c, [])); [discriminate|].
  destruct (List.length _ =? 0); [discriminate|].
  unfold InlineVariable.modifications.
  destruct (InlineVariable.codeToRemoveSelection c) as [toRemove|]; [|discriminate].
  simpl. intros H. inversion H; subst. clear H.
  exists c. split; [reflexivity|]. intros e He.
  rewrite removelast_last in He. apply in_map_iff in He.
  destruct He as (i & <- & Hi). apply in_flat_map in Hi.
  destruct Hi as ((n, ancestors) & Hsite & Hrecord).
  unfold replacementSites in Hsite. apply filter_In in Hsite.
  destruct Hsite as (Hvisit & Hsite).
  unfold isReplacementSite, isOccurrence, isDeclarationSite in Hsite. simpl in Hsite.
  repeat (apply andb_true_iff in Hsite; destruct Hsite as (Hsite & ?)).
  unfold recordOf in Hrecord. simpl in Hrecord.
  destruct (loc n) as [l|] eqn:Hl; [|destruct Hrecord].
  destruct (Ast.last ancestors) as [parent|]; [|destruct Hrecord].
  destruct Hrecord as [<-|[]]. simpl.
  exists n, ancestors, l.
  repeat match goal with H : negb _ = true |- _ => apply negb_true_iff in H end.
  repeat split; assumption.
Qed.

End FoundProperties.

Section WalkProperties.

Lemma pathsBelow_entered_ranges (n : Node) :
  forall parent,
    Forall (fun seen =>
              Ast.isExportNamedDeclaration (path_parent seen) = true ->
              Ast.isSelectableNode (path_parent seen) = true ->
              Ast.isSelectableNode (path_node seen) = true)
           (InlineVariable.pathsBelow (InlineVariable.entered parent n)).
Proof.
  induction n as [r t l nm sh cp cs IH] using Node_tree_ind. intros parent.
  set (n := mkNode r t l nm sh cp cs).
  set (n' := InlineVariable.inheritLoc parent n).
  change (InlineVariable.pathsBelow (InlineVariable.entered parent n))
    with (flat_map (fun kc : string * Node =>
                      mkNodeAndParent (snd kc) (InlineVariable.entered parent n)
                        :: InlineVariable.pathsBelow (snd kc))
                   (map (fun kc : string * Node =>
                           (fst kc, InlineVariable.entered n' (snd kc))) cs)).
  apply Forall_forall. intros seen Hseen. apply in_flat_map in Hseen.
  destruct Hseen as (kc' & Hkc' & Hseen). apply in_map_iff in Hkc'.
  destruct Hkc' as ((k, c) & <- & Hc). cbn [In fst snd] in Hseen.
  rewrite Forall_forall in IH. destruct Hseen as [<-|Hseen].
  - cbn [path_node path_parent].
    destruct (entered_fields n' c) as (_ & _ & Hcl).
    destruct (entered_fields parent n) as (_ & Hpt & Hpl).
    destruct (inheritLoc_fields parent n) as (_ & Hnt & _).
    intros Hexport Hparent. unfold Ast.isSelectableNode in Hparent.
    unfold Ast.isSelectableNode at 1.
    rewrite Hcl, inheritLoc_loc. rewrite Hpl in Hparent.
    rewrite (isExportNamedDeclaration_by_type
               (InlineVariable.entered parent n) n Hpt) in Hexport.
    rewrite (isExportNamedDeclaration_by_type n' n Hnt), Hexport.
    unfold Ast.isSelectableNode.
    destruct (loc c); simpl; [reflexivity|exact Hparent].
  - specialize (IH (k, c) Hc n'). rewrite Forall_forall in IH. apply IH. exact Hseen.
Qed.

(** X14.  After the walk of [findInlinableCode] every node directly
    inside a named export that has a range has a range itself, so that
    the selection can be found inside it. *)
Theorem traverseAST_export_children_have_ranges (code : Node) :
  Forall (fun seen =>
            Ast.isExportNamedDeclaration (path_parent seen) = true ->
            Ast.isSelectableNode (path_parent seen) = true ->
            Ast.isSelectableNode (path_node seen) = true)
         (InlineVariable.traverseAST code).
Proof.
  unfold InlineVariable.traverseAST, InlineVariable.walked.
  destruct code as [r t l nm sh cp cs]. set (code := mkNode r t l nm sh cp cs).
  set (seenRoot := Ast.setChildren _ code).
  change (InlineVariable.pathsBelow seenRoot)
    with (flat_map (fun kc : string * Node =>
                      mkNodeAndParent (snd kc) seenRoot
                        :: InlineVariable.pathsBelow (snd kc))
                   (map (fun kc : string * Node =>
                           (fst kc, InlineVariable.entered code (snd kc))) cs)).
  apply Forall_forall. intros seen Hseen. apply in_flat_map in Hseen.
  destruct Hseen as (kc' & Hkc' & Hseen). apply in_map_iff in Hkc'.
  destruct Hkc' as ((k, c) & <- & Hc). cbn [In fst snd] in Hseen.
  destruct Hseen as [<-|Hseen].
  - cbn [path_node path_parent].
    destruct (entered_fields code c) as (_ & _ & Hcl).
    intros Hexport Hparent. unfold Ast.isSelectableNode in Hparent.
    unfold Ast.isSelectableNode at 1.
    rewrite Hcl, inheritLoc_loc.
    change (Ast.isExportNamedDeclaration seenRoot)
      with (Ast.isExportNamedDeclaration code) in Hexport.
    rewrite Hexport. unfold Ast.isSelectableNode.
    destruct (loc c); simpl; [reflexivity|exact Hparent].
  - pose proof (pathsBelow_entered_ranges c code) as H.
    rewrite Forall_forall in H. apply H. exact Hseen.
Qed.

End WalkProperties.

Section ShadowSpreads.

Variable equal : Node -> Node -> bool.

(** X15.  Shadowing reaches everything below: once [isShadowIn] holds for
    the ancestors of a node, it holds for the node's own children and for
    every node entered below it; and below a node that redeclares the
    identifier, a function declaration by a parameter or a block by a
    declaration, every node is shadowed, at any depth. *)
Theorem isShadowIn_spreads_below
        (id n : Node) (ancestors : list Ast.Ancestor) :
  (Shadow.isShadowIn equal id ancestors = true ->
   forall visit,
     In visit (Ast.visitsFrom ancestors n) ->
     Shadow.isShadowIn equal id (snd visit) = true)
  /\ (Shadow.isDeclaredInFunction equal id n
      || Shadow.isDeclaredInScope equal id n = true ->
      forall k c visit,
        In (k, c) (children n) ->
        In visit (Ast.visitsFrom (ancestors ++ [Ast.mkAncestor n k]) c) ->
        Shadow.isShadowIn equal id (snd visit) = true).
Proof.
  assert (Hdown : forall start m visit,
             Shadow.isShadowIn equal id start = true ->
             In visit (Ast.visitsFrom start m) ->
             Shadow.isShadowIn equal id (snd visit) = true).
  { intros start m visit Hshadow Hin.
    destruct (visitsFrom_extends m start visit Hin) as (suffix & ->).
    unfold Shadow.isShadowIn in *. rewrite existsb_app, Hshadow. reflexivity. }
  split.
  - intros Hshadow visit Hin. apply (Hdown _ _ _ Hshadow Hin).
  - intros Hdeclared k c visit _ Hin.
    apply (Hdown (ancestors ++ [Ast.mkAncestor n k]) c visit); [|exact Hin].
    unfold Shadow.isShadowIn. rewrite existsb_app. simpl. rewrite Hdeclared.
    simpl. apply orb_true_r.
Qed.

End ShadowSpreads.

(* ===================================================================== *)
(** ** The further properties on the programs *)
(* ===================================================================== *)

Section FurtherOnPrograms.

Import Example MoreExamples.


(** From the return statement in [g], itself in [f], the function scope
    is [g]: the block between them is not a function, and [f] is
    further. *)
Lemma getFunctionScopePath_is_above_on_paths :
  ScopePaths.getFunctionScopePath isFunctionType returnPath = Some innerFunctionPath
  /\ In outerFunctionPath (Scope.ancestry returnPath)
  /\ ScopePaths.isFunction isFunctionType outerFunctionPath = true
  /\ exists nearer further,
      Scope.ancestry returnPath = nearer ++ innerFunctionPath :: further
      /\ Forall (fun q => ScopePaths.isFunction isFunctionType q = false) nearer.
Proof.
  split; [reflexivity|]. split; [cbv; tauto|]. split; [reflexivity|].
  apply (proj1 (getFunctionScopePath_is_above isFunctionType returnPath)
               innerFunctionPath); reflexivity.
Defined.

(** In [for (const i = 0; ; ) {}] the declaration is in the head of the
    loop and is no place for another declaration: the answer is the
    loop. *)
Lemma findAncestorThatCanHaveVariableDeclaration_on_a_for_loop :
  ScopePaths.findAncestorThatCanHaveVariableDeclaration
    isStatementType (Some loopDeclarationPath)
  = Some loopPath
  /\ InLoopHead loopDeclarationPath
  /\ exists nearer further,
      loopDeclarationPath :: Scope.ancestry loopDeclarationPath
      = nearer ++ loopPath :: further
      /\ CanDeclare isStatementType loopPath
      /\ Forall (fun q => ~ CanDeclare isStatementType q) nearer.
Proof.
  assert (H : ScopePaths.findAncestorThatCanHaveVariableDeclaration
                isStatementType (Some loopDeclarationPath)
              = Some loopPath) by reflexivity.
  split; [exact H|]. split.
  - split; [reflexivity|]. exists loopPath, loopDeclaration.
    split; [reflexivity|]. split; [|reflexivity].
    right. split; reflexivity.
  - exact (proj1 (findAncestorThatCanHaveVariableDeclaration_nearest
                    isStatementType loopDeclarationPath)).
Defined.

(** The names of [{ a: { c }, ...rest }]: [a] and [rest], not [c], which
    is under the value of [a]. *)
Lemma getNames_ignores_other_keys_on_a_pattern :
  ~ In "value" ScopePaths.patternKeys
  /\ ScopePaths.getNames nestedPattern = ["a"; "rest"]
  /\ ScopePaths.getNames (ScopePaths.without "value" nestedPattern)
     = ScopePaths.getNames nestedPattern.
Proof.
  assert (H : ~ In "value" ScopePaths.patternKeys).
  { simpl. intros [E|[E|[E|[E|[E|[]]]]]]; discriminate E. }
  split; [exact H|]. split; [reflexivity|].
  apply (getNames_ignores_other_keys nestedPattern H).
Defined.

(** On [ifs], with the cursor in the inner if statement, both
    refactorings are returned, each of them for a match. *)
Lemma findApplicableRefactorings_are_matches_on_ifs :
  ActionProvider.findApplicableRefactorings
    host [flipIfElse; mergeWithPreviousIfStatement] ifs (cursor 2 7)
  = Normal [flipIfElse; mergeWithPreviousIfStatement]
  /\ Forall (Justified host [flipIfElse; mergeWithPreviousIfStatement] ifs
                       (cursor 2 7))
            [flipIfElse; mergeWithPreviousIfStatement].
Proof.
  assert (H : ActionProvider.findApplicableRefactorings
                host [flipIfElse; mergeWithPreviousIfStatement] ifs (cursor 2 7)
              = Normal [flipIfElse; mergeWithPreviousIfStatement])
    by (vm_compute; reflexivity).
  split; [exact H|].
  apply (findApplicableRefactorings_are_matches _ _ _ _ H).
Defined.

(** The match of [flipIfElse] at the inner if statement of [ifs] is
    kept: its visitor and that of the other refactoring leave the paths
    alone.  With a visitor that stops the path at the outer if statement,
    the inner if statement is not entered, and the match another
    refactoring has there is lost. *)
Lemma findApplicableRefactorings_keeps_every_match_on_ifs :
  (MatchesAt (cursor 2 7) flipIfElse innerIf innerIf
   /\ exists applied,
       In applied [flipIfElse; mergeWithPreviousIfStatement]
       /\ ActionProvider.key (ActionProvider.command applied) = "flipIfElse")
  /\ (MatchesAt (cursor 2 7) mergeWithPreviousIfStatementInBlock innerIf innerIf
      /\ ActionProvider.findApplicableRefactorings
           host [flipIfElseThenStop; mergeWithPreviousIfStatementInBlock] ifs
           (cursor 2 7)
         = Normal [flipIfElseThenStop]).
Proof.
  assert (Hmatch : MatchesAt (cursor 2 7) flipIfElse innerIf innerIf).
  { eexists. split; [vm_compute; reflexivity|left; reflexivity]. }
  split; [split; [exact Hmatch|]|].
  - apply (@findApplicableRefactorings_keeps_every_match
             host [flipIfElse; mergeWithPreviousIfStatement] ifs (cursor 2 7)
             [flipIfElse; mergeWithPreviousIfStatement] flipIfElse innerIf innerIf).
    + vm_compute. reflexivity.
    + intros r path visited Hr _ _.
      assert (E : ActionProvider.createVisitor (ActionProvider.actionProvider r)
                  = onIfStatement)
        by (destruct Hr as [<-|[<-|[]]]; reflexivity).
      rewrite E. unfold ActionProvider.visit, onIfStatement. cbn.
      destruct (String.eqb (type (path_node path)) "IfStatement"); cbn;
        intros Hv; inversion Hv; reflexivity.
    + left. reflexivity.
    + reflexivity.
    + vm_compute. do 4 right. left. reflexivity.
    + exact Hmatch.
  - split; [|vm_compute; reflexivity].
    eexists. split; [vm_compute; reflexivity|left; reflexivity].
Defined.

(** What is found for [b] in [nested]: the declarator [b = 1] of the
    inner declaration, in the block of the function. *)
Lemma findInlinableCode_parts_on_nested :
  InlineVariable.findInlinableCode nested (cursor 2 8) = Some foundInNested
  /\ type (declaringScope foundInNested) = "BlockStatement"
  /\ name (declaredId foundInNested) = "b"
  /\ exists path declaration init initLoc,
      In path (InlineVariable.traverseAST nested)
      /\ Ast.isVariableDeclaration (path_node path) = true
      /\ declaringScope foundInNested = path_parent path
      /\ In declaration (Ast.fieldList "declarations" (path_node path))
      /\ Ast.field "id" declaration = Some (declaredId foundInNested)
      /\ Ast.isSelectableIdentifier (declaredId foundInNested) = true
      /\ Ast.field "init" declaration = Some init
      /\ loc init = Some initLoc
      /\ InlineVariable.selection foundInNested = Sel.fromAST initLoc.
Proof.
  assert (H : InlineVariable.findInlinableCode nested (cursor 2 8)
              = Some foundInNested) by (vm_compute; reflexivity).
  split; [exact H|]. split; [reflexivity|]. split; [reflexivity|].
  apply (findInlinableCode_parts nested (cursor 2 8) H).
Defined.

(** The three replacements written for [foo] in [uses] are at occurrences
    of [foo] that nothing shadows and that are not the declaration. *)
Lemma inlineVariable_edits_are_safe_on_uses :
  @InlineVariable.inlineVariable byName widening uses (cursor 1 7) editor
  = mkRun [ReadThenWrite (Sel.fromAST (mkLoc (mkPosition 1 12) (mkPosition 1 13)))
                         editsOfUses] false
  /\ List.length (removelast editsOfUses) = 3
  /\ exists c,
      InlineVariable.findInlinableCode uses (cursor 1 7) = Some c
      /\ forall e,
          In e (removelast editsOfUses) ->
          exists n ancestors l,
            In (n, ancestors) (Ast.visits (declaringScope c))
            /\ loc n = Some l
            /\ edit_selection e = Sel.fromAST l
            /\ @areEqual byName (declaredId c) n = true
            /\ @InlineVariable.isShadowIn byName (declaredId c) ancestors = false
            /\ Ast.isInsideNode (Sel.fromAST l) (declaredId c) = false.
Proof.
  assert (H : @InlineVariable.inlineVariable byName widening uses (cursor 1 7) editor
              = mkRun [ReadThenWrite
                         (Sel.fromAST (mkLoc (mkPosition 1 12) (mkPosition 1 13)))
                         editsOfUses] false)
    by (vm_compute; reflexivity).
  split; [exact H|]. split; [reflexivity|].
  apply (@inlineVariable_edits_are_safe byName widening uses (cursor 1 7) editor
                                        _ _ H).
Defined.

End FurtherOnPrograms.
